(** * Terminology search index and concept translation (main-server services)

    A shallow embedding of [src/main-server/src/services/fhirService.js]
    (classes [FHIRService] and [SearchService]) and the properties of
    search scoring, translation, value-set expansion and index build.

    Conventions of the embedding:
    - a JavaScript string is a [string] whose characters are the UTF-16
      code units below 256 (Latin-1); [toLowerCase] and [trim] are written
      out for that range;
    - relevance scores are JavaScript numbers that only ever hold integers,
      modelled in [Z]; the similarity of the fuzzy matcher is a binary64
      number, modelled by the primitive [float];
    - an array field of a stored document is absent, an array, or a value
      that cannot be iterated (see [Field]);
    - an [async] method becomes a function of the collaborator's replies
      (the [Env] record) to a [Result], [Throw] standing for a rejected
      promise;
    - the identifier and timestamp of an expansion come from the
      environment; the random identifiers of search bundles are left out. *)

From Stdlib Require Import List String Ascii ZArith Lia Bool Arith.
From Stdlib Require Import Permutation Sorted.
From Stdlib Require Import Floats.
Import ListNotations.

Local Open Scope string_scope.
Local Open Scope Z_scope.

(** ** JavaScript primitives used by the services *)

Module JS.

(** Truthiness of a string: only the empty string is falsy. *)
Definition truthy (s : string) : bool :=
  match s with EmptyString => false | String _ _ => true end.

(** Truthiness of an optional string field ([undefined] is falsy). *)
Definition truthy_opt (o : option string) : bool :=
  match o with Some s => truthy s | None => false end.

(** [String.prototype.toLowerCase] on one Latin-1 code unit: A-Z, and
    U+00C0-U+00DE except the multiplication sign U+00D7. *)
Definition lower_char (c : ascii) : ascii :=
  let n := nat_of_ascii c in
  if ((65 <=? n) && (n <=? 90))%nat then ascii_of_nat (n + 32)
  else if ((192 <=? n) && (n <=? 222) && negb (n =? 215))%nat
       then ascii_of_nat (n + 32)
       else c.

Fixpoint toLowerCase (s : string) : string :=
  match s with
  | EmptyString => EmptyString
  | String c s' => String (lower_char c) (toLowerCase s')
  end.

(** White space and line terminators below 256: TAB, LF, VT, FF, CR,
    SPACE and NBSP. *)
Definition is_space (c : ascii) : bool :=
  let n := nat_of_ascii c in
  (((9 <=? n) && (n <=? 13)) || (n =? 32) || (n =? 160))%nat.

Fixpoint trimStart (s : string) : string :=
  match s with
  | EmptyString => EmptyString
  | String c s' => if is_space c then trimStart s' else s
  end.

(** [trimEnd] drops a character when it is a space and everything after
    it has been dropped. *)
Fixpoint trimEnd (s : string) : string :=
  match s with
  | EmptyString => EmptyString
  | String c s' =>
      match trimEnd s' with
      | EmptyString => if is_space c then EmptyString else String c EmptyString
      | t => String c t
      end
  end.

Definition trim (s : string) : string := trimEnd (trimStart s).

(** [s.startsWith(q)] *)
Definition startsWith (s q : string) : bool := String.prefix q s.

(** [s.includes(q)]: [q] occurs in [s] at some position. *)
Fixpoint includes (s q : string) : bool :=
  String.prefix q s ||
  match s with
  | EmptyString => false
  | String _ s' => includes s' q
  end.

(** [s.length] as a JavaScript number. *)
Definition length (s : string) : Z := Z.of_nat (String.length s).

(** [Array.prototype.slice(start, end)] for integer arguments: a negative
    index counts from the end, both are clamped to the array. *)
Definition clamp_index (len i : Z) : Z :=
  if i <? 0 then Z.max (len + i) 0 else Z.min i len.

Definition slice {A} (l : list A) (start stop : Z) : list A :=
  let len := Z.of_nat (List.length l) in
  let k := clamp_index len start in
  let e := clamp_index len stop in
  firstn (Z.to_nat (e - k)) (skipn (Z.to_nat k) l).

(** [Array.prototype.find] *)
Definition find {A} (p : A -> bool) (l : list A) : option A := List.find p l.

(** Numbers: a non-negative integer as a binary64 value (exact below
    2^53). *)
Definition num (n : Z) : float := PrimFloat.of_uint63 (Uint63.of_Z n).

(** [Math.max(a, b)]: NaN if either is NaN, [+0] above [-0]. *)
Definition Math_max (a b : float) : float :=
  if PrimFloat.is_nan a || PrimFloat.is_nan b then PrimFloat.nan
  else if PrimFloat.ltb a b then b
  else if PrimFloat.ltb b a then a
  else if PrimFloat.is_zero a then PrimFloat.add a b
  else a.

(** [Math.floor(x)] of a finite number, as an integer; [None] for NaN and
    the infinities, which [Math.floor] returns unchanged. *)
Definition Math_floor (x : float) : option Z :=
  match FloatOps.Prim2SF x with
  | SpecFloat.S754_zero _ => Some 0
  | SpecFloat.S754_finite sign m e =>
      let z := if sign then Z.neg m else Z.pos m in
      Some (if 0 <=? e then z * 2 ^ e else z / 2 ^ (- e))
  | _ => None
  end.

End JS.

(** ** Outcomes of the asynchronous methods *)

(** What a method can throw: [Error(message)] raised by the service
    itself, a [TypeError] raised by the runtime on a value of the wrong
    shape, or a fault of a collaborator (data store, cache). *)
Inductive JsError : Type :=
| Error (message : string)
| TypeError
| Upstream (message : string).

Inductive Result (A : Type) : Type :=
| Ok (a : A)
| Throw (e : JsError).
Arguments Ok {A} a.
Arguments Throw {A} e.

Definition bind {A B} (r : Result A) (k : A -> Result B) : Result B :=
  match r with
  | Ok a => k a
  | Throw e => Throw e
  end.

Notation "'let?' x ':=' r 'in' k" := (bind r (fun x => k))
  (at level 10, x name, r at level 100, k at level 200).

(** A field of a stored document that the code reads as an array: it is
    absent or [null] ([Missing]), holds an array ([Present]), or holds a
    truthy value that can neither be iterated nor has the array methods,
    such as a non-zero number, [true] or a plain object ([Malformed]): on
    such a value [for...of], [.find] and [.map] raise a [TypeError].  Other
    values in the place of an array are not among the documents modelled:
    a string, which [for...of] iterates character by character without an
    error, and the falsy values [0], [false] and the empty string. *)
Inductive Field (A : Type) : Type :=
| Missing
| Present (a : A)
| Malformed.
Arguments Missing {A}.
Arguments Present {A} a.
Arguments Malformed {A}.

(** ** Stored documents *)

Record Property : Type := mkProperty {
  prop_code : string;
  p_valueString : option string;
  p_valueCode : option string
}.

Record Concept : Type := mkConcept {
  c_code : string;
  c_display : string;
  c_definition : option string;
  c_property : option (list Property)
}.

Record CodeSystem : Type := mkCodeSystem {
  cs_url : string;
  cs_name : string;
  cs_version : string;
  cs_concept : option (list Concept)
}.

Record MappingTarget : Type := mkTarget {
  t_code : string;
  t_display : string;
  t_equivalence : string;
  t_comment : option string
}.

Record MappingElement : Type := mkElement {
  e_code : string;
  e_display : string;
  e_target : Field (list MappingTarget)
}.

Record MappingGroup : Type := mkGroup {
  g_source : string;
  g_target : string;
  g_element : Field (list MappingElement)
}.

Record ConceptMap : Type := mkConceptMap {
  cm_sourceUri : string;
  cm_targetUri : string;
  cm_group : Field (list MappingGroup)
}.

Record Include : Type := mkInclude {
  inc_system : option string
}.

Record ValueSet : Type := mkValueSet {
  vs_id : string;
  vs_url : string;
  vs_version : string;
  vs_name : string;
  vs_title : string;
  vs_status : string;
  (** [compose?.include], absent when either level is *)
  vs_include : option (list Include)
}.

(** Derived records of the search index. *)
Record Mapping : Type := mkMapping {
  targetSystem : string;
  targetCode : string;
  targetDisplay : string;
  equivalence : string;
  comment : option string
}.

Record SearchEntry : Type := mkSearchEntry {
  system : string;
  systemType : string;
  systemName : string;
  code : string;
  display : string;
  definition : string;
  (** the field [searchTerms] (the name is taken by the method) *)
  se_searchTerms : list string;
  properties : list Property;
  mappings : list Mapping
}.

(** A JavaScript [Map] with string keys, in insertion order. *)
Definition Index : Type := list (string * SearchEntry).

(** The replies of the collaborators during one call: the three
    collections of the data store (a read either yields the documents in
    their natural order or fails), the two cache keys, the outcome of a cache
    write, and the clock and identifier source. *)
Record Env : Type := mkEnv {
  db_valuesets : Result (list ValueSet);
  db_codesystems : Result (list CodeSystem);
  db_conceptmaps : Result (list ConceptMap);
  (** [redis.get('search-index')]: no usable value, the text of an array of
      key-entry pairs (given parsed), or the text of a value of another
      shape, on which [new Map] raises a [TypeError] *)
  redis_get_index : Result (Field Index);
  redis_get_version : Result (option string);
  redis_setEx_index : Result unit;
  redis_setEx_version : Result unit;
  uuid : string;
  now : string
}.

(** [collection.findOne(query)]: the first document that matches. *)
Definition findOne {A} (coll : Result (list A)) (p : A -> bool)
  : Result (option A) :=
  let? docs := coll in Ok (List.find p docs).

(** [field?.find(p)]: [undefined] on an absent field, a [TypeError] on a
    value without [find]. *)
Definition find_opt {A} (f : Field (list A)) (p : A -> bool)
  : Result (option A) :=
  match f with
  | Missing => Ok None
  | Present l => Ok (JS.find p l)
  | Malformed => Throw TypeError
  end.

(** ** FHIRService *)

Module FHIRService.

(** The [Parameters] resource returned by [$translate]. *)
#[local] Unset Elimination Schemes.
Inductive Param : Type :=
| valueBoolean (name : string) (b : bool)
| valueString (name : string) (s : string)
| valueCode (name : string) (s : string)
| valueCoding (name : string) (system code display : string)
| part (name : string) (parts : list Param).
#[local] Set Elimination Schemes.

Record Parameters : Type := mkParameters {
  parameter : list Param
}.

Definition notFound (message : string) : Parameters :=
  mkParameters [valueBoolean "result" false; valueString "message" message].

(** The three lookups under [// Find translation]: the first group of the
    source system, its first element with the code, that element's first
    target of equivalence ['equivalent']. *)
Definition findTranslation (conceptMap : ConceptMap)
    (sourceSystem sourceCode : string) : Result (option MappingTarget) :=
  let? group :=
    find_opt (cm_group conceptMap)
      (fun g => String.eqb (g_source g) sourceSystem) in
  let? element :=
    match group with
    | None => Ok None
    | Some g => find_opt (g_element g)
                  (fun e => String.eqb (e_code e) sourceCode)
    end in
  match element with
  | None => Ok None
  | Some e => find_opt (e_target e)
                (fun t => String.eqb (t_equivalence t) "equivalent")
  end.

(** The successful answer for [target]. *)
Definition matchFound (targetSystem : string) (target : MappingTarget)
  : Parameters :=
  mkParameters
    [valueBoolean "result" true;
     part "match"
       [valueCode "equivalence" (t_equivalence target);
        valueCoding "concept" targetSystem
          (t_code target) (t_display target)]].

(** The query of [findOne] in [translateConcept]. *)
Definition forSystems (sourceSystem targetSystem : string) (m : ConceptMap)
  : bool :=
  String.eqb (cm_sourceUri m) sourceSystem
  && String.eqb (cm_targetUri m) targetSystem.

Definition translateConcept (env : Env)
    (sourceSystem sourceCode targetSystem : string) : Result Parameters :=
  let? conceptMap :=
    findOne (db_conceptmaps env) (forSystems sourceSystem targetSystem) in
  match conceptMap with
  | None => Ok (notFound "No ConceptMap found for the specified systems")
  | Some conceptMap =>
      let? target := findTranslation conceptMap sourceSystem sourceCode in
      match target with
      | None => Ok (notFound "No equivalent mapping found")
      | Some target => Ok (matchFound targetSystem target)
      end
  end.

(** One item of [expansion.contains]. *)
Record Contains : Type := mkContains {
  ct_system : string;
  ct_code : string;
  ct_display : string
}.

Record Expansion : Type := mkExpansion {
  x_identifier : string;
  x_timestamp : string;
  x_total : Z;
  x_offset : Z;
  x_parameter : list (string * string);
  x_contains : list Contains
}.

Record ExpandedValueSet : Type := mkExpanded {
  xv_id : string;
  xv_url : string;
  xv_version : string;
  xv_name : string;
  xv_title : string;
  xv_status : string;
  expansion : Expansion
}.

(** The predicate of [concepts.filter] in [expandValueSet]. *)
Definition matchesFilter (filterTerm : string) (concept : Concept) : bool :=
  JS.includes (JS.toLowerCase (c_display concept)) filterTerm
  || JS.includes (JS.toLowerCase (c_code concept)) filterTerm
  || match c_definition concept with
     | Some d => JS.includes (JS.toLowerCase d) filterTerm
     | None => false
     end.

(** [filter] is [None] for [undefined]; [count] and [offset] are the
    integers the caller passes (defaults 20 and 0). *)
Definition expandValueSet (env : Env) (url : string)
    (filter : option string) (count offset : Z) : Result ExpandedValueSet :=
  let? valueSet :=
    findOne (db_valuesets env) (fun v => String.eqb (vs_url v) url) in
  match valueSet with
  | None => Throw (Error "ValueSet not found")
  | Some valueSet =>
      match match vs_include valueSet with
            | Some (i :: _) => if JS.truthy_opt (inc_system i)
                               then inc_system i else None
            | _ => None
            end with
      | None => Throw (Error "ValueSet compose.include not found")
      | Some system =>
          let? codeSystem :=
            findOne (db_codesystems env)
              (fun c => String.eqb (cs_url c) system) in
          match codeSystem with
          | None => Throw (Error "Referenced CodeSystem not found")
          | Some codeSystem =>
              let concepts :=
                match cs_concept codeSystem with
                | Some l => l
                | None => []
                end in
              let concepts :=
                if JS.truthy_opt filter
                then List.filter
                       (matchesFilter
                          (JS.toLowerCase
                             (match filter with Some f => f | None => "" end)))
                       concepts
                else concepts in
              let total := Z.of_nat (List.length concepts) in
              let concepts := JS.slice concepts offset (offset + count) in
              Ok (mkExpanded (vs_id valueSet) (vs_url valueSet)
                    (vs_version valueSet) (vs_name valueSet)
                    (vs_title valueSet) (vs_status valueSet)
                    (mkExpansion (uuid env) (now env) total offset
                       (match filter with
                        | Some f => if JS.truthy f then [("filter", f)] else []
                        | None => []
                        end)
                       (List.map
                          (fun concept =>
                             mkContains system (c_code concept)
                               (c_display concept))
                          concepts)))
          end
      end
  end.

(** ** Bundles of conditions *)

Record Coding : Type := mkCoding {
  cd_system : option string
}.

(** A resource of a submitted bundle: its type, its id and the array
    [code?.coding]. *)
Record Resource : Type := mkResource {
  r_resourceType : option string;
  r_id : option string;
  r_coding : option (list Coding)
}.

Record SubmittedEntry : Type := mkSubmittedEntry {
  resource : option Resource
}.

Record SubmittedBundle : Type := mkSubmittedBundle {
  sb_id : option string;
  sb_entry : option (list SubmittedEntry)
}.

Definition isNamasteCoding (c : Coding) : bool :=
  match cd_system c with
  | Some s => String.eqb s "http://terminology.ayush.gov.in/CodeSystem/namaste"
  | None => false
  end.

Definition isICD11Coding (c : Coding) : bool :=
  match cd_system c with
  | Some s => JS.includes s "icd" || JS.includes s "who.int"
  | None => false
  end.

Definition validateDualCoding (condition : Resource) : Result bool :=
  match r_coding condition with
  | None =>
      Throw (Error "Dual coding required: At least NAMASTE and ICD-11 codes must be present")
  | Some coding =>
      if (List.length coding <? 2)%nat
      then Throw (Error "Dual coding required: At least NAMASTE and ICD-11 codes must be present")
      else
        let hasNamaste := existsb isNamasteCoding coding in
        let hasICD11 := existsb isICD11Coding coding in
        if negb hasNamaste
        then Throw (Error "NAMASTE code required for AYUSH conditions")
        else if negb hasICD11
        then Throw (Error "ICD-11 code required for international interoperability")
        else Ok true
  end.

(** [error.message] *)
Definition errorMessage (e : JsError) : string :=
  match e with
  | Error m => m
  | Upstream m => m
  | TypeError => "TypeError"
  end.

Record Response : Type := mkResponse {
  status : string;
  location : option string;
  lastModified : option string;
  (** [outcome.issue[0].details.text] *)
  outcome_text : option string
}.

(** The sources of identifiers and of time: the values of the successive
    calls of [uuidv4()] and of [new Date().toISOString()]. *)
Record Supply : Type := mkSupply {
  uuids : nat -> string;
  times : nat -> string
}.

(** The state of the loop of [processBundle]: the responses, the errors
    (entry number and message), and how many identifiers and instants were
    drawn. *)
Record Processed : Type := mkProcessed {
  processedEntries : list Response;
  errors : list (Z * string);
  uuidsDrawn : nat;
  timesDrawn : nat
}.

Definition isCondition (e : SubmittedEntry) : option Resource :=
  match resource e with
  | Some r =>
      match r_resourceType r with
      | Some t => if String.eqb t "Condition" then Some r else None
      | None => None
      end
  | None => None
  end.

(** One turn of the loop, for entry number [i]. *)
Definition processEntry (sup : Supply) (i : Z) (e : SubmittedEntry)
    (p : Processed) : Processed :=
  match isCondition e with
  | Some r =>
      match validateDualCoding r with
      | Ok _ =>
          if JS.truthy_opt (r_id r)
          then mkProcessed
                 (processedEntries p
                  ++ [mkResponse "201 Created"
                        (Some (String.append "Condition/"
                                 match r_id r with
                                 | Some id => id
                                 | None => ""
                                 end))
                        (Some (times sup (timesDrawn p))) None])%list
                 (errors p) (uuidsDrawn p) (S (timesDrawn p))
          else mkProcessed
                 (processedEntries p
                  ++ [mkResponse "201 Created"
                        (Some (String.append "Condition/"
                                 (uuids sup (uuidsDrawn p))))
                        (Some (times sup (timesDrawn p))) None])%list
                 (errors p) (S (uuidsDrawn p)) (S (timesDrawn p))
      | Throw err =>
          mkProcessed
            (processedEntries p
             ++ [mkResponse "400 Bad Request" None None
                   (Some (errorMessage err))])%list
            (errors p ++ [(i, errorMessage err)])%list
            (uuidsDrawn p) (timesDrawn p)
      end
  | None =>
      mkProcessed
        (processedEntries p
         ++ [mkResponse "200 OK" None (Some (times sup (timesDrawn p))) None])%list
        (errors p) (uuidsDrawn p) (S (timesDrawn p))
  end.

Fixpoint processEntries (sup : Supply) (i : Z) (es : list SubmittedEntry)
    (p : Processed) : Processed :=
  match es with
  | [] => p
  | e :: rest => processEntries sup (i + 1) rest (processEntry sup i e p)
  end.

Record TransactionResponse : Type := mkTransactionResponse {
  tr_id : string;
  tr_timestamp : string;
  tr_entry : list Response
}.

(** [processBundle]: a bundle without [entry] raises a [TypeError]; the
    audit event is written by [logAuditEvent], which reads the clock once and
    keeps its own failures to itself. *)
Definition processBundle (sup : Supply) (bundle : SubmittedBundle)
  : Result TransactionResponse :=
  match sb_entry bundle with
  | None => Throw TypeError
  | Some es =>
      let p := processEntries sup 0 es (mkProcessed [] [] 0 0) in
      Ok (mkTransactionResponse (uuids sup (uuidsDrawn p))
            (times sup (S (timesDrawn p))) (processedEntries p))
  end.

End FHIRService.

(** ** SearchService *)

Module SearchService.

Record State : Type := mkState {
  searchIndex : Index;
  indexVersion : option string
}.

(** [Map.prototype.get] *)
Fixpoint Map_get (k : string) (m : Index) : option SearchEntry :=
  match m with
  | [] => None
  | (k', v) :: m' => if String.eqb k' k then Some v else Map_get k m'
  end.

(** [Map.prototype.set]: an existing key keeps its position, a new key
    goes last. *)
Fixpoint Map_set (k : string) (v : SearchEntry) (m : Index) : Index :=
  match m with
  | [] => [(k, v)]
  | (k', v') :: m' =>
      if String.eqb k' k then (k', v) :: m' else (k', v') :: Map_set k v m'
  end.

(** [new Map(pairs)] *)
Definition Map_of (pairs : Index) : Index :=
  fold_left (fun m kv => Map_set (fst kv) (snd kv) m) pairs [].

(** [[...new Set(l)]]: the first occurrence of every value, in order. *)
Fixpoint dedupe (l : list string) : list string :=
  match l with
  | [] => []
  | x :: l' => x :: List.filter (fun y => negb (String.eqb y x)) (dedupe l')
  end.

(** The values pushed by the [forEach] over [concept.property]. *)
Definition propertyTerms (props : list Property) : list string :=
  flat_map
    (fun prop =>
       ((if JS.truthy_opt (p_valueString prop)
        then [JS.toLowerCase
                (match p_valueString prop with Some v => v | None => "" end)]
        else [])
       ++
       (if JS.truthy_opt (p_valueCode prop)
        then [JS.toLowerCase
                (match p_valueCode prop with Some v => v | None => "" end)]
        else []))%list)
    props.

Definition orEmpty (o : option string) : string :=
  match o with
  | Some s => s
  | None => ""
  end.

Definition createSearchEntry (concept : Concept) (codeSystem : CodeSystem)
  : SearchEntry :=
  let searchTerms :=
    ([JS.toLowerCase (c_code concept); JS.toLowerCase (c_display concept)]
     ++ (if JS.truthy_opt (c_definition concept)
         then [JS.toLowerCase (orEmpty (c_definition concept))]
         else []))%list in
  let searchTerms :=
    match c_property concept with
    | Some props => (searchTerms ++ propertyTerms props)%list
    | None => searchTerms
    end in
  let systemType :=
    if JS.includes (cs_url codeSystem) "namaste" then "namaste"
    else if JS.includes (cs_url codeSystem) "traditional-medicine"
         then "icd11-tm2"
    else if JS.includes (cs_url codeSystem) "icd" then "icd11-bio"
    else "unknown" in
  mkSearchEntry (cs_url codeSystem) systemType (cs_name codeSystem)
    (c_code concept) (c_display concept)
    (orEmpty (c_definition concept))
    (dedupe searchTerms)
    (match c_property concept with Some props => props | None => [] end)
    [].

(** The key template [`${url}|${code}`]. *)
Definition indexKey (url code : string) : string := url ++ "|" ++ code.

Definition setMappings (e : SearchEntry) (ms : list Mapping) : SearchEntry :=
  mkSearchEntry (system e) (systemType e) (systemName e) (code e)
    (display e) (definition e) (se_searchTerms e) (properties e) ms.

(** The mapping built from one target of an element of [group]. *)
Definition toMapping (group : MappingGroup) (target : MappingTarget)
  : Mapping :=
  mkMapping (g_target group) (t_code target) (t_display target)
    (t_equivalence target) (t_comment target).

(** ** The mapping pass.  Each loop returns the index as the mutations so
    far left it, with the exception that ended it, if any.  A [Missing]
    field fails the [if] before the loop and is passed over; on a
    [Malformed] one, a value that cannot be iterated, [for...of] (for the
    targets, [.map]) raises the [TypeError] that ends the pass. *)

Fixpoint forElements (group : MappingGroup) (elements : list MappingElement)
    (idx : Index) : Index * Result unit :=
  match elements with
  | [] => (idx, Ok tt)
  | element :: rest =>
      let sourceKey := indexKey (g_source group) (e_code element) in
      match Map_get sourceKey idx with
      | None => forElements group rest idx
      | Some sourceEntry =>
          match e_target element with
          | Missing => forElements group rest idx
          | Present targets =>
              forElements group rest
                (Map_set sourceKey
                   (setMappings sourceEntry
                      (List.map (toMapping group) targets))
                   idx)
          | Malformed => (idx, Throw TypeError)
          end
      end
  end.

Fixpoint forGroups (groups : list MappingGroup) (idx : Index)
  : Index * Result unit :=
  match groups with
  | [] => (idx, Ok tt)
  | group :: rest =>
      match g_element group with
      | Missing => forGroups rest idx
      | Present elements =>
          match forElements group elements idx with
          | (idx', Ok _) => forGroups rest idx'
          | (idx', Throw e) => (idx', Throw e)
          end
      | Malformed => (idx, Throw TypeError)
      end
  end.

Fixpoint forConceptMaps (conceptMaps : list ConceptMap) (idx : Index)
  : Index * Result unit :=
  match conceptMaps with
  | [] => (idx, Ok tt)
  | conceptMap :: rest =>
      match cm_group conceptMap with
      | Missing => forConceptMaps rest idx
      | Present groups =>
          match forGroups groups idx with
          | (idx', Ok _) => forConceptMaps rest idx'
          | (idx', Throw e) => (idx', Throw e)
          end
      | Malformed => (idx, Throw TypeError)
      end
  end.

(** [enhanceWithMappings]: the [catch] logs the error and returns
    normally; the second component is the error it logged, if any. *)
Definition enhanceWithMappings (env : Env) (idx : Index)
  : Index * option JsError :=
  match db_conceptmaps env with
  | Throw e => (idx, Some e)
  | Ok conceptMaps =>
      match forConceptMaps conceptMaps idx with
      | (idx', Ok _) => (idx', None)
      | (idx', Throw e) => (idx', Some e)
      end
  end.

(** The first loop of [buildSearchIndex]. *)
Definition indexConcepts (codeSystems : list CodeSystem) (idx : Index)
  : Index :=
  fold_left
    (fun idx codeSystem =>
       match cs_concept codeSystem with
       | Some concepts =>
           fold_left
             (fun idx concept =>
                Map_set (indexKey (cs_url codeSystem) (c_code concept))
                  (createSearchEntry concept codeSystem) idx)
             concepts idx
       | None => idx
       end)
    codeSystems idx.

(** [buildSearchIndex]: the state it leaves, the error the mapping pass
    logged, and whether it returned or threw. *)
Definition buildSearchIndex (env : Env) (st : State)
  : State * option JsError * Result unit :=
  match redis_get_index env with
  | Throw e => (st, None, Throw e)
  | Ok cachedIndex =>
  match redis_get_version env with
  | Throw e => (st, None, Throw e)
  | Ok cachedVersion =>
      match cachedIndex, JS.truthy_opt cachedVersion with
      | Malformed, true => (st, None, Throw TypeError)
      | Present indexData, true =>
          (mkState (Map_of indexData) cachedVersion, None, Ok tt)
      | _, _ =>
          match db_codesystems env with
          | Throw e => (st, None, Throw e)
          | Ok codeSystems =>
              let idx := indexConcepts codeSystems (searchIndex st) in
              let (idx, logged) := enhanceWithMappings env idx in
              let st' := mkState idx (Some (now env)) in
              match redis_setEx_index env with
              | Throw e => (st', logged, Throw e)
              | Ok _ =>
                  match redis_setEx_version env with
                  | Throw e => (st', logged, Throw e)
                  | Ok _ => (st', logged, Ok tt)
                  end
              end
          end
      end
  end
  end.

(** ** Scoring *)

(** One row of the matrix of [levenshteinDistance], from the row above:
    [diag] is [matrix[i-1][j-1]] and [left] is [matrix[i][j-1]]. *)
Fixpoint levRow (c2 : ascii) (str1 : list ascii) (above : list Z)
    (diag left : Z) : list Z :=
  match str1, above with
  | c1 :: str1', up :: above' =>
      let v := if Ascii.eqb c2 c1 then diag
               else Z.min (diag + 1) (Z.min (left + 1) (up + 1)) in
      v :: levRow c2 str1' above' up v
  | _, _ => []
  end.

(** Rows [i], [i+1], ... for the remaining characters of [str2]; the
    result is the last row. *)
Fixpoint levRows (str2 str1 : list ascii) (i : Z) (prev : list Z)
  : list Z :=
  match str2 with
  | [] => prev
  | c2 :: str2' =>
      levRows str2' str1 (i + 1)
        (i :: levRow c2 str1 (tl prev) (hd 0 prev) i)
  end.

Definition levenshteinDistance (str1 str2 : string) : Z :=
  let s1 := list_ascii_of_string str1 in
  let s2 := list_ascii_of_string str2 in
  let row0 := List.map Z.of_nat (seq 0 (S (List.length s1))) in
  last (levRows s2 s1 1 row0) 0.

Definition calculateFuzzyScore (searchTerm : string) (entry : SearchEntry)
  : float :=
  let targets :=
    [JS.toLowerCase (display entry); JS.toLowerCase (code entry)] in
  fold_left
    (fun maxScore target =>
       let distance := levenshteinDistance searchTerm target in
       let maxLength := Z.max (JS.length searchTerm) (JS.length target) in
       let similarity :=
         PrimFloat.sub 1 (PrimFloat.div (JS.num distance) (JS.num maxLength)) in
       JS.Math_max maxScore similarity)
    targets 0%float.

(** The blocks of [calculateRelevanceScore], each a function of the
    running [score]. *)
Definition codeStep (searchTerm : string) (entry : SearchEntry) (score : Z)
  : Z :=
  if String.eqb (JS.toLowerCase (code entry)) searchTerm then score + 100
  else if JS.includes (JS.toLowerCase (code entry)) searchTerm
       then score + 50
       else score.

Definition displayStep (searchTerm : string) (entry : SearchEntry)
    (score : Z) : Z :=
  if String.eqb (JS.toLowerCase (display entry)) searchTerm then score + 80
  else if JS.startsWith (JS.toLowerCase (display entry)) searchTerm
       then score + 60
  else if JS.includes (JS.toLowerCase (display entry)) searchTerm
       then score + 40
       else score.

Definition definitionStep (searchTerm : string) (entry : SearchEntry)
    (score : Z) : Z :=
  if JS.truthy (definition entry)
     && JS.includes (JS.toLowerCase (definition entry)) searchTerm
  then score + 20
  else score.

Definition termsStep (searchTerm : string) (entry : SearchEntry) (score : Z)
  : Z :=
  fold_left
    (fun score term =>
       if JS.includes term searchTerm
          && negb (String.eqb term (JS.toLowerCase (code entry)))
          && negb (String.eqb term (JS.toLowerCase (display entry)))
       then score + 10
       else score)
    (se_searchTerms entry) score.

(** The literal [0.7], as the binary64 value nearest to it. *)
Definition threshold : float := 0x1.6666666666666p-1%float.

(** An invocation of [calculateFuzzyScore], by its arguments. *)
Definition FuzzyCall : Type := (string * SearchEntry)%type.

(** The fuzzy block, with the invocations of the matcher it made.  In the
    branch that adds, the similarity is above 0.7 and at most 1, so the
    floor is an integer. *)
Definition fuzzyStep (searchTerm : string) (entry : SearchEntry)
    (fuzzy : bool) (score : Z) : Z * list FuzzyCall :=
  if fuzzy && (score =? 0) then
    let fuzzyScore := calculateFuzzyScore searchTerm entry in
    (if PrimFloat.ltb threshold fuzzyScore
     then score + match JS.Math_floor (PrimFloat.mul fuzzyScore 30) with
                  | Some n => n
                  | None => 0
                  end
     else score,
     [(searchTerm, entry)])
  else (score, []).

Definition boostStep (entry : SearchEntry) (score : Z) : Z :=
  if String.eqb (systemType entry) "namaste" then score + 5 else score.

(** [calculateRelevanceScore] with the matcher invocations it made. *)
Definition calculateRelevanceScore_run (searchTerm : string)
    (entry : SearchEntry) (fuzzy : bool) : Z * list FuzzyCall :=
  let score := 0 in
  let score := codeStep searchTerm entry score in
  let score := displayStep searchTerm entry score in
  let score := definitionStep searchTerm entry score in
  let score := termsStep searchTerm entry score in
  let (score, calls) := fuzzyStep searchTerm entry fuzzy score in
  let score := boostStep entry score in
  (score, calls).

Definition calculateRelevanceScore (searchTerm : string)
    (entry : SearchEntry) (fuzzy : bool) : Z :=
  fst (calculateRelevanceScore_run searchTerm entry fuzzy).

Definition fuzzyCalls (searchTerm : string) (entry : SearchEntry)
    (fuzzy : bool) : list FuzzyCall :=
  snd (calculateRelevanceScore_run searchTerm entry fuzzy).

(** ** Search *)

Record Options : Type := mkOptions {
  opt_systemFilter : option string;
  opt_systemType : option string;
  opt_limit : Z;
  opt_fuzzy : bool
}.

Definition defaultOptions : Options := mkOptions None None 20 false.

(** [{ ...entry, score }] *)
Record Scored : Type := mkScored {
  s_entry : SearchEntry;
  score : Z
}.

(** One [mapping] of the concept-mappings extension of a bundle entry: the
    target system, code, display and equivalence of a mapping, without its
    comment.  The extension is there when the list is not empty. *)
Record MappingExtension : Type := mkMappingExtension {
  mx_targetSystem : string;
  mx_targetCode : string;
  mx_targetDisplay : string;
  mx_equivalence : string
}.

Definition toMappingExtension (mapping : Mapping) : MappingExtension :=
  mkMappingExtension (targetSystem mapping) (targetCode mapping)
    (targetDisplay mapping) (equivalence mapping).

Record BundleEntry : Type := mkBundleEntry {
  fullUrl : string;
  coding_system : string;
  coding_code : string;
  coding_display : string;
  subject_reference : string;
  ext_definition : string;
  relevanceScore : Z;
  ext_systemType : string;
  ext_mappings : list MappingExtension;
  (** [search.score], [result.score / 100] *)
  search_score : float
}.

Record Bundle : Type := mkBundle {
  total : Z;
  (** the query of the [self] link, before URI encoding *)
  link_query : option string;
  entry : list BundleEntry;
  (** [issue[0].details.text] *)
  issue : option string
}.

Definition toBundleEntry (result : Scored) : BundleEntry :=
  let e := s_entry result in
  mkBundleEntry (system e ++ "/" ++ code e) (system e) (code e) (display e)
    ("CodeSystem/" ++ systemName e) (definition e) (score result)
    (systemType e) (List.map toMappingExtension (mappings e))
    (PrimFloat.div (JS.num (score result)) 100).

Definition createSearchBundle (results : list Scored) (query : string)
    (total : Z) : Bundle :=
  mkBundle total (Some query) (List.map toBundleEntry results) None.

Definition createEmptySearchBundle (message : string) : Bundle :=
  mkBundle 0 None [] (Some message).

(** The scan of [searchTerms] over the entries of the index, in
    insertion order, from the [results] collected so far. *)
Fixpoint scan (searchTerm : string) (opts : Options) (entries : Index)
    (results : list Scored) (calls : list FuzzyCall)
  : list Scored * list FuzzyCall :=
  match entries with
  | [] => (results, calls)
  | (_, entry) :: rest =>
      if JS.truthy_opt (opt_systemFilter opts)
         && negb (JS.includes (system entry)
                    (orEmpty (opt_systemFilter opts)))
      then scan searchTerm opts rest results calls
      else if JS.truthy_opt (opt_systemType opts)
              && negb (String.eqb (systemType entry)
                         (orEmpty (opt_systemType opts)))
      then scan searchTerm opts rest results calls
      else
        let (score, c) :=
          calculateRelevanceScore_run searchTerm entry (opt_fuzzy opts) in
        let results :=
          if score >? 0 then (results ++ [mkScored entry score])%list
          else results in
        if Z.of_nat (List.length results) >=? opt_limit opts * 3
        then (results, (calls ++ c)%list)
        else scan searchTerm opts rest results (calls ++ c)%list
  end.

(** The keys of the entries on which the loop of [searchTerms] runs its
    body, in order: every entry up to the one at which it breaks. *)
Fixpoint examined (searchTerm : string) (opts : Options) (entries : Index)
    (results : list Scored) : list string :=
  match entries with
  | [] => []
  | (key, entry) :: rest =>
      if JS.truthy_opt (opt_systemFilter opts)
         && negb (JS.includes (system entry)
                    (orEmpty (opt_systemFilter opts)))
      then key :: examined searchTerm opts rest results
      else if JS.truthy_opt (opt_systemType opts)
              && negb (String.eqb (systemType entry)
                         (orEmpty (opt_systemType opts)))
      then key :: examined searchTerm opts rest results
      else
        let score :=
          calculateRelevanceScore searchTerm entry (opt_fuzzy opts) in
        let results :=
          if score >? 0 then (results ++ [mkScored entry score])%list
          else results in
        if Z.of_nat (List.length results) >=? opt_limit opts * 3
        then [key]
        else key :: examined searchTerm opts rest results
  end.

(** [results.sort((a, b) => b.score - a.score)]: the sort is stable, so
    its result is that of inserting from the right, an element going before
    the first one the comparator does not put ahead of it. *)
Fixpoint insertByScore (a : Scored) (l : list Scored) : list Scored :=
  match l with
  | [] => [a]
  | b :: l' =>
      if score b - score a <=? 0 then a :: l else b :: insertByScore a l'
  end.

Definition sortByScore (results : list Scored) : list Scored :=
  fold_right insertByScore [] results.

(** [searchTerms] with the matcher invocations of its scan. *)
Definition searchTerms_run (st : State) (query : string) (opts : Options)
  : Result Bundle * list FuzzyCall :=
  let searchTerm := JS.trim (JS.toLowerCase query) in
  if JS.length searchTerm <? 2
  then (Ok (createEmptySearchBundle "Query too short"), [])
  else
    let (results, calls) := scan searchTerm opts (searchIndex st) [] [] in
    let sorted := sortByScore results in
    let limitedResults := JS.slice sorted 0 (opt_limit opts) in
    (Ok (createSearchBundle limitedResults query
           (Z.of_nat (List.length results))),
     calls).

Definition searchTerms (st : State) (query : string) (opts : Options)
  : Result Bundle :=
  fst (searchTerms_run st query opts).

(** ** Category search *)

(** The test of [searchByCategory] on the properties of an entry. *)
Definition categoryMatch (category : string) (entry : SearchEntry) : bool :=
  existsb
    (fun prop =>
       String.eqb (prop_code prop) "category"
       && match p_valueString prop with
          | Some v => JS.includes (JS.toLowerCase v) (JS.toLowerCase category)
          | None => false
          end)
    (properties entry).

(** The loop of [searchByCategory], from the [results] collected so far;
    [wanted] is its [systemType] argument. *)
Fixpoint categoryScan (category : string) (wanted : option string)
    (limit : Z) (entries : Index) (results : list SearchEntry)
  : list SearchEntry :=
  match entries with
  | [] => results
  | (_, entry) :: rest =>
      if JS.truthy_opt wanted
         && negb (String.eqb (systemType entry) (orEmpty wanted))
      then categoryScan category wanted limit rest results
      else
        let results :=
          if categoryMatch category entry then (results ++ [entry])%list
          else results in
        if Z.of_nat (List.length results) >=? limit then results
        else categoryScan category wanted limit rest results
  end.

(** An entry of the bundle [createSearchBundle] makes of results that carry
    no score: its [relevanceScore] is [undefined] and its [search.score] is
    NaN, and they are left out. *)
Record CategoryEntry : Type := mkCategoryEntry {
  ce_fullUrl : string;
  ce_system : string;
  ce_code : string;
  ce_display : string;
  ce_subject_reference : string;
  ce_definition : string;
  ce_systemType : string;
  ce_mappings : list MappingExtension
}.

Record CategoryBundle : Type := mkCategoryBundle {
  cat_total : Z;
  cat_link_query : string;
  cat_entry : list CategoryEntry
}.

Definition toCategoryEntry (e : SearchEntry) : CategoryEntry :=
  mkCategoryEntry (system e ++ "/" ++ code e) (system e) (code e) (display e)
    ("CodeSystem/" ++ systemName e) (definition e) (systemType e)
    (List.map toMappingExtension (mappings e)).

(** [searchByCategory(category, systemType, limit)], defaults [null] and
    50. *)
Definition searchByCategory (st : State) (category : string)
    (wanted : option string) (limit : Z) : Result CategoryBundle :=
  let results := categoryScan category wanted limit (searchIndex st) [] in
  Ok (mkCategoryBundle (Z.of_nat (List.length results))
        ("category:" ++ category) (List.map toCategoryEntry results)).

(** ** Dual coding *)

Record CodingRef : Type := mkCodingRef {
  cr_system : string;
  cr_code : string;
  cr_display : string
}.

(** The object [{ tm2, bio }] of [findMappingsForCode]. *)
Record DualMappings : Type := mkDualMappings {
  tm2 : option CodingRef;
  bio : option CodingRef
}.

Definition noMappings : DualMappings := mkDualMappings None None.

(** The loop over the groups of one concept map. *)
Fixpoint mappingsInGroups (sourceSystem sourceCode : string)
    (groups : list MappingGroup) (found : DualMappings)
  : Result DualMappings :=
  match groups with
  | [] => Ok found
  | group :: rest =>
      if String.eqb (g_source group) sourceSystem then
        match g_element group with
        | Missing => mappingsInGroups sourceSystem sourceCode rest found
        | Malformed => Throw TypeError
        | Present elements =>
            match JS.find (fun e => String.eqb (e_code e) sourceCode)
                    elements with
            | Some element =>
                match e_target element with
                | Present (target :: _) =>
                    if JS.includes (g_target group) "traditional-medicine"
                    then mappingsInGroups sourceSystem sourceCode rest
                           (mkDualMappings
                              (Some (mkCodingRef (g_target group)
                                       (t_code target) (t_display target)))
                              (bio found))
                    else if JS.includes (g_target group) "mms"
                    then mappingsInGroups sourceSystem sourceCode rest
                           (mkDualMappings (tm2 found)
                              (Some (mkCodingRef (g_target group)
                                       (t_code target) (t_display target))))
                    else mappingsInGroups sourceSystem sourceCode rest found
                | _ => mappingsInGroups sourceSystem sourceCode rest found
                end
            | None => mappingsInGroups sourceSystem sourceCode rest found
            end
        end
      else mappingsInGroups sourceSystem sourceCode rest found
  end.

(** The loop over the concept maps of the source system. *)
Fixpoint mappingsInMaps (sourceSystem sourceCode : string)
    (conceptMaps : list ConceptMap) (found : DualMappings)
  : Result DualMappings :=
  match conceptMaps with
  | [] => Ok found
  | conceptMap :: rest =>
      match cm_group conceptMap with
      | Missing => mappingsInMaps sourceSystem sourceCode rest found
      | Malformed => Throw TypeError
      | Present groups =>
          let? found :=
            mappingsInGroups sourceSystem sourceCode groups found in
          mappingsInMaps sourceSystem sourceCode rest found
      end
  end.

(** [findMappingsForCode]: any exception is logged and answered by
    [{ tm2: null, bio: null }]. *)
Definition findMappingsForCode (env : Env) (sourceSystem sourceCode : string)
  : DualMappings :=
  match db_conceptmaps env with
  | Throw _ => noMappings
  | Ok docs =>
      match mappingsInMaps sourceSystem sourceCode
              (List.filter
                 (fun m => String.eqb (cm_sourceUri m) sourceSystem) docs)
              noMappings with
      | Ok found => found
      | Throw _ => noMappings
      end
  end.

(** One element of [enhancedResults]; the bundle entry made of it lists the
    NAMASTE coding, the two other codings when present, and the score. *)
Record DualRecord : Type := mkDualRecord {
  namaste : CodingRef;
  icd11TM2 : option CodingRef;
  icd11Bio : option CodingRef;
  dual_relevanceScore : float
}.

Record DualBundle : Type := mkDualBundle {
  dual_total : Z;
  dual_entry : list DualRecord
}.

Definition toDualRecord (env : Env) (e : BundleEntry) : DualRecord :=
  let found := findMappingsForCode env (coding_system e) (coding_code e) in
  mkDualRecord
    (mkCodingRef (coding_system e) (coding_code e) (coding_display e))
    (tm2 found) (bio found) (search_score e).

(** [searchWithDualCoding(query, limit)], default 20. *)
Definition searchWithDualCoding (env : Env) (st : State) (query : string)
    (limit : Z) : Result DualBundle :=
  let? namasteResults :=
    searchTerms st query (mkOptions None (Some "namaste") limit false) in
  let enhancedResults := List.map (toDualRecord env) (entry namasteResults) in
  Ok (mkDualBundle (Z.of_nat (List.length enhancedResults)) enhancedResults).

(** ** Refresh and statistics *)

(** [refreshIndex]: [delIndex] and [delVersion] are the outcomes of the two
    cache deletions, [env] holds the replies to the build that follows. *)
Definition refreshIndex (delIndex delVersion : Result unit) (env : Env)
    (st : State) : State * option JsError * Result unit :=
  match delIndex with
  | Throw e => (st, None, Throw e)
  | Ok _ =>
      match delVersion with
      | Throw e => (st, None, Throw e)
      | Ok _ => buildSearchIndex env (mkState [] (indexVersion st))
      end
  end.

(** [breakdown[t] = (breakdown[t] || 0) + 1] on an object given by its
    keys and counts. *)
Fixpoint countType (t : string) (breakdown : list (string * Z))
  : list (string * Z) :=
  match breakdown with
  | [] => [(t, 0 + 1)]
  | (t', n) :: rest =>
      if String.eqb t' t then (t', (if n =? 0 then 0 else n) + 1) :: rest
      else (t', n) :: countType t rest
  end.

Record IndexStats : Type := mkIndexStats {
  totalEntries : Z;
  stats_indexVersion : option string;
  systemBreakdown : list (string * Z);
  lastRefresh : option string
}.

Definition getIndexStats (env : Env) (st : State) : Result IndexStats :=
  let breakdown :=
    fold_left (fun b kv => countType (systemType (snd kv)) b)
      (searchIndex st) [] in
  let? lastRefresh := redis_get_version env in
  Ok (mkIndexStats (Z.of_nat (List.length (searchIndex st)))
        (indexVersion st) breakdown
        (if JS.truthy_opt lastRefresh then lastRefresh else None)).

End SearchService.

Import SearchService.

(** ** The rules of the relevance scorer, as the specification words them *)

(** Exact code match 100, code contains the query 50. *)
Definition codeIncrement (q : string) (e : SearchEntry) : Z :=
  if String.eqb (JS.toLowerCase (code e)) q then 100
  else if JS.includes (JS.toLowerCase (code e)) q then 50
  else 0.

(** Exact display match 80, else display starts with the query 60, else
    display contains the query 40, else nothing. *)
Definition displayIncrement (q : string) (e : SearchEntry) : Z :=
  if String.eqb (JS.toLowerCase (display e)) q then 80
  else if JS.startsWith (JS.toLowerCase (display e)) q then 60
  else if JS.includes (JS.toLowerCase (display e)) q then 40
  else 0.

(** Definition contains the query 20. *)
Definition definitionIncrement (q : string) (e : SearchEntry) : Z :=
  if JS.truthy (definition e) && JS.includes (JS.toLowerCase (definition e)) q
  then 20 else 0.

(** A search term other than the code and the display that contains the
    query. *)
Definition otherTermMatches (q codeTerm displayTerm term : string) : bool :=
  JS.includes term q
  && negb (String.eqb term codeTerm)
  && negb (String.eqb term displayTerm).

(** 10 for each such term. *)
Definition termsIncrement (q : string) (e : SearchEntry) : Z :=
  10 * Z.of_nat
         (List.length
            (List.filter
               (otherTermMatches q (JS.toLowerCase (code e))
                  (JS.toLowerCase (display e)))
               (se_searchTerms e))).

(** 5 for an entry of the national vocabulary. *)
Definition boostIncrement (e : SearchEntry) : Z :=
  if String.eqb (systemType e) "namaste" then 5 else 0.

(** The score of the code, display, definition and search-term rules: the
    running score at the fuzzy block. *)
Definition textScore (q : string) (e : SearchEntry) : Z :=
  codeIncrement q e + displayIncrement q e + definitionIncrement q e
  + termsIncrement q e.

(** What the fuzzy matcher adds for a similarity: [floor(similarity * 30)]
    above 0.7, nothing otherwise. *)
Definition fuzzyContribution (similarity : float) : Z :=
  if PrimFloat.ltb threshold similarity
  then match JS.Math_floor (PrimFloat.mul similarity 30) with
       | Some n => n
       | None => 0
       end
  else 0.

(** The terms after the code and the display: the definition, when not
    empty, and the property values. *)
Definition otherTerms (e : SearchEntry) : list string :=
  ((if JS.truthy (definition e) then [JS.toLowerCase (definition e)] else [])
   ++ propertyTerms (properties e))%list.

(** The search terms of an entry are those [createSearchEntry] derives from
    its other fields: the lowercased code and display, then the other
    terms, without duplicates. *)
Definition termsDerived (e : SearchEntry) : Prop :=
  se_searchTerms e
  = dedupe (JS.toLowerCase (code e) :: JS.toLowerCase (display e)
            :: otherTerms e).

(** The condition under which the fuzzy block runs. *)
Definition fuzzyGate (q : string) (e : SearchEntry) (fuzzy : bool) : bool :=
  fuzzy && (textScore q e =? 0).

(** ** Auxiliary notions for the statements *)

(** The concepts an expansion pages over: those of the code system, kept by
    the filter when one is given. *)
Definition filteredConcepts (filter : option string) (codeSystem : CodeSystem)
  : list Concept :=
  let concepts :=
    match cs_concept codeSystem with Some l => l | None => [] end in
  match filter with
  | Some f =>
      if JS.truthy f
      then List.filter (FHIRService.matchesFilter (JS.toLowerCase f)) concepts
      else concepts
  | None => concepts
  end.

(** The system of the first [include] of a value set, when it has one. *)
Definition firstIncludeSystem (valueSet : ValueSet) : option string :=
  match vs_include valueSet with
  | Some (i :: _) => if JS.truthy_opt (inc_system i) then inc_system i else None
  | _ => None
  end.

(** The targets [.find] looks through: those of a present array, none for
    an absent one. *)
Definition targetsOf (e : MappingElement) : list MappingTarget :=
  match e_target e with
  | Present l => l
  | _ => []
  end.

Definition isEquivalent (t : MappingTarget) : bool :=
  String.eqb (t_equivalence t) "equivalent".

(** The cache holds no usable index: the build goes to the data store. *)
Definition cacheMiss (env : Env) : bool :=
  match redis_get_index env, redis_get_version env with
  | Ok cachedIndex, Ok cachedVersion =>
      match cachedIndex, JS.truthy_opt cachedVersion with
      | Present _, true => false
      | Malformed, true => false
      | _, _ => true
      end
  | _, _ => false
  end.

(** Two indexes with the same keys in the same order, whose entries differ
    at most in their [mappings]. *)
Definition sameButMappings (idx idx' : Index) : Prop :=
  Forall2
    (fun kv kv' =>
       fst kv' = fst kv /\ exists ms, snd kv' = setMappings (snd kv) ms)
    idx idx'.

(** The elements the mapping pass visits, in order, each with its group. *)
Definition elementsOf (conceptMaps : list ConceptMap)
  : list (MappingGroup * MappingElement) :=
  flat_map
    (fun conceptMap =>
       match cm_group conceptMap with
       | Present groups =>
           flat_map
             (fun group =>
                match g_element group with
                | Present elements => List.map (pair group) elements
                | _ => []
                end)
             groups
       | _ => []
       end)
    conceptMaps.

(** The key an element resolves to. *)
Definition sourceKeyOf (ge : MappingGroup * MappingElement) : string :=
  indexKey (g_source (fst ge)) (e_code (snd ge)).


(** Two search outcomes with the same total, entries and issue. *)
Definition sameResults (r r' : Result Bundle) : Prop :=
  match r, r' with
  | Ok b, Ok b' => total b = total b' /\ entry b = entry b' /\ issue b = issue b'
  | _, _ => False
  end.

(** The normalisation of the query at the head of [searchTerms]. *)
Definition normalizeQuery (query : string) : string :=
  JS.trim (JS.toLowerCase query).

(** The results [searchTerms] collects for a query, before the sort. *)
Definition collected (st : State) (query : string) (opts : Options)
  : list Scored :=
  fst (scan (normalizeQuery query) opts (searchIndex st) [] []).

(** Scores in descending order. *)
Definition byScore (a b : Scored) : Prop := score a >= score b.

Definition scoreDescending (a b : BundleEntry) : Prop :=
  relevanceScore a >= relevanceScore b.

(** ** Sample data *)

Definition namasteUrl : string :=
  "http://terminology.ayush.gov.in/CodeSystem/namaste".

Definition tm2Url : string :=
  "http://id.who.int/icd/release/11/traditional-medicine".

Definition conceptAAB : Concept := mkConcept "AAB" "Vata Jwara" None None.

Definition conceptVAT1 : Concept :=
  mkConcept "VAT1" "Vata disorder" (Some "A vata thing")
    (Some [mkProperty "category" (Some "Vata") None]).

Definition namasteSystem : CodeSystem :=
  mkCodeSystem namasteUrl "NAMASTE" "1" (Some [conceptAAB; conceptVAT1]).

Definition entryAAB : SearchEntry := createSearchEntry conceptAAB namasteSystem.

Definition entryVAT1 : SearchEntry :=
  createSearchEntry conceptVAT1 namasteSystem.

Definition sampleState : State :=
  mkState (indexConcepts [namasteSystem] []) None.

(** An index of four entries that all match the query [vata]. *)
Definition sampleLongIndex : Index :=
  indexConcepts
    [mkCodeSystem namasteUrl "NAMASTE" "1"
       (Some [conceptAAB; conceptVAT1;
              mkConcept "VAT2" "Vata vyadhi" None None;
              mkConcept "VAT3" "Vata roga" None None])]
    [].

Definition targetEquivalent : MappingTarget :=
  mkTarget "TM2.A0" "Disorders of Vata dosha" "equivalent" None.

Definition targetWider : MappingTarget :=
  mkTarget "TM2.Z9" "Other disorders" "wider" None.

Definition elementWider : MappingElement :=
  mkElement "AAB" "Vata Jwara" (Present [targetWider]).

Definition elementEquivalent : MappingElement :=
  mkElement "AAB" "Vata Jwara" (Present [targetEquivalent]).

Definition groupDuplicated : MappingGroup :=
  mkGroup namasteUrl tm2Url (Present [elementWider; elementEquivalent]).

Definition mapDuplicated : ConceptMap :=
  mkConceptMap namasteUrl tm2Url (Present [groupDuplicated]).

Definition groupSingle : MappingGroup :=
  mkGroup namasteUrl tm2Url (Present [elementEquivalent]).

Definition mapSingle : ConceptMap :=
  mkConceptMap namasteUrl tm2Url (Present [groupSingle]).

Definition groupMalformed : MappingGroup :=
  mkGroup namasteUrl tm2Url Malformed.

Definition mapMalformedFirst : ConceptMap :=
  mkConceptMap namasteUrl tm2Url (Present [groupMalformed; groupSingle]).




Definition sampleValueSet : ValueSet :=
  mkValueSet "vs1" "urn:vs:namaste" "1" "NamasteAll" "All" "active"
    (Some [mkInclude (Some namasteUrl)]).

(** A store with the sample code system, the given concept maps and an empty
    cache whose writes succeed. *)
Definition sampleEnv (conceptMaps : Result (list ConceptMap)) : Env :=
  mkEnv (Ok [sampleValueSet]) (Ok [namasteSystem]) conceptMaps
    (Ok Missing) (Ok None) (Ok tt) (Ok tt)
    "00000000-0000-4000-8000-000000000000" "2025-01-01T00:00:00.000Z".

(** ** Auxiliary notions for the further properties *)

(** A string that does not start with a space. *)
Definition noLeadingSpace (s : string) : Prop :=
  match s with
  | EmptyString => True
  | String c _ => JS.is_space c = false
  end.

(** The cells of a row [i] of the Levenshtein matrix, from column [j] on,
    lie between 0 and the larger of the two indices. *)
Fixpoint rowBound (i j : Z) (r : list Z) : Prop :=
  match r with
  | [] => True
  | v :: r' => 0 <= v <= Z.max i j /\ rowBound i (j + 1) r'
  end.

(** The cells of a row [i] of the Levenshtein matrix, from column [j] on,
    are at least the distance between the two indices. *)
Fixpoint rowLower (i j : Z) (r : list Z) : Prop :=
  match r with
  | [] => True
  | v :: r' => Z.abs (i - j) <= v /\ rowLower i (j + 1) r'
  end.

(** The concepts the build indexes, in order, each with its code system. *)
Definition conceptsOf (codeSystems : list CodeSystem)
  : list (CodeSystem * Concept) :=
  flat_map
    (fun codeSystem =>
       match cs_concept codeSystem with
       | Some concepts => List.map (pair codeSystem) concepts
       | None => []
       end)
    codeSystems.

(** The key under which a concept is indexed. *)
Definition conceptKey (p : CodeSystem * Concept) : string :=
  indexKey (cs_url (fst p)) (c_code (snd p)).

(** The effect of indexing one concept. *)
Definition putConcept (idx : Index) (p : CodeSystem * Concept) : Index :=
  Map_set (conceptKey p) (createSearchEntry (snd p) (fst p)) idx.

(** The keys of an index, in order. *)
Definition keysOf (idx : Index) : list string := List.map fst idx.

(** The index a build leaves. *)
Definition builtIndex (env : Env) (st : State) : Index :=
  searchIndex (fst (fst (buildSearchIndex env st))).

(** The sum of the counts of a breakdown, and the count it has for a type
    (0 when the type is absent). *)
Definition sumCounts (breakdown : list (string * Z)) : Z :=
  fold_right (fun kv acc => snd kv + acc) 0 breakdown.

Fixpoint countOf (t : string) (breakdown : list (string * Z)) : Z :=
  match breakdown with
  | [] => 0
  | (t', n) :: rest => if String.eqb t' t then n else countOf t rest
  end.

(** The number of entries of an index with a given system type. *)
Definition entriesOfType (t : string) (idx : Index) : Z :=
  Z.of_nat
    (List.length
       (List.filter (fun kv => String.eqb (systemType (snd kv)) t) idx)).

(** An entry the scan of [searchTerms] does not skip. *)
Definition passesFilters (opts : Options) (e : SearchEntry) : bool :=
  negb (JS.truthy_opt (opt_systemFilter opts)
        && negb (JS.includes (system e) (orEmpty (opt_systemFilter opts))))
  && negb (JS.truthy_opt (opt_systemType opts)
           && negb (String.eqb (systemType e) (orEmpty (opt_systemType opts)))).

(** The query occurs in the lowercased code, display or (non-empty)
    definition of the entry, or in one of its search terms. *)
Definition matchesText (q : string) (e : SearchEntry) : bool :=
  JS.includes (JS.toLowerCase (code e)) q
  || JS.includes (JS.toLowerCase (display e)) q
  || (JS.truthy (definition e)
      && JS.includes (JS.toLowerCase (definition e)) q)
  || existsb (fun term => JS.includes term q) (se_searchTerms e).

(** The matcher invocations of a search. *)
Definition searchFuzzyCalls (st : State) (query : string) (opts : Options)
  : list FuzzyCall :=
  snd (searchTerms_run st query opts).

(** The bundle of the sample search for "vata" among NAMASTE entries, and
    its first entry. *)
Definition sampleBundle : Bundle :=
  match searchTerms sampleState "vata"
          (mkOptions None (Some "namaste") 20 false) with
  | Ok b => b
  | Throw _ => createEmptySearchBundle ""
  end.

Definition sampleBundleEntry : BundleEntry :=
  hd (toBundleEntry (mkScored entryAAB 0)) (entry sampleBundle).

(** A field that is absent, or present with contents that pass [ok]. *)
Definition fieldOk {A} (ok : A -> bool) (f : Field A) : bool :=
  match f with
  | Missing => true
  | Present a => ok a
  | Malformed => false
  end.

(** A concept map none of whose group, element and target fields holds
    a value of the wrong shape. *)
Definition wellFormedMap (m : ConceptMap) : bool :=
  fieldOk
    (forallb
       (fun g =>
          fieldOk
            (forallb (fun e => fieldOk (fun _ => true) (e_target e)))
            (g_element g)))
    (cm_group m).

(** [r] is made of the first target of the first element with the code, in
    a group of the source system that satisfies [G] and whose target system
    is the system of [r]. *)
Definition fromFirstTarget (G : MappingGroup -> Prop)
    (sourceSystem sourceCode : string) (r : CodingRef) : Prop :=
  exists g elements e target rest,
    G g
    /\ g_source g = sourceSystem
    /\ g_target g = cr_system r
    /\ g_element g = Present elements
    /\ List.find (fun e => String.eqb (e_code e) sourceCode) elements = Some e
    /\ e_target e = Present (target :: rest)
    /\ cr_code r = t_code target
    /\ cr_display r = t_display target.

(** A group of a concept map of the store whose source is the system. *)
Definition groupOfSource (docs : list ConceptMap) (sourceSystem : string)
    (g : MappingGroup) : Prop :=
  exists m groups,
    In m docs
    /\ cm_sourceUri m = sourceSystem
    /\ cm_group m = Present groups
    /\ In g groups.

(** What holds of the two codings found for a code: each comes from a first
    target, the one to a system marked 'traditional-medicine', the other to
    a system marked 'mms' and not 'traditional-medicine'. *)
Definition classified (P : CodingRef -> Prop) (found : DualMappings) : Prop :=
  (forall r, tm2 found = Some r ->
             P r /\ JS.includes (cr_system r) "traditional-medicine" = true)
  /\ (forall r, bio found = Some r ->
                P r
                /\ JS.includes (cr_system r) "mms" = true
                /\ JS.includes (cr_system r) "traditional-medicine" = false).

(** An entry the loop of [searchByCategory] does not skip. *)
Definition typeWanted (wanted : option string) (e : SearchEntry) : bool :=
  negb (JS.truthy_opt wanted
        && negb (String.eqb (systemType e) (orEmpty wanted))).

(** The response [processBundle] owes to a submitted entry: created for a
    condition that passes the dual-coding validation, rejected with the
    message of the validation otherwise, and plain success for any other
    resource. *)
Definition answers (e : FHIRService.SubmittedEntry)
    (r : FHIRService.Response) : Prop :=
  match FHIRService.isCondition e with
  | Some c =>
      match FHIRService.validateDualCoding c with
      | Ok _ =>
          FHIRService.status r = "201 Created"
          /\ FHIRService.location r <> None
          /\ FHIRService.outcome_text r = None
      | Throw err =>
          FHIRService.status r = "400 Bad Request"
          /\ FHIRService.location r = None
          /\ FHIRService.outcome_text r
             = Some (FHIRService.errorMessage err)
      end
  | None =>
      FHIRService.status r = "200 OK"
      /\ FHIRService.location r = None
      /\ FHIRService.outcome_text r = None
  end.

(** The state a build leaves. *)
Definition builtState (env : Env) (st : State) : State :=
  fst (fst (buildSearchIndex env st)).

(** Sample submissions. *)
Definition sampleCondition : FHIRService.Resource :=
  FHIRService.mkResource (Some "Condition") None
    (Some [FHIRService.mkCoding (Some namasteUrl);
           FHIRService.mkCoding (Some "http://id.who.int/icd/release/11/mms")]).

Definition sampleSupply : FHIRService.Supply :=
  FHIRService.mkSupply (fun _ => "00000000-0000-4000-8000-000000000000")
    (fun _ => "2025-01-01T00:00:00.000Z").

Definition sampleSubmission : FHIRService.SubmittedBundle :=
  FHIRService.mkSubmittedBundle (Some "b1")
    (Some [FHIRService.mkSubmittedEntry (Some sampleCondition);
           FHIRService.mkSubmittedEntry
             (Some (FHIRService.mkResource (Some "Condition") (Some "c2")
                      (Some [FHIRService.mkCoding (Some namasteUrl)])));
           FHIRService.mkSubmittedEntry
             (Some (FHIRService.mkResource (Some "Patient") None None))]).

(** * Properties *)

(** ** JavaScript primitives *)

Example lower_ex : JS.toLowerCase "Vata Jwara-1" = "vata jwara-1".
Proof. reflexivity. Qed.

Example trim_ex : JS.trim "  a b  " = "a b".
Proof. reflexivity. Qed.

Example includes_ex : JS.includes "vata disorder" "ta d" = true.
Proof. reflexivity. Qed.

Example slice_ex : JS.slice [1; 2; 3; 4; 5] 1 3 = [2; 3].
Proof. reflexivity. Qed.

Example slice_negative_ex : JS.slice [1; 2; 3; 4; 5] 0 (-1) = [1; 2; 3; 4].
Proof. reflexivity. Qed.

Example floor_ex :
  JS.Math_floor
    (PrimFloat.mul (PrimFloat.sub 1 (PrimFloat.div (JS.num 1) (JS.num 5))) 30)
  = Some 24.
Proof. vm_compute. reflexivity. Qed.

Example levenshtein_ex : levenshteinDistance "kitten" "sitting" = 3.
Proof. reflexivity. Qed.

(** The length of a slice from a non-negative offset. *)
Lemma slice_length {A} (l : list A) (offset count : Z) :
  0 <= offset -> 0 <= count ->
  Z.of_nat (List.length (JS.slice l offset (offset + count)))
  = if offset <? Z.of_nat (List.length l)
    then Z.min count (Z.of_nat (List.length l) - offset)
    else 0.
Proof.
  intros Ho Hc. unfold JS.slice, JS.clamp_index.
  destruct (offset <? 0) eqn:E1; [apply Z.ltb_lt in E1; lia|].
  destruct (offset + count <? 0) eqn:E2; [apply Z.ltb_lt in E2; lia|].
  rewrite length_firstn, length_skipn.
  destruct (offset <? Z.of_nat (List.length l)) eqn:E3.
  - apply Z.ltb_lt in E3. lia.
  - apply Z.ltb_ge in E3. lia.
Qed.

(** A slice from the start up to a non-negative limit is a prefix. *)
Lemma slice_prefix {A} (l : list A) (limit : Z) :
  0 <= limit -> JS.slice l 0 limit = firstn (Z.to_nat limit) l.
Proof.
  intros H. unfold JS.slice, JS.clamp_index.
  change (0 <? 0) with false. cbv iota.
  destruct (limit <? 0) eqn:E; [apply Z.ltb_lt in E; lia|].
  replace (Z.min 0 (Z.of_nat (List.length l))) with 0 by lia.
  rewrite Z.sub_0_r. change (Z.to_nat 0) with 0%nat. rewrite skipn_O.
  destruct (Z.min_spec limit (Z.of_nat (List.length l))) as [[H1 ->]|[H1 ->]].
  - reflexivity.
  - rewrite Nat2Z.id. rewrite firstn_all.
    symmetry. apply firstn_all2. lia.
Qed.

(** ** The relevance scorer *)

Lemma codeStep_spec q e s : codeStep q e s = s + codeIncrement q e.
Proof.
  unfold codeStep, codeIncrement.
  destruct (String.eqb _ q); [reflexivity|].
  destruct (JS.includes _ q); lia.
Qed.

Lemma displayStep_spec q e s : displayStep q e s = s + displayIncrement q e.
Proof.
  unfold displayStep, displayIncrement.
  destruct (String.eqb _ q); [reflexivity|].
  destruct (JS.startsWith _ q); [reflexivity|].
  destruct (JS.includes _ q); lia.
Qed.

Lemma definitionStep_spec q e s :
  definitionStep q e s = s + definitionIncrement q e.
Proof.
  unfold definitionStep, definitionIncrement.
  destruct (_ && _); lia.
Qed.

Lemma fold_add_ten (p : string -> bool) (l : list string) (s : Z) :
  fold_left (fun score term => if p term then score + 10 else score) l s
  = s + 10 * Z.of_nat (List.length (List.filter p l)).
Proof.
  revert s. induction l as [|t l IH]; intros s; cbn [fold_left List.filter].
  - cbn [List.length]. lia.
  - rewrite IH. destruct (p t); cbn [List.length]; lia.
Qed.

Lemma termsStep_spec q e s : termsStep q e s = s + termsIncrement q e.
Proof.
  unfold termsStep, termsIncrement.
  apply (fold_add_ten
           (otherTermMatches q (JS.toLowerCase (code e))
              (JS.toLowerCase (display e)))).
Qed.

Lemma boostStep_spec e s : boostStep e s = s + boostIncrement e.
Proof.
  unfold boostStep, boostIncrement. destruct (String.eqb _ _); lia.
Qed.

(** The scorer, block by block: the text rules, then the fuzzy block under
    its gate, then the boost; the matcher is invoked under the gate only. *)
Lemma calculateRelevanceScore_run_spec q e fz :
  calculateRelevanceScore_run q e fz
  = (textScore q e
     + (if fuzzyGate q e fz
        then fuzzyContribution (calculateFuzzyScore q e) else 0)
     + boostIncrement e,
     if fuzzyGate q e fz then [(q, e)] else []).
Proof.
  unfold calculateRelevanceScore_run.
  rewrite codeStep_spec, displayStep_spec, definitionStep_spec, termsStep_spec.
  change (0 + codeIncrement q e + displayIncrement q e
          + definitionIncrement q e + termsIncrement q e)
    with (0 + textScore q e).
  rewrite Z.add_0_l.
  unfold fuzzyStep, fuzzyGate, fuzzyContribution.
  destruct (fz && (textScore q e =? 0)).
  - rewrite boostStep_spec.
    destruct (PrimFloat.ltb threshold _); f_equal; lia.
  - rewrite boostStep_spec. f_equal. lia.
Qed.

Lemma displayIncrement_nonneg q e : 0 <= displayIncrement q e.
Proof.
  unfold displayIncrement.
  destruct (String.eqb (JS.toLowerCase (display e)) q);
    destruct (JS.startsWith (JS.toLowerCase (display e)) q);
    destruct (JS.includes (JS.toLowerCase (display e)) q); lia.
Qed.

Lemma definitionIncrement_nonneg q e : 0 <= definitionIncrement q e.
Proof.
  unfold definitionIncrement.
  destruct (JS.truthy (definition e)
            && JS.includes (JS.toLowerCase (definition e)) q); lia.
Qed.

Lemma termsIncrement_nonneg q e : 0 <= termsIncrement q e.
Proof. unfold termsIncrement. lia. Qed.

(** C7: the display field adds exactly one of 80 (equal), 60 (starts with),
    40 (contains) or 0 to the score, the first that applies, and the score is
    the sum of that increment and those of the other rules. *)
Theorem display_adds_one_increment (q : string) (e : SearchEntry) (fz : bool) :
  (forall s, displayStep q e s = s + displayIncrement q e)
  /\ displayIncrement q e
     = (if String.eqb (JS.toLowerCase (display e)) q then 80
        else if JS.startsWith (JS.toLowerCase (display e)) q then 60
        else if JS.includes (JS.toLowerCase (display e)) q then 40
        else 0)
  /\ (displayIncrement q e = 80 \/ displayIncrement q e = 60
      \/ displayIncrement q e = 40 \/ displayIncrement q e = 0)
  /\ calculateRelevanceScore q e fz
     = codeIncrement q e + displayIncrement q e + definitionIncrement q e
       + termsIncrement q e
       + (if fuzzyGate q e fz
          then fuzzyContribution (calculateFuzzyScore q e) else 0)
       + boostIncrement e.
Proof.
  split; [intros s; apply displayStep_spec|].
  split; [reflexivity|].
  split.
  - unfold displayIncrement.
    destruct (String.eqb _ q); [now left|].
    destruct (JS.startsWith _ q); [now right; left|].
    destruct (JS.includes _ q); [now right; right; left|now right; right; right].
  - unfold calculateRelevanceScore.
    rewrite calculateRelevanceScore_run_spec. reflexivity.
Qed.

Example display_exact_not_summed :
  displayIncrement "vata jwara" entryAAB = 80
  /\ calculateRelevanceScore "vata jwara" entryAAB false = 85.
Proof. split; reflexivity. Qed.

(** The specification's example: "vata" against VAT1 "Vata disorder" scores
    through the text rules and the matcher is not invoked. *)
Example fuzzy_not_invoked_on_match :
  calculateRelevanceScore_run "vata" entryVAT1 true = (105, []).
Proof. reflexivity. Qed.

(** C2, as stated, fails: with fuzzy mode on, the query "zzzz" matches
    nothing of the NAMASTE entry AAB, whose relevance score is nevertheless 5
    (the boost), with and without fuzzy mode, and the matcher is invoked. *)
Lemma fuzzy_invoked_on_positive_score :
  2 <= JS.length "zzzz"
  /\ calculateRelevanceScore "zzzz" entryAAB false > 0
  /\ calculateRelevanceScore "zzzz" entryAAB true > 0
  /\ fuzzyCalls "zzzz" entryAAB true = [("zzzz", entryAAB)].
Proof. vm_compute. repeat split; congruence. Qed.

(** C2, amended: the matcher is invoked exactly when fuzzy mode is on and
    the score of the text rules, before the boost, is 0, and then once;
    never when that score is positive or fuzzy mode is off.  A similarity
    above 0.7 adds its floor times 30 to the score. *)
Theorem fuzzy_gated_on_text_score (q : string) (e : SearchEntry) (fz : bool) :
  fuzzyCalls q e fz = (if fz && (textScore q e =? 0) then [(q, e)] else [])
  /\ calculateRelevanceScore q e fz
     = (if fz && (textScore q e =? 0)
        then (if PrimFloat.ltb threshold (calculateFuzzyScore q e)
              then match JS.Math_floor
                           (PrimFloat.mul (calculateFuzzyScore q e) 30) with
                   | Some n => n
                   | None => 0
                   end
              else 0)
        else textScore q e)
       + boostIncrement e
  /\ calculateRelevanceScore q e false = textScore q e + boostIncrement e.
Proof.
  unfold fuzzyCalls, calculateRelevanceScore.
  rewrite !calculateRelevanceScore_run_spec.
  unfold fuzzyGate, fuzzyContribution. simpl.
  split; [reflexivity|]. split; [|lia].
  destruct fz; simpl; [|lia].
  destruct (textScore q e =? 0) eqn:E; [|lia].
  apply Z.eqb_eq in E. rewrite E. lia.
Qed.

Example fuzzy_adds_floor :
  calculateFuzzyScore "vata jwarb" entryAAB = 0x1.ccccccccccccdp-1%float
  /\ calculateRelevanceScore "vata jwarb" entryAAB true = 27 + 5.
Proof. vm_compute. split; reflexivity. Qed.

(** ** Search terms of an entry *)

Lemma dedupe_In (x : string) (l : list string) : In x (dedupe l) <-> In x l.
Proof.
  induction l as [|y l IH]; simpl; [tauto|].
  rewrite filter_In, IH.
  destruct (String.eqb_spec x y) as [->|Hne]; simpl; [tauto|].
  split.
  - intros [H|[H _]]; auto.
  - intros [H|H]; auto.
Qed.

Lemma NoDup_filter {A} (p : A -> bool) (l : list A) :
  NoDup l -> NoDup (List.filter p l).
Proof.
  induction 1 as [|x l Hx Hl IH]; simpl; [constructor|].
  destruct (p x); [|assumption].
  constructor; [|assumption].
  rewrite filter_In. tauto.
Qed.

Lemma dedupe_NoDup (l : list string) : NoDup (dedupe l).
Proof.
  induction l as [|y l IH]; simpl; constructor.
  - rewrite filter_In. intros [_ H].
    rewrite String.eqb_refl in H. discriminate.
  - now apply NoDup_filter.
Qed.

Lemma createSearchEntry_terms (c : Concept) (cs : CodeSystem) :
  se_searchTerms (createSearchEntry c cs)
  = dedupe (JS.toLowerCase (code (createSearchEntry c cs))
            :: JS.toLowerCase (display (createSearchEntry c cs))
            :: otherTerms (createSearchEntry c cs)).
Proof.
  unfold createSearchEntry, otherTerms. cbn [se_searchTerms code display
    definition properties].
  f_equal.
  destruct (c_definition c) as [d|]; destruct (c_property c) as [ps|];
    cbn [JS.truthy_opt orEmpty JS.truthy propertyTerms flat_map];
    try destruct (JS.truthy d); cbn [app]; rewrite ?app_nil_r; reflexivity.
Qed.

(** A duplicate-free list whose members all equal [x] has at most one. *)
Lemma NoDup_all_equal (x : string) (l : list string) :
  NoDup l -> (forall y, In y l -> y = x) -> (List.length l <= 1)%nat.
Proof.
  intros Hnd Hall. destruct l as [|a [|b l]]; simpl; try lia.
  exfalso. inversion Hnd as [|? ? Hna _]; subst.
  apply Hna. rewrite (Hall a), (Hall b); simpl; auto.
Qed.

Lemma filter_split_length {A} (p r : A -> bool) (l : list A) :
  List.length (List.filter p l)
  = (List.length (List.filter (fun x => p x && r x) l)
     + List.length (List.filter (fun x => p x && negb (r x)) l))%nat.
Proof.
  induction l as [|x l IH]; simpl; [reflexivity|].
  destruct (p x), (r x); simpl; lia.
Qed.

(** Replacing the code [q] by a longer code [c2] lets at most one more of
    the other terms count: the term [q] itself. *)
Lemma other_terms_count (q c2 d : string) (rest : list string) :
  (List.length (List.filter (otherTermMatches q c2 d) (dedupe (c2 :: d :: rest)))
   <= List.length (List.filter (otherTermMatches q q d) (dedupe (q :: d :: rest)))
      + 1)%nat.
Proof.
  set (L2 := dedupe (c2 :: d :: rest)).
  set (L1 := dedupe (q :: d :: rest)).
  rewrite (filter_split_length (otherTermMatches q c2 d)
             (fun t => String.eqb t q) L2).
  assert (H1 : (List.length
                  (List.filter
                     (fun t => otherTermMatches q c2 d t && String.eqb t q) L2)
                <= 1)%nat).
  { apply (NoDup_all_equal q).
    - apply NoDup_filter, dedupe_NoDup.
    - intros y Hy. apply filter_In in Hy. destruct Hy as [_ Hy].
      apply andb_true_iff in Hy. destruct Hy as [_ Hy].
      now apply String.eqb_eq in Hy. }
  assert (H2 : (List.length
                  (List.filter
                     (fun t => otherTermMatches q c2 d t
                               && negb (String.eqb t q)) L2)
                <= List.length (List.filter (otherTermMatches q q d) L1))%nat).
  { apply NoDup_incl_length.
    - apply NoDup_filter, dedupe_NoDup.
    - intros y Hy. apply filter_In in Hy. destruct Hy as [Hin Hy].
      apply andb_true_iff in Hy. destruct Hy as [Hm Hq].
      unfold otherTermMatches in Hm.
      apply andb_true_iff in Hm. destruct Hm as [Hm Hd].
      apply andb_true_iff in Hm. destruct Hm as [Hi Hc].
      apply filter_In. split.
      + unfold L1, L2 in *. apply (proj2 (dedupe_In _ _)).
        apply (proj1 (dedupe_In _ _)) in Hin.
        simpl in Hin. simpl. destruct Hin as [Hin|[Hin|Hin]].
        * subst y. rewrite String.eqb_refl in Hc. discriminate.
        * subst y. rewrite String.eqb_refl in Hd. discriminate.
        * right; right; assumption.
      + unfold otherTermMatches. rewrite Hi, Hq, Hd. reflexivity. }
  lia.
Qed.

(** Every entry [createSearchEntry] makes has its search terms derived
    from its fields, and the assignment of mappings keeps them so. *)
Lemma createSearchEntry_termsDerived (c : Concept) (cs : CodeSystem) :
  termsDerived (createSearchEntry c cs).
Proof. apply createSearchEntry_terms. Qed.

Lemma setMappings_termsDerived (e : SearchEntry) (ms : list Mapping) :
  termsDerived e -> termsDerived (setMappings e ms).
Proof. intros H. exact H. Qed.

(** The score does not read the mappings of an entry. *)
Lemma calculateRelevanceScore_setMappings
    (q : string) (e : SearchEntry) (ms : list Mapping) (fz : bool) :
  calculateRelevanceScore q (setMappings e ms) fz
  = calculateRelevanceScore q e fz.
Proof.
  unfold calculateRelevanceScore, calculateRelevanceScore_run, fuzzyStep.
  change (codeStep q (setMappings e ms)) with (codeStep q e).
  change (displayStep q (setMappings e ms)) with (displayStep q e).
  change (definitionStep q (setMappings e ms)) with (definitionStep q e).
  change (termsStep q (setMappings e ms)) with (termsStep q e).
  change (calculateFuzzyScore q (setMappings e ms))
    with (calculateFuzzyScore q e).
  destruct (fz && _); reflexivity.
Qed.

(** C6: of two entries that agree on display, definition, properties and
    system type, whatever their mappings, the one whose code equals the
    query (case-insensitively) scores strictly higher than the one whose
    code only contains it.  The entries are those of an index: their search
    terms are the ones [createSearchEntry] derives from their fields, which
    holds of every entry the service makes, before and after the mapping
    pass ([createSearchEntry_termsDerived], [setMappings_termsDerived],
    [build_entries_termsDerived]). *)
Theorem exact_code_outscores_substring
    (q : string) (e1 e2 : SearchEntry) (fz : bool) :
  termsDerived e1 ->
  termsDerived e2 ->
  display e1 = display e2 ->
  definition e1 = definition e2 ->
  properties e1 = properties e2 ->
  systemType e1 = systemType e2 ->
  JS.toLowerCase (code e1) = q ->
  JS.includes (JS.toLowerCase (code e2)) q = true ->
  JS.toLowerCase (code e2) <> q ->
  calculateRelevanceScore q e1 fz > calculateRelevanceScore q e2 fz.
Proof.
  intros Hterms1 Hterms2 Hdisp Hdef Hprops Htype Hexact Hsub Hproper.
  assert (Hc1 : codeIncrement q e1 = 100).
  { unfold codeIncrement. rewrite Hexact, String.eqb_refl. reflexivity. }
  assert (Hc2 : codeIncrement q e2 = 50).
  { unfold codeIncrement. rewrite Hsub.
    apply String.eqb_neq in Hproper. rewrite Hproper. reflexivity. }
  assert (Hd : displayIncrement q e1 = displayIncrement q e2).
  { unfold displayIncrement. rewrite Hdisp. reflexivity. }
  assert (Hf : definitionIncrement q e1 = definitionIncrement q e2).
  { unfold definitionIncrement. rewrite Hdef. reflexivity. }
  assert (Hb : boostIncrement e1 = boostIncrement e2).
  { unfold boostIncrement. rewrite Htype. reflexivity. }
  assert (Ht : termsIncrement q e2 <= termsIncrement q e1 + 10).
  { unfold termsIncrement.
    unfold termsDerived in Hterms1, Hterms2. rewrite Hterms1, Hterms2.
    assert (Ho : otherTerms e1 = otherTerms e2).
    { unfold otherTerms. rewrite Hdef, Hprops. reflexivity. }
    rewrite Ho, Hdisp, Hexact.
    pose proof (other_terms_count q (JS.toLowerCase (code e2))
                  (JS.toLowerCase (display e2)) (otherTerms e2)) as Hcount.
    lia. }
  pose proof (displayIncrement_nonneg q e2) as Hd0.
  pose proof (definitionIncrement_nonneg q e2) as Hf0.
  pose proof (termsIncrement_nonneg q e1) as Ht1.
  pose proof (termsIncrement_nonneg q e2) as Ht2.
  assert (Hg1 : fuzzyGate q e1 fz = false).
  { unfold fuzzyGate, textScore.
    replace (_ =? 0) with false; [apply andb_false_r|].
    symmetry. apply Z.eqb_neq. lia. }
  assert (Hg2 : fuzzyGate q e2 fz = false).
  { unfold fuzzyGate, textScore.
    replace (_ =? 0) with false; [apply andb_false_r|].
    symmetry. apply Z.eqb_neq. lia. }
  unfold calculateRelevanceScore.
  rewrite !calculateRelevanceScore_run_spec. cbn [fst].
  rewrite Hg1, Hg2. unfold textScore. lia.
Qed.

Lemma exact_code_outscores_substring_witness :
  calculateRelevanceScore "vata"
    (setMappings
       (createSearchEntry (mkConcept "VATA" "Vata disorder" None None)
          namasteSystem)
       [toMapping groupSingle targetEquivalent]) true
  > calculateRelevanceScore "vata"
      (createSearchEntry (mkConcept "VATA1" "Vata disorder" None None)
         namasteSystem) true.
Proof.
  apply (exact_code_outscores_substring "vata"
           (setMappings
              (createSearchEntry (mkConcept "VATA" "Vata disorder" None None)
                 namasteSystem)
              [toMapping groupSingle targetEquivalent])
           (createSearchEntry (mkConcept "VATA1" "Vata disorder" None None)
              namasteSystem)
           true);
    try reflexivity.
  vm_compute. discriminate.
Defined.

(** The count of other terms can favour the longer code, by one term. *)
Example substring_entry_gains_one_term :
  termsIncrement "vata"
    (createSearchEntry
       (mkConcept "VATA1" "Jwara" None
          (Some [mkProperty "alias" (Some "vata") None])) namasteSystem) = 10
  /\ termsIncrement "vata"
       (createSearchEntry
          (mkConcept "VATA" "Jwara" None
             (Some [mkProperty "alias" (Some "vata") None])) namasteSystem) = 0.
Proof. split; reflexivity. Qed.

(** ** The scan of [searchTerms] *)

Section Scan.

Variable searchTerm : string.
Variable opts : Options.

(** Whatever holds of the results so far and of every scored entry with a
    positive score holds of the results of the scan. *)
Lemma scan_Forall (P : Scored -> Prop) (entries : Index) :
  (forall k e,
     In (k, e) entries ->
     calculateRelevanceScore searchTerm e (opt_fuzzy opts) > 0 ->
     P (mkScored e (calculateRelevanceScore searchTerm e (opt_fuzzy opts)))) ->
  forall results calls,
    Forall P results ->
    Forall P (fst (scan searchTerm opts entries results calls)).
Proof.
  induction entries as [|[k e] rest IH]; intros Hin results calls Hres;
    cbn [scan]; [assumption|].
  assert (Hrest : forall k' e',
             In (k', e') rest ->
             calculateRelevanceScore searchTerm e' (opt_fuzzy opts) > 0 ->
             P (mkScored e'
                  (calculateRelevanceScore searchTerm e' (opt_fuzzy opts)))).
  { intros k' e' H. apply (Hin k' e'). now right. }
  destruct (_ && _); [now apply (IH Hrest)|].
  destruct (_ && _); [now apply (IH Hrest)|].
  destruct (calculateRelevanceScore_run searchTerm e (opt_fuzzy opts))
    as [sc c] eqn:E.
  assert (Hsc : sc = calculateRelevanceScore searchTerm e (opt_fuzzy opts)).
  { unfold calculateRelevanceScore. now rewrite E. }
  assert (Hres' : Forall P (if sc >? 0
                            then (results ++ [mkScored e sc])%list
                            else results)).
  { destruct (sc >? 0) eqn:Hpos; [|assumption].
    apply Forall_app. split; [assumption|].
    constructor; [|constructor].
    subst sc. apply (Hin k e); [now left|].
    apply Z.gtb_lt in Hpos. lia. }
  destruct (_ >=? _); [assumption|now apply (IH Hrest)].
Qed.

(** From fewer than three times the limit, the scan never collects more
    than that. *)
Lemma scan_length_bound (entries : Index) :
  forall results calls,
    Z.of_nat (List.length results) < 3 * opt_limit opts ->
    Z.of_nat
      (List.length (fst (scan searchTerm opts entries results calls)))
    <= 3 * opt_limit opts.
Proof.
  induction entries as [|[k e] rest IH]; intros results calls Hlen;
    cbn [scan]; [cbn [fst]; lia|].
  destruct (_ && _); [now apply IH|].
  destruct (_ && _); [now apply IH|].
  destruct (calculateRelevanceScore_run searchTerm e (opt_fuzzy opts))
    as [sc c].
  set (results' := if sc >? 0 then (results ++ [mkScored e sc])%list
                   else results).
  assert (Hlen' : Z.of_nat (List.length results')
                  <= Z.of_nat (List.length results) + 1).
  { unfold results'. destruct (sc >? 0); [|lia].
    rewrite length_app. cbn [List.length]. lia. }
  rewrite Z.geb_leb.
  destruct (Z.leb_spec (opt_limit opts * 3) (Z.of_nat (List.length results'))).
  - cbn [fst]. lia.
  - apply IH. lia.
Qed.

(** Once three times the limit have been collected, the rest of the
    index is not examined. *)
Lemma scan_stops_early (pre rest : Index) :
  forall results calls,
    Z.of_nat (List.length results) < 3 * opt_limit opts ->
    3 * opt_limit opts
    <= Z.of_nat (List.length (fst (scan searchTerm opts pre results calls))) ->
    scan searchTerm opts (pre ++ rest)%list results calls
    = scan searchTerm opts pre results calls.
Proof.
  induction pre as [|[k e] pre IH]; intros results calls Hlen Hfull.
  - cbn [scan fst] in Hfull. lia.
  - cbn [scan app] in *.
    destruct (_ && _); [now apply IH|].
    destruct (_ && _); [now apply IH|].
    destruct (calculateRelevanceScore_run searchTerm e (opt_fuzzy opts))
      as [sc c].
    set (results' := if sc >? 0 then (results ++ [mkScored e sc])%list
                     else results) in *.
    rewrite Z.geb_leb in *.
    destruct (Z.leb_spec (opt_limit opts * 3)
                (Z.of_nat (List.length results'))).
    + reflexivity.
    + apply IH; [lia|assumption].
Qed.

(** The same for the entries the loop runs its body on: none of the rest. *)
Lemma examined_stops_early (pre rest : Index) :
  forall results calls,
    Z.of_nat (List.length results) < 3 * opt_limit opts ->
    3 * opt_limit opts
    <= Z.of_nat (List.length (fst (scan searchTerm opts pre results calls))) ->
    examined searchTerm opts (pre ++ rest)%list results
    = examined searchTerm opts pre results.
Proof.
  induction pre as [|[k e] pre IH]; intros results calls Hlen Hfull.
  - cbn [scan fst] in Hfull. lia.
  - cbn [scan examined app] in *. unfold calculateRelevanceScore.
    destruct (_ && _); [f_equal; now apply (IH results calls)|].
    destruct (_ && _); [f_equal; now apply (IH results calls)|].
    destruct (calculateRelevanceScore_run searchTerm e (opt_fuzzy opts))
      as [sc c].
    cbn [fst].
    set (results' := if sc >? 0 then (results ++ [mkScored e sc])%list
                     else results) in *.
    rewrite Z.geb_leb in *.
    destruct (Z.leb_spec (opt_limit opts * 3)
                (Z.of_nat (List.length results'))).
    + reflexivity.
    + f_equal. apply (IH results' (calls ++ c)%list); [lia|assumption].
Qed.

(** The entries examined are the first entries of the index, in order. *)
Lemma examined_prefix (entries : Index) :
  forall results,
    exists n,
      (n <= List.length entries)%nat
      /\ examined searchTerm opts entries results
         = List.map fst (firstn n entries).
Proof.
  induction entries as [|[k e] rest IH]; intros results.
  - exists 0%nat. split; [apply Nat.le_refl|reflexivity].
  - cbn [examined].
    destruct (_ && _).
    { destruct (IH results) as [n [Hn E]]. exists (S n).
      cbn [List.length firstn List.map fst]. rewrite E.
      split; [lia|reflexivity]. }
    destruct (_ && _).
    { destruct (IH results) as [n [Hn E]]. exists (S n).
      cbn [List.length firstn List.map fst]. rewrite E.
      split; [lia|reflexivity]. }
    cbv zeta.
    destruct (_ >=? _).
    + exists 1%nat. cbn [List.length firstn List.map fst].
      split; [lia|reflexivity].
    + match goal with
      | |- context [examined _ _ rest ?r] => destruct (IH r) as [n [Hn E]]
      end.
      exists (S n). cbn [List.length firstn List.map fst]. rewrite E.
      split; [lia|reflexivity].
Qed.

(** The scan reads the entries examined and no other. *)
Lemma scan_examined (entries : Index) :
  forall results calls,
    scan searchTerm opts entries results calls
    = scan searchTerm opts
        (firstn (List.length (examined searchTerm opts entries results))
           entries)
        results calls.
Proof.
  induction entries as [|[k e] rest IH]; intros results calls;
    [reflexivity|].
  cbn [scan examined]. unfold calculateRelevanceScore.
  destruct (JS.truthy_opt (opt_systemFilter opts) && _) eqn:E1.
  { cbn [List.length firstn scan]. rewrite E1. apply IH. }
  destruct (JS.truthy_opt (opt_systemType opts) && _) eqn:E2.
  { cbn [List.length firstn scan]. rewrite E1, E2. apply IH. }
  destruct (calculateRelevanceScore_run searchTerm e (opt_fuzzy opts))
    as [sc c] eqn:E.
  cbn [fst].
  destruct (_ >=? _) eqn:E3.
  - cbn [List.length firstn scan]. rewrite E1, E2, E, E3. reflexivity.
  - cbn [List.length firstn scan]. rewrite E1, E2, E, E3. apply IH.
Qed.

End Scan.

(** ** The sort of [searchTerms] *)

Lemma insertByScore_Permutation (a : Scored) (l : list Scored) :
  Permutation (insertByScore a l) (a :: l).
Proof.
  induction l as [|b l IH]; cbn [insertByScore]; [reflexivity|].
  destruct (_ <=? _); [reflexivity|].
  rewrite IH. apply perm_swap.
Qed.

Lemma sortByScore_Permutation (l : list Scored) :
  Permutation (sortByScore l) l.
Proof.
  induction l as [|a l IH]; cbn [sortByScore fold_right]; [reflexivity|].
  fold (sortByScore l). rewrite insertByScore_Permutation. now constructor.
Qed.

Lemma insertByScore_sorted (a : Scored) (l : list Scored) :
  StronglySorted byScore l -> StronglySorted byScore (insertByScore a l).
Proof.
  induction 1 as [|b l Hl IH Hb]; cbn [insertByScore].
  - repeat constructor.
  - destruct (Z.leb_spec (score b - score a) 0) as [Hle|Hgt].
    + constructor; [now constructor|].
      constructor; [unfold byScore; lia|].
      eapply Forall_impl; [|exact Hb].
      unfold byScore. intros c Hc. lia.
    + constructor; [assumption|].
      eapply Permutation_Forall.
      * symmetry. apply insertByScore_Permutation.
      * constructor; [unfold byScore; lia|assumption].
  Qed.

Lemma sortByScore_sorted (l : list Scored) :
  StronglySorted byScore (sortByScore l).
Proof.
  induction l as [|a l IH]; cbn [sortByScore fold_right]; [constructor|].
  now apply insertByScore_sorted.
Qed.

Lemma firstn_In {A} (x : A) (n : nat) (l : list A) :
  In x (firstn n l) -> In x l.
Proof.
  intros H. rewrite <- (firstn_skipn n l). apply in_or_app. now left.
Qed.

Lemma StronglySorted_firstn {A} (R : A -> A -> Prop) (n : nat) (l : list A) :
  StronglySorted R l -> StronglySorted R (firstn n l).
Proof.
  intros H. revert n. induction H as [|a l Hl IH Ha]; intros [|n];
    cbn [firstn]; try constructor.
  - apply IH.
  - apply Forall_forall. intros x Hx.
    apply (proj1 (Forall_forall _ _) Ha). eapply firstn_In; eauto.
Qed.

Lemma StronglySorted_toBundleEntry (l : list Scored) :
  StronglySorted byScore l ->
  StronglySorted scoreDescending (List.map toBundleEntry l).
Proof.
  induction 1 as [|a l Hl IH Ha]; cbn [List.map]; constructor;
    [assumption|].
  apply Forall_map. eapply Forall_impl; [|exact Ha].
  intros b Hb. exact Hb.
Qed.

(** ** [searchTerms] *)

Lemma slice_In {A} (x : A) (l : list A) (start stop : Z) :
  In x (JS.slice l start stop) -> In x l.
Proof.
  unfold JS.slice. intros H. apply firstn_In in H.
  rewrite <- (firstn_skipn (Z.to_nat (JS.clamp_index (Z.of_nat (List.length l))
                                        start)) l).
  apply in_or_app. now right.
Qed.

Lemma searchTerms_short (st : State) (q : string) (opts : Options) :
  JS.length (normalizeQuery q) < 2 ->
  searchTerms st q opts = Ok (createEmptySearchBundle "Query too short").
Proof.
  intros H. unfold searchTerms, searchTerms_run.
  fold (normalizeQuery q).
  apply Z.ltb_lt in H. rewrite H. reflexivity.
Qed.

Lemma searchTerms_long (st : State) (q : string) (opts : Options) :
  2 <= JS.length (normalizeQuery q) ->
  searchTerms st q opts
  = Ok (createSearchBundle
          (JS.slice (sortByScore (collected st q opts)) 0 (opt_limit opts))
          q (Z.of_nat (List.length (collected st q opts)))).
Proof.
  intros H. unfold searchTerms, searchTerms_run, collected.
  fold (normalizeQuery q).
  apply Z.ltb_ge in H. rewrite H.
  destruct (scan _ _ _ _ _) as [results calls]. reflexivity.
Qed.

(** What was collected: entries of the index, with their positive score
    for the normalised query. *)
Lemma collected_scored (st : State) (q : string) (opts : Options) :
  Forall
    (fun r =>
       (exists k, In (k, s_entry r) (searchIndex st))
       /\ score r
          = calculateRelevanceScore (normalizeQuery q) (s_entry r)
              (opt_fuzzy opts)
       /\ score r > 0)
    (collected st q opts).
Proof.
  unfold collected. apply scan_Forall; [|constructor].
  intros k e Hin Hpos. cbn [s_entry score].
  split; [now exists k|]. split; [reflexivity|assumption].
Qed.

(** C5, as stated, fails at limit 0: the first matching entry is collected
    before the bound is checked, so the total is 1. *)
Lemma search_limit_zero_collects_one :
  exists b,
    searchTerms sampleState "vata" (mkOptions None None 0 false) = Ok b
    /\ total b = 1
    /\ ~ total b <= 3 * opt_limit (mkOptions None None 0 false).
Proof.
  eexists. split; [vm_compute; reflexivity|].
  split; [reflexivity|]. cbn. lia.
Qed.

(** C5, amended: for a limit of at least 1, the scan collects at most three
    times the limit entries, all of positive score, and stops at the entry
    that completes them without examining the rest of the index: when a
    first part [pre] of the index gives three times the limit, the loop
    runs its body on entries of [pre] only, and the collected results, the
    matcher invocations and the whole answer are those of a search over
    [pre] alone.  The total is the number collected, the entries returned
    are at most the limit and in descending order of score. *)
Theorem search_collects_at_most_three_limits
    (st : State) (q : string) (opts : Options) :
  1 <= opt_limit opts ->
  Z.of_nat (List.length (collected st q opts)) <= 3 * opt_limit opts
  /\ Forall (fun r => score r > 0) (collected st q opts)
  /\ (forall pre rest,
        searchIndex st = (pre ++ rest)%list ->
        3 * opt_limit opts
        <= Z.of_nat (List.length (collected (mkState pre None) q opts)) ->
        collected st q opts = collected (mkState pre None) q opts
        /\ scan (normalizeQuery q) opts (searchIndex st) [] []
           = scan (normalizeQuery q) opts pre [] []
        /\ searchTerms_run st q opts
           = searchTerms_run (mkState pre (indexVersion st)) q opts
        /\ exists n,
             (n <= List.length pre)%nat
             /\ examined (normalizeQuery q) opts (searchIndex st) []
                = List.map fst (firstn n pre))
  /\ exists b,
       searchTerms st q opts = Ok b
       /\ (2 <= JS.length (normalizeQuery q) ->
           total b = Z.of_nat (List.length (collected st q opts)))
       /\ total b <= 3 * opt_limit opts
       /\ Z.of_nat (List.length (entry b)) <= opt_limit opts
       /\ StronglySorted scoreDescending (entry b).
Proof.
  intros Hlimit.
  assert (Hbound : Z.of_nat (List.length (collected st q opts))
                   <= 3 * opt_limit opts).
  { unfold collected. apply scan_length_bound. cbn [List.length]. lia. }
  split; [exact Hbound|]. split.
  { eapply Forall_impl; [|apply collected_scored].
    cbv beta. intros r [_ [_ H]]. exact H. }
  split.
  { intros pre rest Hidx Hfull. unfold collected in *.
    cbn [searchIndex] in *.
    assert (Hscan : scan (normalizeQuery q) opts (searchIndex st) [] []
                    = scan (normalizeQuery q) opts pre [] []).
    { rewrite Hidx. apply scan_stops_early; [cbn [List.length]; lia|].
      assumption. }
    split; [now rewrite Hscan|]. split; [exact Hscan|]. split.
    - unfold searchTerms_run. cbn [searchIndex].
      fold (normalizeQuery q). now rewrite Hscan.
    - destruct (examined_prefix (normalizeQuery q) opts pre [])
        as [n [Hn E]].
      exists n. split; [exact Hn|].
      rewrite Hidx, <- E.
      apply (examined_stops_early _ _ pre rest [] []);
        [cbn [List.length]; lia|assumption]. }
  destruct (Z.lt_ge_cases (JS.length (normalizeQuery q)) 2) as [Hshort|Hlong].
  - exists (createEmptySearchBundle "Query too short").
    split; [now apply searchTerms_short|].
    cbn [createEmptySearchBundle total entry List.length].
    repeat split; try lia. constructor.
  - eexists. split; [now apply searchTerms_long|].
    cbn [createSearchBundle total entry].
    split; [reflexivity|]. split; [exact Hbound|].
    rewrite slice_prefix by lia. split.
    + rewrite length_map, length_firstn. lia.
    + apply StronglySorted_toBundleEntry, StronglySorted_firstn,
        sortByScore_sorted.
Qed.

Lemma search_collects_at_most_three_limits_witness :
  Z.of_nat (List.length (collected sampleState "vata" defaultOptions))
  <= 3 * opt_limit defaultOptions
  /\ searchTerms_run (mkState sampleLongIndex None) "vata"
       (mkOptions None None 1 false)
     = searchTerms_run (mkState (firstn 3 sampleLongIndex) None) "vata"
         (mkOptions None None 1 false).
Proof.
  split.
  - apply (search_collects_at_most_three_limits sampleState "vata"
             defaultOptions).
    cbn. lia.
  - destruct (search_collects_at_most_three_limits
                (mkState sampleLongIndex None) "vata"
                (mkOptions None None 1 false))
      as [_ [_ [Hstop _]]]; [cbn; lia|].
    destruct (Hstop (firstn 3 sampleLongIndex) (skipn 3 sampleLongIndex))
      as [_ [_ [Hrun _]]].
    + reflexivity.
    + vm_compute. intros H. discriminate H.
    + exact Hrun.
Defined.

(** The sort keeps the order of entries with equal scores and puts a higher
    score first. *)
Example search_sorted_ex :
  exists b,
    searchTerms sampleState "vata" defaultOptions = Ok b
    /\ total b = 2
    /\ List.map coding_code (entry b) = ["VAT1"; "AAB"]
    /\ List.map relevanceScore (entry b) = [105; 65].
Proof. eexists. split; [vm_compute; reflexivity|]. repeat split. Qed.

(** C10: the query is lowercased and trimmed first; a query whose
    normalised form has fewer than 2 characters gets the 'Query too short'
    bundle, and otherwise every returned entry is scored against the
    normalised query, so that queries with the same normalised form get the
    same results. *)
Theorem search_uses_normalized_query
    (st : State) (q : string) (opts : Options) :
  (JS.length (normalizeQuery q) < 2 ->
   searchTerms st q opts = Ok (createEmptySearchBundle "Query too short"))
  /\ (2 <= JS.length (normalizeQuery q) ->
      exists b,
        searchTerms st q opts = Ok b
        /\ issue b = None
        /\ Forall
             (fun be =>
                exists k e,
                  In (k, e) (searchIndex st)
                  /\ coding_system be = system e
                  /\ coding_code be = code e
                  /\ relevanceScore be
                     = calculateRelevanceScore (normalizeQuery q) e
                         (opt_fuzzy opts))
             (entry b))
  /\ (forall q',
        normalizeQuery q' = normalizeQuery q ->
        sameResults (searchTerms st q' opts) (searchTerms st q opts)).
Proof.
  split; [apply searchTerms_short|]. split.
  - intros Hlong. eexists. split; [now apply searchTerms_long|].
    cbn [createSearchBundle issue entry]. split; [reflexivity|].
    apply Forall_map. apply Forall_forall. intros r Hr.
    apply slice_In in Hr.
    apply (Permutation_in _ (sortByScore_Permutation _)) in Hr.
    pose proof (proj1 (Forall_forall _ _) (collected_scored st q opts) r Hr)
      as [[k Hk] [Hs _]].
    exists k, (s_entry r). cbn [toBundleEntry coding_system coding_code
      relevanceScore]. auto.
  - intros q' Heq.
    destruct (Z.lt_ge_cases (JS.length (normalizeQuery q)) 2) as [Hshort|Hlong].
    + rewrite (searchTerms_short st q opts Hshort).
      rewrite (searchTerms_short st q' opts) by (rewrite Heq; exact Hshort).
      cbn. auto.
    + rewrite (searchTerms_long st q opts Hlong).
      rewrite (searchTerms_long st q' opts) by (rewrite Heq; exact Hlong).
      unfold collected. rewrite Heq. cbn. auto.
Qed.

Lemma search_uses_normalized_query_witness :
  String.length " x " = 3%nat
  /\ searchTerms sampleState " x " defaultOptions
     = Ok (createEmptySearchBundle "Query too short").
Proof.
  split; [reflexivity|].
  apply (proj1 (search_uses_normalized_query sampleState " x "
                  defaultOptions)).
  vm_compute. reflexivity.
Defined.

(** The raw query " VATA " matches nothing as it stands; its normalised form
    matches both sample entries. *)
Example search_normalized_ex :
  calculateRelevanceScore " VATA " entryVAT1 false = 5
  /\ sameResults (searchTerms sampleState " VATA " defaultOptions)
       (searchTerms sampleState "vata" defaultOptions).
Proof. split; [reflexivity|]. vm_compute. repeat split. Qed.

(** ** Translation *)

Import FHIRService.

(** C1, as stated, fails when an earlier element has the same code: the map
    holds an element AAB with an equivalent target, and the translation is
    not found, because the first element AAB has only a wider target. *)
Lemma translate_misses_later_duplicate :
  db_conceptmaps (sampleEnv (Ok [mapDuplicated])) = Ok [mapDuplicated]
  /\ cm_sourceUri mapDuplicated = namasteUrl
  /\ cm_targetUri mapDuplicated = tm2Url
  /\ cm_group mapDuplicated = Present [groupDuplicated]
  /\ g_source groupDuplicated = namasteUrl
  /\ g_element groupDuplicated = Present [elementWider; elementEquivalent]
  /\ e_code elementEquivalent = "AAB"
  /\ In targetEquivalent (targetsOf elementEquivalent)
  /\ t_equivalence targetEquivalent = "equivalent"
  /\ translateConcept (sampleEnv (Ok [mapDuplicated])) namasteUrl "AAB" tm2Url
     = Ok (notFound "No equivalent mapping found").
Proof. repeat split; try reflexivity. now left. Qed.

(** C1, amended: with the first concept map of the two systems, its first
    group of the source system and that group's first element with the
    code, the translation is the first target of equivalence 'equivalent',
    returned with its code and display, that equivalence and the target
    system; when the element has no such target the answer is not-found. *)
Theorem translate_first_match
    (env : Env) (sourceSystem sourceCode targetSystem : string)
    (docs : list ConceptMap) (conceptMap : ConceptMap)
    (groups : list MappingGroup) (group : MappingGroup)
    (elements : list MappingElement) (element : MappingElement) :
  db_conceptmaps env = Ok docs ->
  List.find (forSystems sourceSystem targetSystem) docs = Some conceptMap ->
  cm_group conceptMap = Present groups ->
  List.find (fun g => String.eqb (g_source g) sourceSystem) groups
  = Some group ->
  g_element group = Present elements ->
  List.find (fun e => String.eqb (e_code e) sourceCode) elements
  = Some element ->
  e_target element <> Malformed ->
  match List.find isEquivalent (targetsOf element) with
  | Some target =>
      In target (targetsOf element)
      /\ t_equivalence target = "equivalent"
      /\ translateConcept env sourceSystem sourceCode targetSystem
         = Ok (mkParameters
                 [valueBoolean "result" true;
                  part "match"
                    [valueCode "equivalence" "equivalent";
                     valueCoding "concept" targetSystem
                       (t_code target) (t_display target)]])
  | None =>
      (forall target, In target (targetsOf element) ->
                      t_equivalence target <> "equivalent")
      /\ translateConcept env sourceSystem sourceCode targetSystem
         = Ok (notFound "No equivalent mapping found")
  end.
Proof.
  intros Hdocs Hmap Hgroups Hgroup Helements Helement Htargets.
  assert (Hfind : findTranslation conceptMap sourceSystem sourceCode
                  = Ok (List.find isEquivalent (targetsOf element))).
  { unfold findTranslation, find_opt, JS.find. rewrite Hgroups. cbn [bind].
    rewrite Hgroup, Helements. cbn [bind].
    rewrite Helement. unfold targetsOf.
    destruct (e_target element); [reflexivity|reflexivity|congruence]. }
  assert (Htr : translateConcept env sourceSystem sourceCode targetSystem
                = match List.find isEquivalent (targetsOf element) with
                  | Some target => Ok (matchFound targetSystem target)
                  | None => Ok (notFound "No equivalent mapping found")
                  end).
  { unfold translateConcept, findOne. rewrite Hdocs. cbn [bind].
    rewrite Hmap, Hfind. reflexivity. }
  destruct (List.find isEquivalent (targetsOf element)) as [target|] eqn:E.
  - apply find_some in E. destruct E as [Hin Heq].
    apply String.eqb_eq in Heq.
    split; [assumption|]. split; [assumption|].
    rewrite Htr. unfold matchFound. rewrite Heq. reflexivity.
  - split; [|assumption].
    intros target Hin Heq.
    pose proof (find_none _ _ E target Hin) as Hn.
    unfold isEquivalent in Hn. rewrite Heq in Hn. discriminate.
Qed.

Lemma translate_first_match_witness :
  translateConcept (sampleEnv (Ok [mapSingle])) namasteUrl "AAB" tm2Url
  = Ok (mkParameters
          [valueBoolean "result" true;
           part "match"
             [valueCode "equivalence" "equivalent";
              valueCoding "concept" tm2Url "TM2.A0"
                "Disorders of Vata dosha"]]).
Proof.
  apply (translate_first_match (sampleEnv (Ok [mapSingle])) namasteUrl "AAB"
           tm2Url [mapSingle] mapSingle [groupSingle] groupSingle
           [elementEquivalent] elementEquivalent);
    try reflexivity.
  discriminate.
Defined.

(** A target of another equivalence is never returned. *)
Example translate_wider_only_not_found :
  translateConcept
    (sampleEnv
       (Ok [mkConceptMap namasteUrl tm2Url
              (Present [mkGroup namasteUrl tm2Url (Present [elementWider])])]))
    namasteUrl "AAB" tm2Url
  = Ok (notFound "No equivalent mapping found").
Proof. reflexivity. Qed.

(** ** Value-set expansion *)

(** C3: for non-negative offset and count, the total of an expansion is the
    number of concepts the filter keeps, the page holds
    [min count (total - offset)] items when the offset is below the total
    and none otherwise, and each item has the system, code and display of
    its concept and nothing else. *)
Theorem expand_pagination
    (env : Env) (url : string) (filter : option string) (count offset : Z)
    (vdocs : list ValueSet) (valueSet : ValueSet) (sys : string)
    (cdocs : list CodeSystem) (codeSystem : CodeSystem) :
  0 <= offset -> 0 <= count ->
  db_valuesets env = Ok vdocs ->
  List.find (fun v => String.eqb (vs_url v) url) vdocs = Some valueSet ->
  firstIncludeSystem valueSet = Some sys ->
  db_codesystems env = Ok cdocs ->
  List.find (fun c => String.eqb (cs_url c) sys) cdocs = Some codeSystem ->
  exists x,
    expandValueSet env url filter count offset = Ok x
    /\ x_total (expansion x)
       = Z.of_nat (List.length (filteredConcepts filter codeSystem))
    /\ Z.of_nat (List.length (x_contains (expansion x)))
       = (if offset <? x_total (expansion x)
          then Z.min count (x_total (expansion x) - offset)
          else 0)
    /\ x_contains (expansion x)
       = List.map
           (fun concept =>
              mkContains sys (c_code concept) (c_display concept))
           (JS.slice (filteredConcepts filter codeSystem)
              offset (offset + count)).
Proof.
  intros Hoffset Hcount Hvdocs Hvs Hsys Hcdocs Hcs.
  unfold expandValueSet, findOne. rewrite Hvdocs. cbn [bind]. rewrite Hvs.
  fold (firstIncludeSystem valueSet). rewrite Hsys, Hcdocs. cbn [bind].
  rewrite Hcs.
  assert (Hf : (if JS.truthy_opt filter
                then List.filter
                       (matchesFilter
                          (JS.toLowerCase
                             match filter with Some f => f | None => "" end))
                       match cs_concept codeSystem with
                       | Some l => l
                       | None => []
                       end
                else match cs_concept codeSystem with
                     | Some l => l
                     | None => []
                     end)
               = filteredConcepts filter codeSystem).
  { unfold filteredConcepts. destruct filter as [f|]; reflexivity. }
  rewrite Hf. eexists. split; [reflexivity|].
  cbn [expansion x_total x_contains].
  split; [reflexivity|]. split; [|reflexivity].
  rewrite length_map. now apply slice_length.
Qed.

Lemma expand_pagination_witness :
  exists x,
    expandValueSet (sampleEnv (Ok [])) "urn:vs:namaste" (Some "vata") 1 1
    = Ok x
    /\ x_total (expansion x) = 2
    /\ x_contains (expansion x) = [mkContains namasteUrl "VAT1" "Vata disorder"].
Proof.
  destruct (expand_pagination (sampleEnv (Ok [])) "urn:vs:namaste"
              (Some "vata") 1 1 [sampleValueSet] sampleValueSet namasteUrl
              [namasteSystem] namasteSystem)
    as [x [Hx [Htotal [_ Hcontains]]]];
    try reflexivity; try (cbn; lia).
  exists x. split; [exact Hx|]. split; [exact Htotal|exact Hcontains].
Defined.

Example expand_past_the_end :
  exists x,
    expandValueSet (sampleEnv (Ok [])) "urn:vs:namaste" None 20 2 = Ok x
    /\ x_total (expansion x) = 2
    /\ x_contains (expansion x) = [].
Proof. eexists. split; [reflexivity|]. split; reflexivity. Qed.

(** ** Not-found and invalid-query outcomes *)

(** C4, as stated, fails for the expansion: an absent value set makes
    [expandValueSet] throw. *)
Lemma expand_absent_value_set_throws :
  db_valuesets (sampleEnv (Ok [])) = Ok [sampleValueSet]
  /\ List.find (fun v => String.eqb (vs_url v) "urn:vs:absent") [sampleValueSet]
     = None
  /\ expandValueSet (sampleEnv (Ok [])) "urn:vs:absent" None 20 0
     = Throw (Error "ValueSet not found").
Proof. repeat split. Qed.

(** C4, amended: a query too short gets a bundle with the reason, a
    translation without concept map or without equivalent target gets a
    [result=false] answer with its message, both as returned values; an
    expansion of an absent value set is thrown as the error 'ValueSet not
    found', another error than that of a missing code system. *)
Theorem not_found_outcomes
    (env : Env) (st : State) (q : string) (opts : Options)
    (sourceSystem sourceCode targetSystem url : string)
    (filter : option string) (count offset : Z) :
  (JS.length (normalizeQuery q) < 2 ->
   searchTerms st q opts = Ok (createEmptySearchBundle "Query too short"))
  /\ (forall docs,
        db_conceptmaps env = Ok docs ->
        List.find (forSystems sourceSystem targetSystem) docs = None ->
        translateConcept env sourceSystem sourceCode targetSystem
        = Ok (notFound "No ConceptMap found for the specified systems"))
  /\ (forall docs conceptMap,
        db_conceptmaps env = Ok docs ->
        List.find (forSystems sourceSystem targetSystem) docs
        = Some conceptMap ->
        findTranslation conceptMap sourceSystem sourceCode = Ok None ->
        translateConcept env sourceSystem sourceCode targetSystem
        = Ok (notFound "No equivalent mapping found"))
  /\ (forall docs,
        db_valuesets env = Ok docs ->
        List.find (fun v => String.eqb (vs_url v) url) docs = None ->
        expandValueSet env url filter count offset
        = Throw (Error "ValueSet not found"))
  /\ (forall docs valueSet sys cdocs,
        db_valuesets env = Ok docs ->
        List.find (fun v => String.eqb (vs_url v) url) docs = Some valueSet ->
        firstIncludeSystem valueSet = Some sys ->
        db_codesystems env = Ok cdocs ->
        List.find (fun c => String.eqb (cs_url c) sys) cdocs = None ->
        expandValueSet env url filter count offset
        = Throw (Error "Referenced CodeSystem not found")).
Proof.
  split; [apply searchTerms_short|]. split; [|split; [|split]].
  - intros docs Hdocs Hnone. unfold translateConcept, findOne.
    rewrite Hdocs. cbn [bind]. rewrite Hnone. reflexivity.
  - intros docs conceptMap Hdocs Hsome Hfind. unfold translateConcept, findOne.
    rewrite Hdocs. cbn [bind]. rewrite Hsome, Hfind. reflexivity.
  - intros docs Hdocs Hnone. unfold expandValueSet, findOne.
    rewrite Hdocs. cbn [bind]. rewrite Hnone. reflexivity.
  - intros docs valueSet sys cdocs Hdocs Hsome Hsys Hcdocs Hnone.
    unfold expandValueSet, findOne. rewrite Hdocs. cbn [bind]. rewrite Hsome.
    fold (firstIncludeSystem valueSet). rewrite Hsys, Hcdocs. cbn [bind].
    rewrite Hnone. reflexivity.
Qed.

Lemma not_found_outcomes_witness :
  searchTerms sampleState "v" defaultOptions
  = Ok (createEmptySearchBundle "Query too short")
  /\ translateConcept (sampleEnv (Ok [])) namasteUrl "AAB" tm2Url
     = Ok (notFound "No ConceptMap found for the specified systems")
  /\ expandValueSet (sampleEnv (Ok [])) "urn:vs:absent" None 20 0
     = Throw (Error "ValueSet not found").
Proof.
  destruct (not_found_outcomes (sampleEnv (Ok [])) sampleState "v"
              defaultOptions namasteUrl "AAB" tm2Url "urn:vs:absent" None 20 0)
    as [Hq [Hmap [_ [Hvs _]]]].
  split; [apply Hq; vm_compute; reflexivity|].
  split; [apply (Hmap []); reflexivity|].
  apply (Hvs [sampleValueSet]); reflexivity.
Defined.

(** ** The index as a map *)

Lemma Map_get_set_same (k : string) (v : SearchEntry) (m : Index) :
  Map_get k (Map_set k v m) = Some v.
Proof.
  induction m as [|[k' v'] m IH]; cbn [Map_set Map_get].
  - now rewrite String.eqb_refl.
  - destruct (String.eqb k' k) eqn:E; cbn [Map_get]; rewrite E;
      [reflexivity|exact IH].
Qed.

Lemma Map_get_set_other (k k' : string) (v : SearchEntry) (m : Index) :
  k' <> k -> Map_get k' (Map_set k v m) = Map_get k' m.
Proof.
  intros Hne. induction m as [|[k0 v0] m IH]; cbn [Map_set Map_get].
  - destruct (String.eqb_spec k k'); [congruence|reflexivity].
  - destruct (String.eqb_spec k0 k) as [->|Hk]; cbn [Map_get].
    + destruct (String.eqb_spec k k'); [congruence|reflexivity].
    + destruct (String.eqb k0 k'); [reflexivity|exact IH].
Qed.

Lemma setMappings_twice (e : SearchEntry) (ms ms' : list Mapping) :
  setMappings (setMappings e ms) ms' = setMappings e ms'.
Proof. reflexivity. Qed.

Lemma setMappings_same (e : SearchEntry) : setMappings e (mappings e) = e.
Proof. destruct e. reflexivity. Qed.

Lemma sameButMappings_refl (idx : Index) : sameButMappings idx idx.
Proof.
  induction idx as [|kv idx IH]; constructor; [|exact IH].
  split; [reflexivity|]. exists (mappings (snd kv)).
  symmetry. apply setMappings_same.
Qed.

Lemma sameButMappings_set (idx0 idx : Index) (k : string)
    (se : SearchEntry) (ms : list Mapping) :
  sameButMappings idx0 idx ->
  Map_get k idx = Some se ->
  sameButMappings idx0 (Map_set k (setMappings se ms) idx).
Proof.
  induction 1 as [|kv0 [k' v'] idx0 idx [Hk [ms0 Hv]] Hrest IH];
    cbn [Map_get Map_set]; [discriminate|].
  cbn [fst snd] in Hk, Hv.
  destruct (String.eqb k' k) eqn:E; intros Hget.
  - injection Hget as <-. constructor; [|exact Hrest].
    cbn [fst snd]. split; [exact Hk|].
    exists ms. rewrite Hv. apply setMappings_twice.
  - constructor; [|now apply IH].
    cbn [fst snd]. split; [exact Hk|]. now exists ms0.
Qed.

(** ** The mapping pass *)

(** Whatever its outcome, the pass leaves the keys and, but for their
    mappings, the entries of the index as they were. *)
Lemma forElements_same (idx0 : Index) (g : MappingGroup)
    (es : list MappingElement) :
  forall idx, sameButMappings idx0 idx ->
              sameButMappings idx0 (fst (forElements g es idx)).
Proof.
  induction es as [|e es IH]; intros idx H; cbn [forElements];
    [exact H|].
  destruct (Map_get _ idx) as [se|] eqn:E; [|now apply IH].
  destruct (e_target e); [now apply IH| |exact H].
  apply IH. now apply sameButMappings_set.
Qed.

Lemma forGroups_same (idx0 : Index) (gs : list MappingGroup) :
  forall idx, sameButMappings idx0 idx ->
              sameButMappings idx0 (fst (forGroups gs idx)).
Proof.
  induction gs as [|g gs IH]; intros idx H; cbn [forGroups]; [exact H|].
  destruct (g_element g) as [|es|]; [now apply IH| |exact H].
  pose proof (forElements_same idx0 g es idx H) as He.
  destruct (forElements g es idx) as [idx' [u|err]]; cbn [fst] in *;
    [now apply IH|exact He].
Qed.

Lemma forConceptMaps_same (idx0 : Index) (maps : list ConceptMap) :
  forall idx, sameButMappings idx0 idx ->
              sameButMappings idx0 (fst (forConceptMaps maps idx)).
Proof.
  induction maps as [|m maps IH]; intros idx H; cbn [forConceptMaps];
    [exact H|].
  destruct (cm_group m) as [|gs|]; [now apply IH| |exact H].
  pose proof (forGroups_same idx0 gs idx H) as Hg.
  destruct (forGroups gs idx) as [idx' [u|err]]; cbn [fst] in *;
    [now apply IH|exact Hg].
Qed.











(** ** The index build *)


Lemma build_on_miss (env : Env) (st : State) (css : list CodeSystem) :
  cacheMiss env = true ->
  db_codesystems env = Ok css ->
  buildSearchIndex env st
  = (mkState (fst (enhanceWithMappings env
                     (indexConcepts css (searchIndex st))))
       (Some (now env)),
     snd (enhanceWithMappings env (indexConcepts css (searchIndex st))),
     match redis_setEx_index env with
     | Throw e => Throw e
     | Ok _ => match redis_setEx_version env with
               | Throw e => Throw e
               | Ok _ => Ok tt
               end
     end).
Proof.
  unfold cacheMiss, buildSearchIndex. intros Hmiss Hcs.
  destruct (redis_get_index env) as [ci|]; [|discriminate].
  destruct (redis_get_version env) as [cv|]; [|discriminate].
  rewrite Hcs.
  destruct (enhanceWithMappings env _) as [idx logged]. cbn [fst snd].
  destruct ci, (JS.truthy_opt cv); try discriminate;
    destruct (redis_setEx_index env); try reflexivity;
    destruct (redis_setEx_version env); reflexivity.
Qed.

Lemma enhanceWithMappings_same (env : Env) (idx : Index) :
  sameButMappings idx (fst (enhanceWithMappings env idx)).
Proof.
  unfold enhanceWithMappings.
  destruct (db_conceptmaps env) as [maps|err];
    [|apply sameButMappings_refl].
  pose proof (forConceptMaps_same idx maps idx (sameButMappings_refl idx)) as H.
  destruct (forConceptMaps maps idx) as [idx' [u|err]]; exact H.
Qed.






(** A malformed group ends the pass: the groups after it are not visited
    (the entry AAB gets no mapping), and the build completes. *)
Example build_completes_on_malformed_group :
  exists idx',
    buildSearchIndex (sampleEnv (Ok [mapMalformedFirst])) (mkState [] None)
    = (mkState idx' (Some "2025-01-01T00:00:00.000Z"), Some TypeError, Ok tt)
    /\ idx' = indexConcepts [namasteSystem] []
    /\ List.map fst idx' = [indexKey namasteUrl "AAB"; indexKey namasteUrl "VAT1"].
Proof. eexists. split; [reflexivity|]. split; reflexivity. Qed.

(** A group without elements is passed over and the pass goes on. *)
Example build_passes_over_group_without_elements :
  exists idx' se,
    buildSearchIndex
      (sampleEnv
         (Ok [mkConceptMap namasteUrl tm2Url
                (Present [mkGroup namasteUrl tm2Url Missing; groupSingle])]))
      (mkState [] None)
    = (mkState idx' (Some "2025-01-01T00:00:00.000Z"), None, Ok tt)
    /\ Map_get (indexKey namasteUrl "AAB") idx' = Some se
    /\ mappings se = [toMapping groupSingle targetEquivalent].
Proof. eexists. eexists. split; [reflexivity|]. split; reflexivity. Qed.




(** The mapping of the earlier element of the same key is lost. *)
Example earlier_mapping_lost :
  exists se',
    Map_get (indexKey namasteUrl "AAB")
      (searchIndex
         (fst (fst (buildSearchIndex (sampleEnv (Ok [mapDuplicated]))
                      (mkState [] None)))))
    = Some se'
    /\ ~ In (toMapping groupDuplicated targetWider) (mappings se').
Proof.
  eexists. split; [reflexivity|].
  cbn. intros [H|[]]. discriminate.
Qed.

(** * Further properties of the services *)

(** ** Strings *)

Lemma lower_char_idem (c : ascii) :
  JS.lower_char (JS.lower_char c) = JS.lower_char c.
Proof. destruct c as [[] [] [] [] [] [] [] []]; reflexivity. Qed.

Lemma is_space_lower_char (c : ascii) :
  JS.is_space (JS.lower_char c) = JS.is_space c.
Proof. destruct c as [[] [] [] [] [] [] [] []]; reflexivity. Qed.

Lemma toLowerCase_idem (s : string) :
  JS.toLowerCase (JS.toLowerCase s) = JS.toLowerCase s.
Proof.
  induction s as [|c s IH]; cbn [JS.toLowerCase]; [reflexivity|].
  now rewrite lower_char_idem, IH.
Qed.

Lemma toLowerCase_trimStart (s : string) :
  JS.toLowerCase (JS.trimStart s) = JS.trimStart (JS.toLowerCase s).
Proof.
  induction s as [|c s IH]; cbn [JS.toLowerCase JS.trimStart]; [reflexivity|].
  rewrite is_space_lower_char. destruct (JS.is_space c); [exact IH|reflexivity].
Qed.

Lemma toLowerCase_trimEnd (s : string) :
  JS.toLowerCase (JS.trimEnd s) = JS.trimEnd (JS.toLowerCase s).
Proof.
  induction s as [|c s IH]; cbn [JS.toLowerCase JS.trimEnd]; [reflexivity|].
  rewrite <- IH, is_space_lower_char.
  destruct (JS.trimEnd s) as [|d t]; cbn [JS.toLowerCase].
  - destruct (JS.is_space c); reflexivity.
  - reflexivity.
Qed.

Lemma trimEnd_idem (s : string) : JS.trimEnd (JS.trimEnd s) = JS.trimEnd s.
Proof.
  induction s as [|c s IH]; cbn [JS.trimEnd]; [reflexivity|].
  destruct (JS.trimEnd s) as [|d t] eqn:E.
  - destruct (JS.is_space c) eqn:Ec; cbn [JS.trimEnd]; [reflexivity|].
    now rewrite Ec.
  - cbn [JS.trimEnd] in *. rewrite IH. reflexivity.
Qed.

Lemma trimStart_noLeadingSpace (s : string) : noLeadingSpace (JS.trimStart s).
Proof.
  induction s as [|c s IH]; cbn [JS.trimStart]; [exact I|].
  destruct (JS.is_space c) eqn:E; [exact IH|exact E].
Qed.

Lemma trimStart_noop (s : string) : noLeadingSpace s -> JS.trimStart s = s.
Proof.
  destruct s as [|c s]; cbn [JS.trimStart noLeadingSpace]; [reflexivity|].
  now intros ->.
Qed.

Lemma trimEnd_noLeadingSpace (s : string) :
  noLeadingSpace s -> noLeadingSpace (JS.trimEnd s).
Proof.
  destruct s as [|c s]; cbn [JS.trimEnd noLeadingSpace]; [trivial|].
  intros Hc. destruct (JS.trimEnd s); [rewrite Hc|]; exact Hc.
Qed.

Lemma trim_idem (s : string) : JS.trim (JS.trim s) = JS.trim s.
Proof.
  unfold JS.trim.
  rewrite (trimStart_noop (JS.trimEnd (JS.trimStart s))).
  - apply trimEnd_idem.
  - apply trimEnd_noLeadingSpace, trimStart_noLeadingSpace.
Qed.

Lemma normalizeQuery_idem (q : string) :
  normalizeQuery (normalizeQuery q) = normalizeQuery q.
Proof.
  unfold normalizeQuery, JS.trim.
  rewrite toLowerCase_trimEnd, toLowerCase_trimStart, toLowerCase_idem.
  apply trim_idem.
Qed.

(** X1: normalising a query (lowercasing, trimming) twice is the same as
    once, and a search for the normalised form of a query gives the same
    total, entries and issue as the search for the query. *)
Theorem search_of_normalized_query
    (st : State) (q : string) (opts : Options) :
  normalizeQuery (normalizeQuery q) = normalizeQuery q
  /\ sameResults (searchTerms st (normalizeQuery q) opts)
       (searchTerms st q opts).
Proof.
  split; [apply normalizeQuery_idem|].
  destruct (Z.lt_ge_cases (JS.length (normalizeQuery q)) 2) as [Hshort|Hlong].
  - rewrite (searchTerms_short st q opts Hshort).
    rewrite (searchTerms_short st (normalizeQuery q) opts)
      by (rewrite normalizeQuery_idem; exact Hshort).
    cbn. auto.
  - rewrite (searchTerms_long st q opts Hlong).
    rewrite (searchTerms_long st (normalizeQuery q) opts)
      by (rewrite normalizeQuery_idem; exact Hlong).
    unfold collected. rewrite normalizeQuery_idem. cbn. auto.
Qed.

Lemma prefix_refl (s : string) : String.prefix s s = true.
Proof.
  induction s as [|c s IH]; cbn [String.prefix]; [reflexivity|].
  destruct (ascii_dec c c); [exact IH|congruence].
Qed.

Lemma includes_refl (s : string) : JS.includes s s = true.
Proof. destruct s; cbn [JS.includes]; rewrite prefix_refl; reflexivity. Qed.

Lemma startsWith_includes (s q : string) :
  JS.startsWith s q = true -> JS.includes s q = true.
Proof.
  unfold JS.startsWith. intros H. destruct s; cbn [JS.includes]; rewrite H;
    reflexivity.
Qed.

(** ** The edit distance *)

Lemma length_list_ascii (s : string) :
  List.length (list_ascii_of_string s) = String.length s.
Proof. induction s as [|c s IH]; cbn; [reflexivity|now rewrite IH]. Qed.

Lemma levRow_length (c : ascii) (str1 : list ascii) :
  forall above diag left,
    List.length (levRow c str1 above diag left)
    = Nat.min (List.length str1) (List.length above).
Proof.
  induction str1 as [|c1 str1 IH]; intros above diag left; cbn [levRow];
    [reflexivity|].
  destruct above as [|up above]; cbn [List.length]; [reflexivity|].
  now rewrite IH.
Qed.

Lemma levRows_length (str1 : list ascii) (str2 : list ascii) :
  forall i prev,
    List.length prev = S (List.length str1) ->
    List.length (levRows str2 str1 i prev) = S (List.length str1).
Proof.
  induction str2 as [|c2 str2 IH]; intros i prev Hlen; cbn [levRows];
    [exact Hlen|].
  apply IH. cbn [List.length]. rewrite levRow_length.
  destruct prev as [|d above]; [discriminate|].
  cbn [tl List.length] in *. lia.
Qed.

Lemma levRow_bound (c2 : ascii) (str1 : list ascii) :
  forall above diag left i j,
    rowBound (i - 1) (j + 1) above ->
    0 <= diag <= Z.max (i - 1) j ->
    0 <= left <= Z.max i j ->
    rowBound i (j + 1) (levRow c2 str1 above diag left).
Proof.
  induction str1 as [|c1 str1 IH]; intros above diag left i j Hab Hd Hl;
    cbn [levRow]; [exact I|].
  destruct above as [|up above]; [exact I|].
  cbn [rowBound] in *. destruct Hab as [Hup Hab].
  assert (Hv : 0 <= (if Ascii.eqb c2 c1 then diag
                     else Z.min (diag + 1) (Z.min (left + 1) (up + 1)))
               <= Z.max i (j + 1)).
  { destruct (Ascii.eqb c2 c1); lia. }
  split; [exact Hv|].
  apply IH; [exact Hab|lia|exact Hv].
Qed.

Lemma levRows_bound (str1 str2 : list ascii) :
  forall i prev,
    1 <= i ->
    rowBound (i - 1) 0 prev ->
    rowBound (i - 1 + Z.of_nat (List.length str2)) 0
      (levRows str2 str1 i prev).
Proof.
  induction str2 as [|c2 str2 IH]; intros i prev Hi Hprev; cbn [levRows].
  - cbn [List.length]. now rewrite Z.add_0_r.
  - replace (i - 1 + Z.of_nat (List.length (c2 :: str2)))
      with (i + 1 - 1 + Z.of_nat (List.length str2))
      by (cbn [List.length]; lia).
    apply IH; [lia|].
    replace (i + 1 - 1) with i by lia.
    cbn [rowBound]. split; [lia|].
    apply (levRow_bound c2 str1 (tl prev) (hd 0 prev) i i 0).
    + destruct prev as [|d above]; [exact I|]. apply Hprev.
    + destruct prev as [|d above]; cbn [hd]; [lia|].
      cbn [rowBound] in Hprev. lia.
    + lia.
Qed.

Lemma rowBound_seq (n a : nat) :
  rowBound 0 (Z.of_nat a) (List.map Z.of_nat (seq a n)).
Proof.
  revert a. induction n as [|n IH]; intros a; cbn [seq List.map rowBound];
    [exact I|].
  split; [lia|].
  replace (Z.of_nat a + 1) with (Z.of_nat (S a)) by lia. apply IH.
Qed.

Lemma rowBound_last (i : Z) (r : list Z) :
  forall j,
    rowBound i j r -> r <> [] ->
    0 <= last r 0 <= Z.max i (j + Z.of_nat (List.length r) - 1).
Proof.
  induction r as [|v r IH]; intros j Hr Hne; [congruence|].
  cbn [rowBound] in Hr. destruct Hr as [Hv Hr].
  destruct r as [|w r].
  - cbn [last List.length]. lia.
  - change (last (v :: w :: r) 0) with (last (w :: r) 0).
    specialize (IH (j + 1) Hr ltac:(discriminate)).
    cbn [List.length] in *. lia.
Qed.

Lemma levRow_lower (c2 : ascii) (str1 : list ascii) :
  forall above diag left i j,
    rowLower (i - 1) (j + 1) above ->
    Z.abs (i - 1 - j) <= diag ->
    Z.abs (i - j) <= left ->
    rowLower i (j + 1) (levRow c2 str1 above diag left).
Proof.
  induction str1 as [|c1 str1 IH]; intros above diag left i j Hab Hd Hl;
    cbn [levRow]; [exact I|].
  destruct above as [|up above]; [exact I|].
  cbn [rowLower] in *. destruct Hab as [Hup Hab].
  assert (Hv : Z.abs (i - (j + 1))
               <= (if Ascii.eqb c2 c1 then diag
                   else Z.min (diag + 1) (Z.min (left + 1) (up + 1)))).
  { destruct (Ascii.eqb c2 c1); lia. }
  split; [exact Hv|].
  apply IH; [exact Hab|lia|exact Hv].
Qed.

Lemma levRows_lower (str1 str2 : list ascii) :
  forall i prev,
    1 <= i ->
    rowLower (i - 1) 0 prev ->
    rowLower (i - 1 + Z.of_nat (List.length str2)) 0
      (levRows str2 str1 i prev).
Proof.
  induction str2 as [|c2 str2 IH]; intros i prev Hi Hprev; cbn [levRows].
  - cbn [List.length]. now rewrite Z.add_0_r.
  - replace (i - 1 + Z.of_nat (List.length (c2 :: str2)))
      with (i + 1 - 1 + Z.of_nat (List.length str2))
      by (cbn [List.length]; lia).
    apply IH; [lia|].
    replace (i + 1 - 1) with i by lia.
    cbn [rowLower]. split; [lia|].
    destruct prev as [|d above]; cbn [tl hd].
    + destruct str1; exact I.
    + cbn [rowLower] in Hprev.
      apply (levRow_lower c2 str1 above d i i 0); [apply Hprev|lia|lia].
Qed.

Lemma rowLower_seq (n a : nat) :
  rowLower 0 (Z.of_nat a) (List.map Z.of_nat (seq a n)).
Proof.
  revert a. induction n as [|n IH]; intros a; cbn [seq List.map rowLower];
    [exact I|].
  split; [lia|].
  replace (Z.of_nat a + 1) with (Z.of_nat (S a)) by lia. apply IH.
Qed.

Lemma rowLower_last (i : Z) (r : list Z) :
  forall j,
    rowLower i j r -> r <> [] ->
    Z.abs (i - (j + Z.of_nat (List.length r) - 1)) <= last r 0.
Proof.
  induction r as [|v r IH]; intros j Hr Hne; [congruence|].
  cbn [rowLower] in Hr. destruct Hr as [Hv Hr].
  destruct r as [|w r].
  - cbn [last List.length]. lia.
  - change (last (v :: w :: r) 0) with (last (w :: r) 0).
    specialize (IH (j + 1) Hr ltac:(discriminate)).
    cbn [List.length] in *. lia.
Qed.

(** X2: the edit distance is at least the difference of the two lengths
    and at most the length of the longer string. *)
Theorem levenshteinDistance_bounds (str1 str2 : string) :
  Z.abs (JS.length str1 - JS.length str2) <= levenshteinDistance str1 str2
  /\ levenshteinDistance str1 str2
     <= Z.max (JS.length str1) (JS.length str2).
Proof.
  unfold levenshteinDistance, JS.length.
  rewrite <- (length_list_ascii str1), <- (length_list_ascii str2).
  set (s1 := list_ascii_of_string str1).
  set (s2 := list_ascii_of_string str2).
  set (row0 := List.map Z.of_nat (seq 0 (S (List.length s1)))).
  assert (Hb : rowBound (1 - 1 + Z.of_nat (List.length s2)) 0
                 (levRows s2 s1 1 row0)).
  { apply levRows_bound; [lia|]. apply (rowBound_seq _ 0). }
  assert (Hl : rowLower (1 - 1 + Z.of_nat (List.length s2)) 0
                 (levRows s2 s1 1 row0)).
  { apply levRows_lower; [lia|]. apply (rowLower_seq _ 0). }
  assert (Hlen : List.length (levRows s2 s1 1 row0) = S (List.length s1)).
  { apply levRows_length. unfold row0. now rewrite length_map, length_seq. }
  assert (Hne : levRows s2 s1 1 row0 <> []).
  { intros E. rewrite E in Hlen. discriminate. }
  apply rowBound_last in Hb; [|exact Hne].
  apply rowLower_last in Hl; [|exact Hne].
  rewrite Hlen in Hb, Hl. lia.
Qed.

Lemma last_seq (n : nat) :
  last (List.map Z.of_nat (seq 0 (S n))) 0 = Z.of_nat n.
Proof.
  rewrite seq_S, map_app. cbn [List.map]. apply last_last.
Qed.

Lemma levRows_nil (str2 : list ascii) :
  forall i,
    levRows str2 [] i [i - 1] = [i - 1 + Z.of_nat (List.length str2)].
Proof.
  induction str2 as [|c2 str2 IH]; intros i; cbn [levRows levRow tl hd].
  - f_equal. cbn [List.length]. lia.
  - replace [i] with [i + 1 - 1] by (f_equal; lia).
    rewrite IH. f_equal. cbn [List.length]. lia.
Qed.

(** The edit distance between a string and the empty string, either
    way round, is the length of the string. *)
Theorem levenshteinDistance_empty (s : string) :
  levenshteinDistance s "" = JS.length s
  /\ levenshteinDistance "" s = JS.length s.
Proof.
  unfold levenshteinDistance, JS.length.
  rewrite <- (length_list_ascii s). split.
  - cbn [list_ascii_of_string levRows]. apply last_seq.
  - cbn [list_ascii_of_string List.length seq List.map].
    change [Z.of_nat 0] with [1 - 1].
    rewrite levRows_nil. cbn [last]. lia.
Qed.

(** Where the character of the row equals that of the column, the cell is
    the one up and to the left. *)
Lemma levRow_nth (c : ascii) (str1 : list ascii) :
  forall k above diag left,
    nth_error str1 k = Some c ->
    (k < List.length above)%nat ->
    nth k (levRow c str1 above diag left) 0 = nth k (diag :: above) 0.
Proof.
  induction str1 as [|c1 str1 IH]; intros k above diag left Hk Hlen.
  - destruct k; discriminate.
  - destruct above as [|up above]; [cbn in Hlen; lia|].
    cbn [levRow]. destruct k as [|k].
    + cbn in Hk. injection Hk as ->. rewrite Ascii.eqb_refl. reflexivity.
    + cbn [nth]. rewrite IH; [reflexivity|exact Hk|].
      cbn [List.length] in Hlen. lia.
Qed.

(** Along the diagonal of the matrix of a string against itself. *)
Lemma levRows_diagonal (s : list ascii) (str2 : list ascii) :
  forall pre i prev,
    s = (pre ++ str2)%list ->
    List.length prev = S (List.length s) ->
    nth (List.length pre) prev 0 = 0 ->
    nth (List.length s) (levRows str2 s i prev) 0 = 0.
Proof.
  induction str2 as [|c str2 IH]; intros pre i prev Hs Hlen Hz;
    cbn [levRows].
  - rewrite app_nil_r in Hs. now subst pre.
  - apply (IH (pre ++ [c])%list).
    + rewrite <- app_assoc. exact Hs.
    + cbn [List.length]. rewrite levRow_length.
      destruct prev as [|d above]; [discriminate|].
      cbn [tl List.length] in *. lia.
    + rewrite length_app. cbn [List.length].
      replace (List.length pre + 1)%nat with (S (List.length pre)) by lia.
      cbn [nth].
      destruct prev as [|d above]; [discriminate|].
      cbn [tl hd]. rewrite levRow_nth; [exact Hz| |].
      * rewrite Hs. rewrite nth_error_app2 by lia.
        now rewrite Nat.sub_diag.
      * cbn [List.length] in Hlen. rewrite Hs in Hlen.
        rewrite length_app in Hlen. cbn [List.length] in Hlen. lia.
Qed.

Lemma last_is_nth (r : list Z) (n : nat) :
  List.length r = S n -> last r 0 = nth n r 0.
Proof.
  revert n. induction r as [|v r IH]; intros n Hlen; [discriminate|].
  destruct r as [|w r].
  - cbn in Hlen. injection Hlen as <-. reflexivity.
  - destruct n as [|n]; [discriminate|].
    change (last (v :: w :: r) 0) with (last (w :: r) 0).
    cbn [nth]. apply IH. cbn [List.length] in *. lia.
Qed.

(** X3: the edit distance of a string to itself is 0. *)
Theorem levenshteinDistance_self (s : string) : levenshteinDistance s s = 0.
Proof.
  unfold levenshteinDistance.
  set (l := list_ascii_of_string s).
  set (row0 := List.map Z.of_nat (seq 0 (S (List.length l)))).
  assert (Hlen0 : List.length row0 = S (List.length l)).
  { unfold row0. now rewrite length_map, length_seq. }
  rewrite (last_is_nth _ (List.length l)) by now apply levRows_length.
  apply (levRows_diagonal l l [] 1 row0); [reflexivity|exact Hlen0|].
  reflexivity.
Qed.

(** ** Entries of the index *)

Lemma propertyTerms_lower (ps : list Property) (t : string) :
  In t (propertyTerms ps) -> JS.toLowerCase t = t.
Proof.
  unfold propertyTerms. intros H. apply in_flat_map in H.
  destruct H as [p [_ H]]. apply in_app_or in H.
  destruct H as [H|H].
  - destruct (JS.truthy_opt (p_valueString p)); [|contradiction].
    destruct H as [<-|[]]. apply toLowerCase_idem.
  - destruct (JS.truthy_opt (p_valueCode p)); [|contradiction].
    destruct H as [<-|[]]. apply toLowerCase_idem.
Qed.

(** X4: the search terms of an index entry hold no duplicate, are all in
    lower case, and are the lowercased code and display together with the
    lowercased definition and property values. *)
Theorem searchEntry_terms_invariant (c : Concept) (cs : CodeSystem) :
  let e := createSearchEntry c cs in
  NoDup (se_searchTerms e)
  /\ In (JS.toLowerCase (code e)) (se_searchTerms e)
  /\ In (JS.toLowerCase (display e)) (se_searchTerms e)
  /\ (forall t, In t (se_searchTerms e) -> JS.toLowerCase t = t)
  /\ (forall t, In t (se_searchTerms e) <->
                t = JS.toLowerCase (code e)
                \/ t = JS.toLowerCase (display e)
                \/ In t (otherTerms e)).
Proof.
  intros e. unfold e. rewrite createSearchEntry_terms. fold e.
  assert (Hin : forall t,
             In t (dedupe (JS.toLowerCase (code e)
                           :: JS.toLowerCase (display e) :: otherTerms e))
             <-> t = JS.toLowerCase (code e)
                 \/ t = JS.toLowerCase (display e)
                 \/ In t (otherTerms e)).
  { intros t. rewrite dedupe_In. cbn [In]. intuition congruence. }
  split; [apply dedupe_NoDup|].
  split; [apply Hin; now left|].
  split; [apply Hin; now right; left|].
  split; [|exact Hin].
  intros t Ht. apply Hin in Ht. destruct Ht as [->|[->|Ht]];
    try apply toLowerCase_idem.
  unfold otherTerms in Ht. apply in_app_or in Ht. destruct Ht as [Ht|Ht].
  - destruct (JS.truthy (definition e)); [|contradiction].
    destruct Ht as [<-|[]]. apply toLowerCase_idem.
  - now apply propertyTerms_lower in Ht.
Qed.

(** ** Keys of the index *)

Lemma Map_set_keys (k k' : string) (v : SearchEntry) (m : Index) :
  In k' (keysOf (Map_set k v m)) <-> k' = k \/ In k' (keysOf m).
Proof.
  unfold keysOf. induction m as [|[k0 v0] m IH]; cbn [Map_set List.map In fst].
  - intuition congruence.
  - destruct (String.eqb_spec k0 k) as [->|Hne]; cbn [List.map In fst].
    + intuition congruence.
    + rewrite IH. intuition congruence.
Qed.

Lemma Map_get_keys (k : string) (m : Index) :
  In k (keysOf m) <-> exists v, Map_get k m = Some v.
Proof.
  unfold keysOf. induction m as [|[k0 v0] m IH]; cbn [Map_get List.map In fst].
  - split; [contradiction|intros [v H]; discriminate].
  - destruct (String.eqb_spec k0 k) as [->|Hne].
    + split; [now exists v0|now left].
    + rewrite <- IH. intuition congruence.
Qed.

Lemma Map_set_NoDup (k : string) (v : SearchEntry) (m : Index) :
  NoDup (keysOf m) -> NoDup (keysOf (Map_set k v m)).
Proof.
  unfold keysOf. induction m as [|[k0 v0] m IH]; cbn [Map_set List.map fst];
    intros Hnd.
  - repeat constructor. intros [].
  - inversion Hnd as [|? ? Hnotin Hnd']; subst.
    destruct (String.eqb_spec k0 k) as [->|Hne]; cbn [List.map fst].
    + now constructor.
    + constructor; [|now apply IH].
      intros Hin. apply (Map_set_keys k k0 v m) in Hin.
      destruct Hin as [Hin|Hin]; [congruence|contradiction].
Qed.

Lemma sameButMappings_keys (idx idx' : Index) :
  sameButMappings idx idx' -> keysOf idx' = keysOf idx.
Proof.
  unfold keysOf. induction 1 as [|kv kv' idx idx' [Hk _] _ IH];
    cbn [List.map]; [reflexivity|].
  now rewrite Hk, IH.
Qed.

Lemma sameButMappings_get (idx idx' : Index) (k : string) (e : SearchEntry) :
  sameButMappings idx idx' ->
  Map_get k idx = Some e ->
  exists ms, Map_get k idx' = Some (setMappings e ms).
Proof.
  induction 1 as [|[k0 v0] [k1 v1] idx idx' [Hk [ms Hv]] _ IH];
    cbn [Map_get]; [discriminate|].
  cbn [fst snd] in Hk, Hv. subst k1.
  destruct (String.eqb k0 k); [|exact IH].
  intros H. injection H as <-. exists ms. now rewrite Hv.
Qed.

(** ** The first pass of the build *)

Lemma indexConcepts_fold (css : list CodeSystem) :
  forall idx,
    indexConcepts css idx = fold_left putConcept (conceptsOf css) idx.
Proof.
  unfold indexConcepts, conceptsOf.
  induction css as [|cs css IH]; intros idx; cbn [fold_left flat_map];
    [reflexivity|].
  rewrite fold_left_app, IH. f_equal.
  destruct (cs_concept cs) as [concepts|]; [|reflexivity].
  revert idx. induction concepts as [|c concepts IHc]; intros idx;
    cbn [fold_left List.map]; [reflexivity|].
  apply IHc.
Qed.

Lemma fold_putConcept_keys (l : list (CodeSystem * Concept)) :
  forall idx k,
    In k (keysOf (fold_left putConcept l idx))
    <-> In k (keysOf idx) \/ exists p, In p l /\ conceptKey p = k.
Proof.
  induction l as [|p l IH]; intros idx k; cbn [fold_left].
  - split; [now left|]. intros [H|[p [[] _]]]. exact H.
  - rewrite IH. unfold putConcept at 1. rewrite Map_set_keys. split.
    + intros [[->|H]|[p' [Hin Hk]]].
      * right. exists p. split; [now left|reflexivity].
      * now left.
      * right. exists p'. split; [now right|exact Hk].
    + intros [H|[p' [[->|Hin] Hk]]].
      * left. now right.
      * left. left. now symmetry.
      * right. now exists p'.
Qed.

Lemma fold_putConcept_NoDup (l : list (CodeSystem * Concept)) :
  forall idx, NoDup (keysOf idx) -> NoDup (keysOf (fold_left putConcept l idx)).
Proof.
  induction l as [|p l IH]; intros idx H; cbn [fold_left]; [exact H|].
  apply IH. now apply Map_set_NoDup.
Qed.

Lemma fold_putConcept_other (k : string) (l : list (CodeSystem * Concept)) :
  (forall p, In p l -> conceptKey p <> k) ->
  forall idx, Map_get k (fold_left putConcept l idx) = Map_get k idx.
Proof.
  induction l as [|p l IH]; intros Hl idx; cbn [fold_left]; [reflexivity|].
  rewrite IH by (intros p' Hin; apply Hl; now right).
  apply Map_get_set_other. intros E. apply (Hl p (or_introl eq_refl)).
  now symmetry.
Qed.

Lemma fold_putConcept_last (p : CodeSystem * Concept)
    (l1 l2 : list (CodeSystem * Concept)) (idx : Index) :
  (forall p', In p' l2 -> conceptKey p' <> conceptKey p) ->
  Map_get (conceptKey p) (fold_left putConcept (l1 ++ p :: l2)%list idx)
  = Some (createSearchEntry (snd p) (fst p)).
Proof.
  intros Hl2. rewrite fold_left_app. cbn [fold_left].
  rewrite fold_putConcept_other by exact Hl2.
  apply Map_get_set_same.
Qed.

Lemma builtIndex_on_miss (env : Env) (st : State) (css : list CodeSystem) :
  cacheMiss env = true ->
  db_codesystems env = Ok css ->
  builtIndex env st
  = fst (enhanceWithMappings env (indexConcepts css (searchIndex st))).
Proof.
  intros Hmiss Hcs. unfold builtIndex.
  now rewrite (build_on_miss env st css Hmiss Hcs).
Qed.

(** A build from the store leaves every entry with the search terms
    [createSearchEntry] derives from its fields, when the entries it found
    had them (as in the empty index of a new service). *)
Lemma Map_set_Forall (P : SearchEntry -> Prop) (k : string)
    (v : SearchEntry) (m : Index) :
  P v ->
  Forall (fun kv => P (snd kv)) m ->
  Forall (fun kv => P (snd kv)) (Map_set k v m).
Proof.
  intros Hv. induction m as [|[k0 v0] m IH]; cbn [Map_set]; intros Hm.
  - constructor; [exact Hv|constructor].
  - inversion Hm as [|? ? H0 Hm']; subst.
    destruct (String.eqb k0 k); constructor; auto.
Qed.

Lemma sameButMappings_termsDerived (idx idx' : Index) :
  sameButMappings idx idx' ->
  Forall (fun kv => termsDerived (snd kv)) idx ->
  Forall (fun kv => termsDerived (snd kv)) idx'.
Proof.
  unfold sameButMappings. induction 1 as [|kv kv' l l' [_ [ms E]] _ IH];
    intros Hall; [constructor|].
  inversion Hall as [|? ? H0 Hall']; subst.
  constructor; [|now apply IH].
  rewrite E. now apply setMappings_termsDerived.
Qed.

Lemma build_entries_termsDerived
    (env : Env) (st : State) (css : list CodeSystem) :
  cacheMiss env = true ->
  db_codesystems env = Ok css ->
  Forall (fun kv => termsDerived (snd kv)) (searchIndex st) ->
  Forall (fun kv => termsDerived (snd kv)) (builtIndex env st).
Proof.
  intros Hmiss Hcs Hall.
  rewrite (builtIndex_on_miss env st css Hmiss Hcs).
  apply (sameButMappings_termsDerived
           (indexConcepts css (searchIndex st)));
    [apply enhanceWithMappings_same|].
  rewrite indexConcepts_fold.
  generalize dependent (searchIndex st).
  induction (conceptsOf css) as [|p l IH]; intros idx Hidx;
    cbn [fold_left]; [exact Hidx|].
  apply IH. unfold putConcept.
  apply (Map_set_Forall termsDerived);
    [apply createSearchEntry_termsDerived|exact Hidx].
Qed.

(** X5: after a build from the store, the entry under the key of a concept
    is the one made of the last concept indexed under that key (a later
    concept of the same system and code replaces an earlier one), whatever
    the mapping pass did to its mappings. *)
Theorem build_indexes_last_concept
    (env : Env) (st : State) (css : list CodeSystem)
    (l1 l2 : list (CodeSystem * Concept)) (cs : CodeSystem) (c : Concept) :
  cacheMiss env = true ->
  db_codesystems env = Ok css ->
  conceptsOf css = (l1 ++ (cs, c) :: l2)%list ->
  (forall p', In p' l2 -> conceptKey p' <> conceptKey (cs, c)) ->
  exists ms,
    Map_get (indexKey (cs_url cs) (c_code c)) (builtIndex env st)
    = Some (setMappings (createSearchEntry c cs) ms).
Proof.
  intros Hmiss Hcs Hl Hl2.
  rewrite (builtIndex_on_miss env st css Hmiss Hcs).
  apply (sameButMappings_get (indexConcepts css (searchIndex st)));
    [apply enhanceWithMappings_same|].
  rewrite indexConcepts_fold, Hl.
  exact (fold_putConcept_last (cs, c) l1 l2 (searchIndex st) Hl2).
Qed.

Lemma build_indexes_last_concept_witness :
  exists ms,
    Map_get (indexKey namasteUrl "VAT1")
      (builtIndex (sampleEnv (Ok [mapSingle])) (mkState [] None))
    = Some (setMappings entryVAT1 ms).
Proof.
  apply (build_indexes_last_concept (sampleEnv (Ok [mapSingle]))
           (mkState [] None) [namasteSystem]
           [(namasteSystem, conceptAAB)] [] namasteSystem conceptVAT1);
    try reflexivity.
  intros p' [].
Defined.

Lemma builtIndex_keys
    (env : Env) (st : State) (css : list CodeSystem) (k : string) :
  cacheMiss env = true ->
  db_codesystems env = Ok css ->
  (In k (keysOf (builtIndex env st))
   <-> In k (keysOf (searchIndex st))
       \/ exists p, In p (conceptsOf css) /\ conceptKey p = k).
Proof.
  intros Hmiss Hcs.
  rewrite (builtIndex_on_miss env st css Hmiss Hcs).
  rewrite (sameButMappings_keys _ _ (enhanceWithMappings_same env _)).
  rewrite indexConcepts_fold. apply fold_putConcept_keys.
Qed.

(** X6: a build from the store removes nothing: every key of the index
    before the build is a key after it, and the keys after it are those and
    the keys of the concepts read. *)
Theorem build_keeps_existing_keys
    (env : Env) (st : State) (css : list CodeSystem) (k : string) :
  cacheMiss env = true ->
  db_codesystems env = Ok css ->
  (In k (keysOf (searchIndex st)) -> In k (keysOf (builtIndex env st)))
  /\ (In k (keysOf (builtIndex env st))
      <-> In k (keysOf (searchIndex st))
          \/ exists p, In p (conceptsOf css) /\ conceptKey p = k).
Proof.
  intros Hmiss Hcs.
  pose proof (builtIndex_keys env st css k Hmiss Hcs) as H.
  split; [|exact H]. intros Hin. apply H. now left.
Qed.

Lemma build_keeps_existing_keys_witness :
  In "stale|X"
    (keysOf (builtIndex (sampleEnv (Ok []))
               (mkState [("stale|X", entryAAB)] None))).
Proof.
  apply (build_keeps_existing_keys (sampleEnv (Ok []))
           (mkState [("stale|X", entryAAB)] None) [namasteSystem] "stale|X");
    try reflexivity.
  left. now left.
Defined.

(** X7: a refresh whose cache deletions succeed leaves in the index the
    keys of the concepts read from the store and no other. *)
Theorem refresh_leaves_store_keys
    (env : Env) (st : State) (css : list CodeSystem) (k : string) :
  cacheMiss env = true ->
  db_codesystems env = Ok css ->
  (In k (keysOf (searchIndex (fst (fst (refreshIndex (Ok tt) (Ok tt) env st)))))
   <-> exists p, In p (conceptsOf css) /\ conceptKey p = k).
Proof.
  intros Hmiss Hcs. cbn [refreshIndex].
  fold (builtIndex env (mkState [] (indexVersion st))).
  rewrite (builtIndex_keys env _ css k Hmiss Hcs).
  cbn [searchIndex keysOf List.map]. split.
  - intros [[]|H]. exact H.
  - intros H. now right.
Qed.

Lemma refresh_leaves_store_keys_witness :
  In (indexKey namasteUrl "AAB")
    (keysOf
       (searchIndex
          (fst (fst (refreshIndex (Ok tt) (Ok tt) (sampleEnv (Ok []))
                       (mkState [("stale|X", entryAAB)] None))))))
  /\ List.length
       (keysOf
          (searchIndex
             (fst (fst (refreshIndex (Ok tt) (Ok tt) (sampleEnv (Ok []))
                          (mkState [("stale|X", entryAAB)] None))))))
     = 2%nat.
Proof.
  split; [|reflexivity].
  apply (refresh_leaves_store_keys (sampleEnv (Ok []))
           (mkState [("stale|X", entryAAB)] None) [namasteSystem]
           (indexKey namasteUrl "AAB"));
    try reflexivity.
  exists (namasteSystem, conceptAAB). split; [now left|reflexivity].
Defined.

(** ** The cached copy of the index *)

Lemma Map_set_fresh (k : string) (v : SearchEntry) (m : Index) :
  ~ In k (keysOf m) -> Map_set k v m = (m ++ [(k, v)])%list.
Proof.
  unfold keysOf. induction m as [|[k0 v0] m IH]; cbn [Map_set List.map fst In app];
    intros Hn; [reflexivity|].
  destruct (String.eqb_spec k0 k) as [->|Hne]; [tauto|].
  rewrite IH by tauto. reflexivity.
Qed.

Lemma Map_of_fold (l : Index) :
  forall acc,
    NoDup (keysOf (acc ++ l)%list) ->
    fold_left (fun m kv => Map_set (fst kv) (snd kv) m) l acc
    = (acc ++ l)%list.
Proof.
  induction l as [|[k v] l IH]; intros acc Hnd; cbn [fold_left fst snd].
  - now rewrite app_nil_r.
  - assert (Hfresh : ~ In k (keysOf acc)).
    { unfold keysOf in *. rewrite map_app in Hnd. cbn [List.map fst] in Hnd.
      apply NoDup_remove_2 in Hnd. intros Hin. apply Hnd.
      apply in_or_app. now left. }
    rewrite Map_set_fresh by exact Hfresh.
    rewrite IH; rewrite <- app_assoc; [reflexivity|exact Hnd].
Qed.

Lemma Map_of_id (idx : Index) : NoDup (keysOf idx) -> Map_of idx = idx.
Proof. intros H. unfold Map_of. now rewrite Map_of_fold. Qed.

Lemma builtIndex_NoDup (env : Env) (st : State) (css : list CodeSystem) :
  cacheMiss env = true ->
  db_codesystems env = Ok css ->
  NoDup (keysOf (searchIndex st)) ->
  NoDup (keysOf (builtIndex env st)).
Proof.
  intros Hmiss Hcs Hnd.
  rewrite (builtIndex_on_miss env st css Hmiss Hcs).
  rewrite (sameButMappings_keys _ _ (enhanceWithMappings_same env _)).
  rewrite indexConcepts_fold. now apply fold_putConcept_NoDup.
Qed.

(** X8: an index built from the store and handed back by the cache with a
    version is restored as it was, entries and order, by the next build,
    which then reads nothing from the store. *)
Theorem cached_index_restored
    (env env2 : Env) (st st2 : State) (css : list CodeSystem) (v : string) :
  cacheMiss env = true ->
  db_codesystems env = Ok css ->
  NoDup (keysOf (searchIndex st)) ->
  redis_get_index env2 = Ok (Present (builtIndex env st)) ->
  redis_get_version env2 = Ok (Some v) ->
  JS.truthy v = true ->
  buildSearchIndex env2 st2
  = (mkState (builtIndex env st) (Some v), None, Ok tt).
Proof.
  intros Hmiss Hcs Hnd Hidx Hver Hv.
  unfold buildSearchIndex. rewrite Hidx, Hver. cbn [JS.truthy_opt].
  rewrite Hv. rewrite Map_of_id; [reflexivity|].
  now apply (builtIndex_NoDup env st css).
Qed.

Lemma cached_index_restored_witness :
  buildSearchIndex
    (mkEnv (Throw (Upstream "down")) (Throw (Upstream "down"))
       (Throw (Upstream "down"))
       (Ok (Present (builtIndex (sampleEnv (Ok [mapSingle]))
                       (mkState [] None))))
       (Ok (Some "2025-01-01T00:00:00.000Z")) (Ok tt) (Ok tt) "" "")
    (mkState [] None)
  = (mkState (builtIndex (sampleEnv (Ok [mapSingle])) (mkState [] None))
       (Some "2025-01-01T00:00:00.000Z"),
     None, Ok tt).
Proof.
  apply (cached_index_restored (sampleEnv (Ok [mapSingle])) _
           (mkState [] None) (mkState [] None) [namasteSystem]
           "2025-01-01T00:00:00.000Z");
    try reflexivity.
  constructor.
Defined.

(** ** Entries the mapping pass leaves alone *)

Lemma forElements_untouched (k : string) (g : MappingGroup)
    (es : list MappingElement) :
  (forall e, In e es -> sourceKeyOf (g, e) <> k) ->
  forall idx, Map_get k (fst (forElements g es idx)) = Map_get k idx.
Proof.
  induction es as [|e es IH]; intros Hes idx; cbn [forElements];
    [reflexivity|].
  assert (Hrest : forall e', In e' es -> sourceKeyOf (g, e') <> k).
  { intros e' Hin. apply Hes. now right. }
  destruct (Map_get _ idx) as [se|] eqn:E; [|now apply IH].
  destruct (e_target e); [now apply IH| |reflexivity].
  rewrite IH by exact Hrest.
  apply Map_get_set_other. intros Heq. apply (Hes e (or_introl eq_refl)).
  now symmetry.
Qed.

Lemma forGroups_untouched (k : string) (gs : list MappingGroup) :
  (forall g es e, In g gs -> g_element g = Present es -> In e es ->
                  sourceKeyOf (g, e) <> k) ->
  forall idx, Map_get k (fst (forGroups gs idx)) = Map_get k idx.
Proof.
  induction gs as [|g gs IH]; intros Hgs idx; cbn [forGroups];
    [reflexivity|].
  assert (Hrest : forall g' es e, In g' gs -> g_element g' = Present es ->
                                  In e es -> sourceKeyOf (g', e) <> k).
  { intros g' es e Hin. apply Hgs. now right. }
  destruct (g_element g) as [|es|] eqn:E; [now apply IH| |reflexivity].
  pose proof (forElements_untouched k g es
                (fun e => Hgs g es e (or_introl eq_refl) E) idx) as He.
  destruct (forElements g es idx) as [idx' [u|err]]; cbn [fst] in *;
    [|exact He].
  now rewrite IH.
Qed.

Lemma forConceptMaps_untouched (k : string) (maps : list ConceptMap) :
  (forall ge, In ge (elementsOf maps) -> sourceKeyOf ge <> k) ->
  forall idx, Map_get k (fst (forConceptMaps maps idx)) = Map_get k idx.
Proof.
  unfold elementsOf.
  induction maps as [|m maps IH]; intros Hm idx; cbn [forConceptMaps];
    [reflexivity|].
  cbn [flat_map] in Hm.
  assert (Hrest : forall ge,
             In ge (flat_map
                      (fun conceptMap =>
                         match cm_group conceptMap with
                         | Present groups =>
                             flat_map
                               (fun group =>
                                  match g_element group with
                                  | Present elements =>
                                      List.map (pair group) elements
                                  | _ => []
                                  end) groups
                         | _ => []
                         end) maps) ->
             sourceKeyOf ge <> k).
  { intros ge Hin. apply Hm. apply in_or_app. now right. }
  destruct (cm_group m) as [|gs|] eqn:E; [now apply IH| |reflexivity].
  assert (Hg : Map_get k (fst (forGroups gs idx)) = Map_get k idx).
  { apply forGroups_untouched. intros g es e Hin Hes He.
    apply Hm. apply in_or_app. left. apply in_flat_map.
    exists g. split; [exact Hin|]. rewrite Hes. now apply in_map. }
  destruct (forGroups gs idx) as [idx' [u|err]]; cbn [fst] in *;
    [|exact Hg].
  now rewrite IH.
Qed.

(** X9: the mapping pass touches source-side entries only: an entry whose
    key is the source key of no mapping element is left as it was, whatever
    the outcome of the pass. *)
Theorem mappings_only_on_source_entries
    (env : Env) (idx : Index) (maps : list ConceptMap) (k : string) :
  db_conceptmaps env = Ok maps ->
  (forall ge, In ge (elementsOf maps) -> sourceKeyOf ge <> k) ->
  Map_get k (fst (enhanceWithMappings env idx)) = Map_get k idx.
Proof.
  intros Hcm Hk. unfold enhanceWithMappings. rewrite Hcm.
  pose proof (forConceptMaps_untouched k maps Hk idx) as H.
  destruct (forConceptMaps maps idx) as [idx' [u|err]]; exact H.
Qed.

Lemma mappings_only_on_source_entries_witness :
  Map_get (indexKey namasteUrl "VAT1")
    (fst (enhanceWithMappings (sampleEnv (Ok [mapSingle]))
            (searchIndex sampleState)))
  = Map_get (indexKey namasteUrl "VAT1") (searchIndex sampleState).
Proof.
  apply (mappings_only_on_source_entries (sampleEnv (Ok [mapSingle]))
           (searchIndex sampleState) [mapSingle]);
    [reflexivity|].
  intros ge [<-|[]]. discriminate.
Defined.

(** ** Statistics *)

Lemma countType_sum (t : string) (b : list (string * Z)) :
  sumCounts (countType t b) = sumCounts b + 1.
Proof.
  induction b as [|[t' n] b IH]; cbn [countType sumCounts fold_right snd];
    [lia|].
  destruct (String.eqb t' t); cbn [sumCounts fold_right snd].
  - destruct (n =? 0) eqn:E; [apply Z.eqb_eq in E|]; lia.
  - fold (sumCounts (countType t b)). fold (sumCounts b). lia.
Qed.

Lemma countType_count (t t0 : string) (b : list (string * Z)) :
  countOf t0 (countType t b)
  = countOf t0 b + (if String.eqb t t0 then 1 else 0).
Proof.
  induction b as [|[t' n] b IH]; cbn [countType countOf].
  - destruct (String.eqb t t0); lia.
  - destruct (String.eqb_spec t' t) as [->|Hne]; cbn [countOf].
    + destruct (String.eqb t t0).
      * destruct (n =? 0) eqn:E; [apply Z.eqb_eq in E|]; lia.
      * lia.
    + destruct (String.eqb_spec t' t0) as [->|Hne0]; [|exact IH].
      destruct (String.eqb_spec t t0); [congruence|lia].
Qed.

Lemma breakdown_fold (idx : Index) :
  forall b,
    sumCounts (fold_left (fun b kv => countType (systemType (snd kv)) b) idx b)
    = sumCounts b + Z.of_nat (List.length idx)
    /\ forall t,
         countOf t
           (fold_left (fun b kv => countType (systemType (snd kv)) b) idx b)
         = countOf t b + entriesOfType t idx.
Proof.
  unfold entriesOfType.
  induction idx as [|kv idx IH]; intros b; cbn [fold_left List.length
    List.filter].
  - split; [lia|intros t; cbn [List.length]; lia].
  - destruct (IH (countType (systemType (snd kv)) b)) as [Hs Hc].
    rewrite Hs, countType_sum. split; [lia|].
    intros t. rewrite Hc, countType_count.
    destruct (String.eqb (systemType (snd kv)) t); cbn [List.length]; lia.
Qed.

(** X10: when the cache answers, the statistics count every entry once:
    the total is the size of the index, the counts of the breakdown add up
    to the total, and the count of each system type is the number of entries
    of that type. *)
Theorem index_stats_add_up
    (env : Env) (st : State) (v : option string) :
  redis_get_version env = Ok v ->
  exists s,
    getIndexStats env st = Ok s
    /\ totalEntries s = Z.of_nat (List.length (searchIndex st))
    /\ sumCounts (systemBreakdown s) = totalEntries s
    /\ forall t, countOf t (systemBreakdown s)
                 = entriesOfType t (searchIndex st).
Proof.
  intros Hv. unfold getIndexStats. rewrite Hv. cbn [bind].
  eexists. split; [reflexivity|].
  cbn [totalEntries systemBreakdown].
  destruct (breakdown_fold (searchIndex st) []) as [Hs Hc].
  split; [reflexivity|]. split.
  - rewrite Hs. cbn. lia.
  - intros t. rewrite Hc. cbn. lia.
Qed.

Lemma index_stats_add_up_witness :
  exists s,
    getIndexStats (sampleEnv (Ok [])) sampleState = Ok s
    /\ totalEntries s = 2
    /\ countOf "namaste" (systemBreakdown s) = 2.
Proof.
  destruct (index_stats_add_up (sampleEnv (Ok [])) sampleState None
              eq_refl) as [s [Hs [Ht [_ Hc]]]].
  exists s. split; [exact Hs|]. split; [exact Ht|]. apply Hc.
Defined.

(** ** More on [searchTerms] *)

Lemma scan_Forall_passing (searchTerm : string) (opts : Options)
    (P : Scored -> Prop) (entries : Index) :
  (forall k e,
     In (k, e) entries ->
     passesFilters opts e = true ->
     calculateRelevanceScore searchTerm e (opt_fuzzy opts) > 0 ->
     P (mkScored e (calculateRelevanceScore searchTerm e (opt_fuzzy opts)))) ->
  forall results calls,
    Forall P results ->
    Forall P (fst (scan searchTerm opts entries results calls)).
Proof.
  induction entries as [|[k e] rest IH]; intros Hin results calls Hres;
    cbn [scan]; [assumption|].
  assert (Hrest : forall k' e',
             In (k', e') rest ->
             passesFilters opts e' = true ->
             calculateRelevanceScore searchTerm e' (opt_fuzzy opts) > 0 ->
             P (mkScored e'
                  (calculateRelevanceScore searchTerm e' (opt_fuzzy opts)))).
  { intros k' e' H. apply (Hin k' e'). now right. }
  specialize (Hin k e (or_introl eq_refl)). unfold passesFilters in Hin.
  destruct (JS.truthy_opt (opt_systemFilter opts) && _);
    [now apply (IH Hrest)|].
  destruct (JS.truthy_opt (opt_systemType opts) && _);
    [now apply (IH Hrest)|].
  specialize (Hin eq_refl).
  destruct (calculateRelevanceScore_run searchTerm e (opt_fuzzy opts))
    as [sc c] eqn:E.
  assert (Hsc : sc = calculateRelevanceScore searchTerm e (opt_fuzzy opts)).
  { unfold calculateRelevanceScore. now rewrite E. }
  assert (Hres' : Forall P (if sc >? 0
                            then (results ++ [mkScored e sc])%list
                            else results)).
  { destruct (sc >? 0) eqn:Hpos; [|assumption].
    apply Forall_app. split; [assumption|].
    constructor; [|constructor].
    subst sc. apply Hin. apply Z.gtb_lt in Hpos. lia. }
  destruct (_ >=? _); [assumption|now apply (IH Hrest)].
Qed.

Lemma returned_from_collected (st : State) (q : string) (opts : Options)
    (b : Bundle) (be : BundleEntry) :
  searchTerms st q opts = Ok b ->
  In be (entry b) ->
  exists r, In r (collected st q opts) /\ be = toBundleEntry r.
Proof.
  intros Hb Hbe.
  destruct (Z.lt_ge_cases (JS.length (normalizeQuery q)) 2) as [Hshort|Hlong].
  - rewrite (searchTerms_short st q opts Hshort) in Hb.
    injection Hb as <-. contradiction.
  - rewrite (searchTerms_long st q opts Hlong) in Hb.
    injection Hb as <-. cbn [createSearchBundle entry] in Hbe.
    apply in_map_iff in Hbe. destruct Hbe as [r [<- Hr]].
    exists r. split; [|reflexivity].
    apply slice_In in Hr.
    now apply (Permutation_in _ (sortByScore_Permutation _)) in Hr.
Qed.

(** X11: every entry a search returns passed the filters of the request:
    its system contains the system filter, and its system type is the one
    asked for, when these are given. *)
Theorem search_respects_filters
    (st : State) (q : string) (opts : Options) (b : Bundle)
    (be : BundleEntry) :
  searchTerms st q opts = Ok b ->
  In be (entry b) ->
  (forall f, opt_systemFilter opts = Some f -> JS.truthy f = true ->
             JS.includes (coding_system be) f = true)
  /\ (forall t, opt_systemType opts = Some t -> JS.truthy t = true ->
                ext_systemType be = t).
Proof.
  intros Hb Hbe.
  destruct (returned_from_collected st q opts b be Hb Hbe) as [r [Hr ->]].
  assert (H : Forall (fun r => passesFilters opts (s_entry r) = true)
                (collected st q opts)).
  { unfold collected. apply scan_Forall_passing; [|constructor].
    intros k e _ Hp _. exact Hp. }
  pose proof (proj1 (Forall_forall _ _) H r Hr) as Hp.
  unfold passesFilters in Hp. apply andb_true_iff in Hp.
  destruct Hp as [Hf Ht]. cbn [toBundleEntry coding_system ext_systemType].
  split.
  - intros f Hopt Htruthy. rewrite Hopt in Hf.
    cbn [JS.truthy_opt orEmpty] in Hf. rewrite Htruthy in Hf.
    cbn [andb] in Hf. now destruct (JS.includes (system (s_entry r)) f).
  - intros t Hopt Htruthy. rewrite Hopt in Ht.
    cbn [JS.truthy_opt orEmpty] in Ht. rewrite Htruthy in Ht.
    cbn [andb] in Ht.
    destruct (String.eqb_spec (systemType (s_entry r)) t);
      [assumption|discriminate].
Qed.

Lemma search_respects_filters_witness :
  ext_systemType sampleBundleEntry = "namaste".
Proof.
  assert (Hb : searchTerms sampleState "vata"
                 (mkOptions None (Some "namaste") 20 false)
               = Ok sampleBundle) by reflexivity.
  assert (Hin : In sampleBundleEntry (entry sampleBundle))
    by (left; reflexivity).
  apply (proj2 (search_respects_filters sampleState "vata"
                  (mkOptions None (Some "namaste") 20 false)
                  sampleBundle sampleBundleEntry Hb Hin) "namaste");
    reflexivity.
Defined.

Lemma scan_calls_Forall (searchTerm : string) (opts : Options)
    (Q : FuzzyCall -> Prop) (entries : Index) :
  (forall k e, In (k, e) entries ->
               Forall Q (snd (calculateRelevanceScore_run searchTerm e
                                (opt_fuzzy opts)))) ->
  forall results calls,
    Forall Q calls ->
    Forall Q (snd (scan searchTerm opts entries results calls)).
Proof.
  induction entries as [|[k e] rest IH]; intros Hin results calls Hcalls;
    cbn [scan]; [assumption|].
  assert (Hrest : forall k' e', In (k', e') rest ->
                    Forall Q (snd (calculateRelevanceScore_run searchTerm e'
                                     (opt_fuzzy opts)))).
  { intros k' e' H. apply (Hin k' e'). now right. }
  specialize (Hin k e (or_introl eq_refl)).
  destruct (_ && _); [now apply (IH Hrest)|].
  destruct (_ && _); [now apply (IH Hrest)|].
  destruct (calculateRelevanceScore_run searchTerm e (opt_fuzzy opts))
    as [sc c]. cbn [snd] in Hin.
  assert (Hc : Forall Q (calls ++ c)%list) by (apply Forall_app; now split).
  destruct (_ >=? _); [exact Hc|now apply (IH Hrest)].
Qed.

(** X12: a search invokes the fuzzy matcher only in fuzzy mode, only with
    the normalised query, and only on entries of the index on which the text
    rules score 0; with fuzzy mode off it never invokes it. *)
Theorem search_fuzzy_calls (st : State) (q : string) (opts : Options) :
  Forall
    (fun call =>
       opt_fuzzy opts = true
       /\ fst call = normalizeQuery q
       /\ textScore (fst call) (snd call) = 0
       /\ exists k, In (k, snd call) (searchIndex st))
    (searchFuzzyCalls st q opts)
  /\ (opt_fuzzy opts = false -> searchFuzzyCalls st q opts = []).
Proof.
  assert (H : Forall
                (fun call =>
                   opt_fuzzy opts = true
                   /\ fst call = normalizeQuery q
                   /\ textScore (fst call) (snd call) = 0
                   /\ exists k, In (k, snd call) (searchIndex st))
                (searchFuzzyCalls st q opts)).
  { unfold searchFuzzyCalls, searchTerms_run. fold (normalizeQuery q).
    destruct (JS.length (normalizeQuery q) <? 2); [constructor|].
    pose proof (scan_calls_Forall (normalizeQuery q) opts
                  (fun call =>
                     opt_fuzzy opts = true
                     /\ fst call = normalizeQuery q
                     /\ textScore (fst call) (snd call) = 0
                     /\ exists k, In (k, snd call) (searchIndex st))
                  (searchIndex st)) as Hscan.
    destruct (scan (normalizeQuery q) opts (searchIndex st) [] [])
      as [results calls] eqn:E.
    cbn [snd]. specialize (Hscan ltac:(
      intros k e Hin; rewrite calculateRelevanceScore_run_spec; cbn [snd];
      unfold fuzzyGate;
      destruct (opt_fuzzy opts); cbn [andb]; [|constructor];
      destruct (textScore (normalizeQuery q) e =? 0) eqn:Ez; [|constructor];
      constructor; [|constructor];
      cbn [fst snd]; apply Z.eqb_eq in Ez;
      repeat split; try assumption; now exists k) [] [] (Forall_nil _)).
    rewrite E in Hscan. exact Hscan. }
  split; [exact H|].
  intros Hoff. destruct (searchFuzzyCalls st q opts) as [|call calls];
    [reflexivity|].
  inversion H as [|? ? [Hon _] _]; subst. congruence.
Qed.

Lemma search_fuzzy_calls_witness :
  searchFuzzyCalls sampleState "zzzz" defaultOptions = [].
Proof.
  apply (search_fuzzy_calls sampleState "zzzz" defaultOptions).
  reflexivity.
Defined.

Lemma StronglySorted_split {A} (R : A -> A -> Prop) (l : list A) :
  StronglySorted R l ->
  forall n a d, In a (firstn n l) -> In d (skipn n l) -> R a d.
Proof.
  induction 1 as [|x l Hl IH Hx]; intros n a d Ha Hd.
  - destruct n; contradiction.
  - destruct n as [|n]; [contradiction|].
    cbn [firstn skipn] in *. destruct Ha as [<-|Ha].
    + apply (proj1 (Forall_forall _ _) Hx).
      rewrite <- (firstn_skipn n l). apply in_or_app. now right.
    + now apply (IH n).
Qed.

(** X13: for a limit of at least 0, the entries a search returns are the
    best of those collected: together with the ones it drops they are the
    collected entries, none of the dropped scores higher than a returned one,
    and their number is the smaller of the limit and the number collected. *)
Theorem search_returns_best_collected
    (st : State) (q : string) (opts : Options) :
  0 <= opt_limit opts ->
  2 <= JS.length (normalizeQuery q) ->
  exists kept dropped,
    searchTerms st q opts
    = Ok (createSearchBundle kept q
            (Z.of_nat (List.length (collected st q opts))))
    /\ Permutation (kept ++ dropped)%list (collected st q opts)
    /\ (forall a d, In a kept -> In d dropped -> score a >= score d)
    /\ Z.of_nat (List.length kept)
       = Z.min (opt_limit opts) (Z.of_nat (List.length (collected st q opts))).
Proof.
  intros Hlimit Hlong.
  set (sorted := sortByScore (collected st q opts)).
  set (n := Z.to_nat (opt_limit opts)).
  exists (firstn n sorted), (skipn n sorted).
  split.
  { rewrite (searchTerms_long st q opts Hlong).
    now rewrite slice_prefix by exact Hlimit. }
  split.
  { rewrite firstn_skipn. apply sortByScore_Permutation. }
  split.
  { intros a d Ha Hd.
    exact (StronglySorted_split byScore sorted (sortByScore_sorted _)
             n a d Ha Hd). }
  rewrite length_firstn.
  assert (Hlen : List.length sorted = List.length (collected st q opts)).
  { apply Permutation_length, sortByScore_Permutation. }
  rewrite Hlen. unfold n. lia.
Qed.

Lemma search_returns_best_collected_witness :
  exists kept dropped,
    searchTerms sampleState "vata" (mkOptions None None 1 false)
    = Ok (createSearchBundle kept "vata" 2)
    /\ List.length kept = 1%nat
    /\ forall a d, In a kept -> In d dropped -> score a >= score d.
Proof.
  destruct (search_returns_best_collected sampleState "vata"
              (mkOptions None None 1 false))
    as [kept [dropped [Hs [_ [Hbest Hlen]]]]].
  - cbn. lia.
  - vm_compute. discriminate.
  - exists kept, dropped. split; [exact Hs|]. split; [|exact Hbest].
    apply Nat2Z.inj. rewrite Hlen. reflexivity.
Defined.

Lemma codeIncrement_nonneg q e : 0 <= codeIncrement q e.
Proof.
  unfold codeIncrement.
  destruct (String.eqb (JS.toLowerCase (code e)) q);
    destruct (JS.includes (JS.toLowerCase (code e)) q); lia.
Qed.

Lemma textScore_nonneg q e : 0 <= textScore q e.
Proof.
  pose proof (codeIncrement_nonneg q e).
  pose proof (displayIncrement_nonneg q e).
  pose proof (definitionIncrement_nonneg q e).
  pose proof (termsIncrement_nonneg q e).
  unfold textScore. lia.
Qed.

Lemma codeIncrement_pos q e :
  0 < codeIncrement q e <-> JS.includes (JS.toLowerCase (code e)) q = true.
Proof.
  unfold codeIncrement.
  destruct (String.eqb_spec (JS.toLowerCase (code e)) q) as [->|Hne].
  - rewrite includes_refl. split; [reflexivity|lia].
  - destruct (JS.includes (JS.toLowerCase (code e)) q); split;
      try reflexivity; try lia; discriminate.
Qed.

Lemma displayIncrement_pos q e :
  0 < displayIncrement q e
  <-> JS.includes (JS.toLowerCase (display e)) q = true.
Proof.
  unfold displayIncrement.
  destruct (String.eqb_spec (JS.toLowerCase (display e)) q) as [->|Hne].
  - rewrite includes_refl. split; [reflexivity|lia].
  - destruct (JS.startsWith (JS.toLowerCase (display e)) q) eqn:Es.
    + rewrite (startsWith_includes _ _ Es). split; [reflexivity|lia].
    + destruct (JS.includes (JS.toLowerCase (display e)) q); split;
        try reflexivity; try lia; discriminate.
Qed.

Lemma definitionIncrement_pos q e :
  0 < definitionIncrement q e
  <-> JS.truthy (definition e)
      && JS.includes (JS.toLowerCase (definition e)) q = true.
Proof.
  unfold definitionIncrement.
  destruct (JS.truthy (definition e)
            && JS.includes (JS.toLowerCase (definition e)) q);
    split; try reflexivity; try lia; discriminate.
Qed.

Lemma termsIncrement_pos q e :
  0 < termsIncrement q e
  <-> exists t, In t (se_searchTerms e)
                /\ otherTermMatches q (JS.toLowerCase (code e))
                     (JS.toLowerCase (display e)) t = true.
Proof.
  unfold termsIncrement.
  set (p := otherTermMatches q (JS.toLowerCase (code e))
              (JS.toLowerCase (display e))).
  split.
  - intros H. destruct (List.filter p (se_searchTerms e)) as [|t l] eqn:E;
      [cbn in H; lia|].
    exists t. apply filter_In. rewrite E. now left.
  - intros [t Ht]. apply filter_In in Ht.
    destruct (List.filter p (se_searchTerms e)); [contradiction|].
    cbn [List.length]. lia.
Qed.

(** The text rules score exactly when the query occurs in the entry. *)
Lemma textScore_pos_iff q e :
  0 < textScore q e <-> matchesText q e = true.
Proof.
  pose proof (codeIncrement_nonneg q e) as Hc.
  pose proof (displayIncrement_nonneg q e) as Hd.
  pose proof (definitionIncrement_nonneg q e) as Hf.
  pose proof (termsIncrement_nonneg q e) as Ht.
  unfold textScore, matchesText. rewrite !orb_true_iff, existsb_exists.
  rewrite <- codeIncrement_pos, <- displayIncrement_pos,
    <- definitionIncrement_pos.
  split.
  - intros H.
    destruct (Z.lt_ge_cases 0 (codeIncrement q e)); [tauto|].
    destruct (Z.lt_ge_cases 0 (displayIncrement q e)); [tauto|].
    destruct (Z.lt_ge_cases 0 (definitionIncrement q e)); [tauto|].
    right. assert (Hpos : 0 < termsIncrement q e) by lia.
    apply termsIncrement_pos in Hpos. destruct Hpos as [t [Hin Hm]].
    exists t. split; [exact Hin|].
    unfold otherTermMatches in Hm.
    apply andb_true_iff in Hm. destruct Hm as [Hm _].
    apply andb_true_iff in Hm. tauto.
  - intros [[[H|H]|H]|[t [Hin Hinc]]]; try lia.
    destruct (String.eqb_spec t (JS.toLowerCase (code e))) as [->|Hnc].
    { apply codeIncrement_pos in Hinc. lia. }
    destruct (String.eqb_spec t (JS.toLowerCase (display e))) as [->|Hnd].
    { apply displayIncrement_pos in Hinc. lia. }
    assert (Hpos : 0 < termsIncrement q e).
    { apply termsIncrement_pos. exists t. split; [exact Hin|].
      unfold otherTermMatches. rewrite Hinc.
      apply String.eqb_neq in Hnc, Hnd. now rewrite Hnc, Hnd. }
    lia.
Qed.

(** X14: with fuzzy mode off, an entry scores above 0 exactly when it is a
    NAMASTE entry or the query occurs in its code, display, definition or
    search terms; so a search returns no other entry. *)
Theorem search_hits_match_or_namaste
    (st : State) (q : string) (opts : Options) :
  opt_fuzzy opts = false ->
  (forall e,
     calculateRelevanceScore (normalizeQuery q) e false > 0
     <-> systemType e = "namaste" \/ matchesText (normalizeQuery q) e = true)
  /\ (forall b be,
        searchTerms st q opts = Ok b ->
        In be (entry b) ->
        exists k e,
          In (k, e) (searchIndex st)
          /\ coding_system be = system e
          /\ coding_code be = code e
          /\ (systemType e = "namaste"
              \/ matchesText (normalizeQuery q) e = true)).
Proof.
  intros Hoff.
  assert (Hiff : forall e,
             calculateRelevanceScore (normalizeQuery q) e false > 0
             <-> systemType e = "namaste"
                 \/ matchesText (normalizeQuery q) e = true).
  { intros e. unfold calculateRelevanceScore.
    rewrite calculateRelevanceScore_run_spec. cbn [fst].
    unfold fuzzyGate. cbn [andb].
    rewrite <- textScore_pos_iff.
    pose proof (textScore_nonneg (normalizeQuery q) e) as Hn.
    unfold boostIncrement.
    destruct (String.eqb_spec (systemType e) "namaste") as [Hs|Hs].
    - split; [now left|lia].
    - split; [intros H; right; lia|intros [H|H]; [contradiction|lia]]. }
  split; [exact Hiff|].
  intros b be Hb Hbe.
  destruct (returned_from_collected st q opts b be Hb Hbe) as [r [Hr ->]].
  pose proof (proj1 (Forall_forall _ _) (collected_scored st q opts) r Hr)
    as [[k Hk] [Hs Hpos]].
  exists k, (s_entry r). split; [exact Hk|].
  cbn [toBundleEntry coding_system coding_code].
  split; [reflexivity|]. split; [reflexivity|].
  apply Hiff. rewrite Hoff in Hs. lia.
Qed.

Lemma search_hits_match_or_namaste_witness :
  calculateRelevanceScore (normalizeQuery "zzzz") entryAAB false > 0.
Proof.
  apply (proj1 (search_hits_match_or_namaste sampleState "zzzz"
                  defaultOptions eq_refl)).
  left. reflexivity.
Defined.

Lemma scan_all_positive (searchTerm : string) (opts : Options)
    (entries : Index) :
  (forall k e, In (k, e) entries ->
               passesFilters opts e = true
               /\ calculateRelevanceScore searchTerm e (opt_fuzzy opts) > 0) ->
  forall results calls,
    Z.of_nat (List.length results) < 3 * opt_limit opts ->
    Z.of_nat (List.length (fst (scan searchTerm opts entries results calls)))
    = Z.min (3 * opt_limit opts)
        (Z.of_nat (List.length results) + Z.of_nat (List.length entries)).
Proof.
  induction entries as [|[k e] rest IH]; intros Hall results calls Hlen;
    cbn [scan].
  - cbn [fst List.length]. lia.
  - assert (Hrest : forall k' e', In (k', e') rest ->
                      passesFilters opts e' = true
                      /\ calculateRelevanceScore searchTerm e'
                           (opt_fuzzy opts) > 0).
    { intros k' e' H. apply (Hall k' e'). now right. }
    destruct (Hall k e (or_introl eq_refl)) as [Hp Hpos].
    unfold passesFilters in Hp. apply andb_true_iff in Hp.
    destruct Hp as [Hp1 Hp2]. apply negb_true_iff in Hp1, Hp2.
    rewrite Hp1, Hp2.
    unfold calculateRelevanceScore in Hpos.
    destruct (calculateRelevanceScore_run searchTerm e (opt_fuzzy opts))
      as [sc c]. cbn [fst] in Hpos.
    assert (Hgt : (sc >? 0) = true) by (apply Z.gtb_lt; lia).
    rewrite Hgt. rewrite length_app. cbn [List.length].
    rewrite Z.geb_leb.
    destruct (Z.leb_spec (opt_limit opts * 3)
                (Z.of_nat (List.length results + 1))) as [Hfull|Hroom].
    + cbn [fst]. rewrite length_app. cbn [List.length]. lia.
    + rewrite (IH Hrest); [|rewrite length_app; cbn [List.length]; lia].
      rewrite length_app. cbn [List.length]. lia.
Qed.

(** X15: with fuzzy mode off and a limit of at least 1, an index whose
    entries are all NAMASTE entries that pass the filters matches every
    query: whatever the query, the total is the size of the index, or three
    times the limit if that is smaller. *)
Theorem search_collects_every_namaste_entry
    (st : State) (q : string) (opts : Options) :
  opt_fuzzy opts = false ->
  1 <= opt_limit opts ->
  2 <= JS.length (normalizeQuery q) ->
  (forall k e, In (k, e) (searchIndex st) ->
               systemType e = "namaste" /\ passesFilters opts e = true) ->
  exists b,
    searchTerms st q opts = Ok b
    /\ total b = Z.min (3 * opt_limit opts)
                   (Z.of_nat (List.length (searchIndex st))).
Proof.
  intros Hoff Hlimit Hlong Hall.
  eexists. split; [now apply searchTerms_long|].
  cbn [createSearchBundle total]. unfold collected.
  rewrite scan_all_positive; [cbn [List.length]; lia| |cbn [List.length]; lia].
  intros k e Hin. destruct (Hall k e Hin) as [Hn Hp]. split; [exact Hp|].
  rewrite Hoff. unfold calculateRelevanceScore.
  rewrite calculateRelevanceScore_run_spec. cbn [fst].
  unfold fuzzyGate. cbn [andb].
  pose proof (textScore_nonneg (normalizeQuery q) e).
  unfold boostIncrement. rewrite Hn. cbn. lia.
Qed.

Lemma search_collects_every_namaste_entry_witness :
  exists b,
    searchTerms sampleState "zzzz" defaultOptions = Ok b /\ total b = 2.
Proof.
  destruct (search_collects_every_namaste_entry sampleState "zzzz"
              defaultOptions) as [b [Hb Ht]];
    try reflexivity.
  - cbn. lia.
  - vm_compute. discriminate.
  - intros k e [H|[H|[]]]; injection H as <- <-; split; reflexivity.
  - exists b. split; [exact Hb|exact Ht].
Defined.

(** ** More on value-set expansion *)

Lemma expandValueSet_resolved
    (env : Env) (url : string) (filter : option string) (count offset : Z)
    (vdocs : list ValueSet) (valueSet : ValueSet) (sys : string)
    (cdocs : list CodeSystem) (codeSystem : CodeSystem) :
  db_valuesets env = Ok vdocs ->
  List.find (fun v => String.eqb (vs_url v) url) vdocs = Some valueSet ->
  firstIncludeSystem valueSet = Some sys ->
  db_codesystems env = Ok cdocs ->
  List.find (fun c => String.eqb (cs_url c) sys) cdocs = Some codeSystem ->
  exists x,
    expandValueSet env url filter count offset = Ok x
    /\ x_total (expansion x)
       = Z.of_nat (List.length (filteredConcepts filter codeSystem))
    /\ x_contains (expansion x)
       = List.map
           (fun concept =>
              mkContains sys (c_code concept) (c_display concept))
           (JS.slice (filteredConcepts filter codeSystem)
              offset (offset + count)).
Proof.
  intros Hvdocs Hvs Hsys Hcdocs Hcs.
  unfold expandValueSet, findOne. rewrite Hvdocs. cbn [bind]. rewrite Hvs.
  fold (firstIncludeSystem valueSet). rewrite Hsys, Hcdocs. cbn [bind].
  rewrite Hcs. eexists. split; [reflexivity|].
  cbn [expansion x_total x_contains].
  unfold filteredConcepts. destruct filter as [f|]; split; reflexivity.
Qed.

Lemma slice_as_firstn_skipn {A} (l : list A) (a b : Z) :
  0 <= a <= b ->
  JS.slice l a b = firstn (Z.to_nat (b - a)) (skipn (Z.to_nat a) l).
Proof.
  intros Hab. unfold JS.slice, JS.clamp_index.
  destruct (a <? 0) eqn:Ea; [apply Z.ltb_lt in Ea; lia|].
  destruct (b <? 0) eqn:Eb; [apply Z.ltb_lt in Eb; lia|].
  set (len := Z.of_nat (List.length l)).
  destruct (Z.le_gt_cases a len) as [Hal|Hal].
  - replace (Z.min a len) with a by lia.
    destruct (Z.le_gt_cases b len) as [Hbl|Hbl].
    + now replace (Z.min b len) with b by lia.
    + replace (Z.min b len) with len by lia.
      rewrite !firstn_all2; [reflexivity| |];
        rewrite length_skipn; unfold len in *; lia.
  - replace (Z.min a len) with len by lia.
    replace (Z.min b len) with len by lia.
    rewrite Z.sub_diag. cbn [Z.to_nat firstn].
    rewrite skipn_all2 by (unfold len in *; lia).
    now rewrite firstn_nil.
Qed.

Lemma firstn_sum {A} (n m : nat) (l : list A) :
  firstn (n + m) l = (firstn n l ++ firstn m (skipn n l))%list.
Proof.
  revert l. induction n as [|n IH]; intros l; [reflexivity|].
  destruct l as [|x l]; cbn [Nat.add firstn skipn app].
  - now rewrite firstn_nil.
  - now rewrite IH.
Qed.

Lemma slice_pages {A} (l : list A) (offset c1 c2 : Z) :
  0 <= offset -> 0 <= c1 -> 0 <= c2 ->
  JS.slice l offset (offset + (c1 + c2))
  = (JS.slice l offset (offset + c1)
     ++ JS.slice l (offset + c1) (offset + c1 + c2))%list.
Proof.
  intros Ho H1 H2.
  rewrite !slice_as_firstn_skipn by lia.
  replace (offset + (c1 + c2) - offset) with (c1 + c2) by lia.
  replace (offset + c1 - offset) with c1 by lia.
  replace (offset + c1 + c2 - (offset + c1)) with c2 by lia.
  rewrite Z2Nat.inj_add by lia. rewrite firstn_sum. f_equal.
  rewrite skipn_skipn. f_equal. f_equal. lia.
Qed.

(** X16: consecutive pages of an expansion fit together: the page of
    [c1 + c2] items at an offset is the page of [c1] items at that offset
    followed by the page of [c2] items at the offset [c1] further, and the
    total is the same for all three. *)
Theorem expand_pages_partition
    (env : Env) (url : string) (filter : option string) (offset c1 c2 : Z)
    (vdocs : list ValueSet) (valueSet : ValueSet) (sys : string)
    (cdocs : list CodeSystem) (codeSystem : CodeSystem) :
  0 <= offset -> 0 <= c1 -> 0 <= c2 ->
  db_valuesets env = Ok vdocs ->
  List.find (fun v => String.eqb (vs_url v) url) vdocs = Some valueSet ->
  firstIncludeSystem valueSet = Some sys ->
  db_codesystems env = Ok cdocs ->
  List.find (fun c => String.eqb (cs_url c) sys) cdocs = Some codeSystem ->
  exists x1 x2 x12,
    expandValueSet env url filter c1 offset = Ok x1
    /\ expandValueSet env url filter c2 (offset + c1) = Ok x2
    /\ expandValueSet env url filter (c1 + c2) offset = Ok x12
    /\ x_contains (expansion x12)
       = (x_contains (expansion x1) ++ x_contains (expansion x2))%list
    /\ x_total (expansion x1) = x_total (expansion x12)
    /\ x_total (expansion x2) = x_total (expansion x12).
Proof.
  intros Ho H1 H2 Hvdocs Hvs Hsys Hcdocs Hcs.
  destruct (expandValueSet_resolved env url filter c1 offset _ _ _ _ _
              Hvdocs Hvs Hsys Hcdocs Hcs) as [x1 [E1 [T1 C1]]].
  destruct (expandValueSet_resolved env url filter c2 (offset + c1) _ _ _ _ _
              Hvdocs Hvs Hsys Hcdocs Hcs) as [x2 [E2 [T2 C2]]].
  destruct (expandValueSet_resolved env url filter (c1 + c2) offset _ _ _ _ _
              Hvdocs Hvs Hsys Hcdocs Hcs) as [x12 [E12 [T12 C12]]].
  exists x1, x2, x12.
  repeat split; try assumption; try congruence.
  rewrite C12, C1, C2, <- map_app. f_equal.
  now apply slice_pages.
Qed.

Lemma expand_pages_partition_witness :
  exists x1 x2 x12,
    expandValueSet (sampleEnv (Ok [])) "urn:vs:namaste" None 1 0 = Ok x1
    /\ expandValueSet (sampleEnv (Ok [])) "urn:vs:namaste" None 1 1 = Ok x2
    /\ expandValueSet (sampleEnv (Ok [])) "urn:vs:namaste" None 2 0 = Ok x12
    /\ x_contains (expansion x12)
       = (x_contains (expansion x1) ++ x_contains (expansion x2))%list.
Proof.
  destruct (expand_pages_partition (sampleEnv (Ok [])) "urn:vs:namaste" None
              0 1 1 [sampleValueSet] sampleValueSet namasteUrl
              [namasteSystem] namasteSystem)
    as [x1 [x2 [x12 [E1 [E2 [E12 [Hc _]]]]]]];
    try reflexivity; try (cbn; lia).
  exists x1, x2, x12. repeat split; assumption.
Defined.

Lemma truthy_toLowerCase (s : string) :
  JS.truthy (JS.toLowerCase s) = JS.truthy s.
Proof. destruct s; reflexivity. Qed.

(** X17: the filter of an expansion is case-insensitive: two filters with
    the same lowercased form give the same total and the same page. *)
Theorem expand_filter_case_insensitive
    (env : Env) (url f f' : string) (count offset : Z)
    (vdocs : list ValueSet) (valueSet : ValueSet) (sys : string)
    (cdocs : list CodeSystem) (codeSystem : CodeSystem) :
  JS.toLowerCase f = JS.toLowerCase f' ->
  db_valuesets env = Ok vdocs ->
  List.find (fun v => String.eqb (vs_url v) url) vdocs = Some valueSet ->
  firstIncludeSystem valueSet = Some sys ->
  db_codesystems env = Ok cdocs ->
  List.find (fun c => String.eqb (cs_url c) sys) cdocs = Some codeSystem ->
  exists x x',
    expandValueSet env url (Some f) count offset = Ok x
    /\ expandValueSet env url (Some f') count offset = Ok x'
    /\ x_total (expansion x) = x_total (expansion x')
    /\ x_contains (expansion x) = x_contains (expansion x').
Proof.
  intros Hf Hvdocs Hvs Hsys Hcdocs Hcs.
  destruct (expandValueSet_resolved env url (Some f) count offset _ _ _ _ _
              Hvdocs Hvs Hsys Hcdocs Hcs) as [x [E [T C]]].
  destruct (expandValueSet_resolved env url (Some f') count offset _ _ _ _ _
              Hvdocs Hvs Hsys Hcdocs Hcs) as [x' [E' [T' C']]].
  assert (Heq : filteredConcepts (Some f) codeSystem
                = filteredConcepts (Some f') codeSystem).
  { unfold filteredConcepts.
    rewrite <- (truthy_toLowerCase f), <- (truthy_toLowerCase f'), Hf.
    reflexivity. }
  exists x, x'. repeat split; try assumption; congruence.
Qed.

Lemma expand_filter_case_insensitive_witness :
  exists x x',
    expandValueSet (sampleEnv (Ok [])) "urn:vs:namaste" (Some "JWARA") 20 0
    = Ok x
    /\ expandValueSet (sampleEnv (Ok [])) "urn:vs:namaste" (Some "jwara") 20 0
       = Ok x'
    /\ x_contains (expansion x) = x_contains (expansion x').
Proof.
  destruct (expand_filter_case_insensitive (sampleEnv (Ok []))
              "urn:vs:namaste" "JWARA" "jwara" 20 0 [sampleValueSet]
              sampleValueSet namasteUrl [namasteSystem] namasteSystem)
    as [x [x' [E [E' [_ Hc]]]]];
    try reflexivity.
  exists x, x'. repeat split; assumption.
Defined.

(** ** More on translation *)

Lemma findTranslation_well_formed (m : ConceptMap)
    (sourceSystem sourceCode : string) :
  wellFormedMap m = true ->
  exists o,
    findTranslation m sourceSystem sourceCode = Ok o
    /\ forall target, o = Some target -> isEquivalent target = true.
Proof.
  unfold wellFormedMap, findTranslation, find_opt, JS.find.
  destruct (cm_group m) as [|groups|]; cbn [fieldOk bind]; intros Hwf;
    [exists None; split; [reflexivity|discriminate]| |discriminate].
  destruct (List.find _ groups) as [g|] eqn:Eg;
    [|exists None; split; [reflexivity|discriminate]].
  apply find_some in Eg. destruct Eg as [Hg _].
  pose proof (proj1 (forallb_forall _ _) Hwf g Hg) as Hgwf.
  cbv beta in Hgwf.
  destruct (g_element g) as [|elements|]; cbn [fieldOk bind] in *;
    [exists None; split; [reflexivity|discriminate]| |discriminate].
  destruct (List.find _ elements) as [e|] eqn:Ee;
    [|exists None; split; [reflexivity|discriminate]].
  apply find_some in Ee. destruct Ee as [He _].
  pose proof (proj1 (forallb_forall _ _) Hgwf e He) as Hewf.
  cbv beta in Hewf.
  destruct (e_target e) as [|targets|]; cbn [fieldOk] in *;
    [exists None; split; [reflexivity|discriminate]| |discriminate].
  exists (List.find (fun t => String.eqb (t_equivalence t) "equivalent")
            targets).
  split; [reflexivity|].
  intros target Ht. apply find_some in Ht. apply Ht.
Qed.

(** X18: when the concept maps are read and none of them has a field of
    the wrong shape, a translation does not throw: it returns one of the two
    not-found answers or a match whose equivalence is 'equivalent'. *)
Theorem translate_returns_on_well_formed_store
    (env : Env) (docs : list ConceptMap)
    (sourceSystem sourceCode targetSystem : string) :
  db_conceptmaps env = Ok docs ->
  forallb wellFormedMap docs = true ->
  exists p,
    translateConcept env sourceSystem sourceCode targetSystem = Ok p
    /\ (p = notFound "No ConceptMap found for the specified systems"
        \/ p = notFound "No equivalent mapping found"
        \/ exists target,
             t_equivalence target = "equivalent"
             /\ p = matchFound targetSystem target).
Proof.
  intros Hdocs Hwf. unfold translateConcept, findOne.
  rewrite Hdocs. cbn [bind].
  destruct (List.find _ docs) as [m|] eqn:Em.
  - apply find_some in Em. destruct Em as [Hm _].
    pose proof (proj1 (forallb_forall _ _) Hwf m Hm) as Hmwf.
    destruct (findTranslation_well_formed m sourceSystem sourceCode Hmwf)
      as [o [Ho Heq]].
    rewrite Ho. cbn [bind]. destruct o as [target|].
    + eexists. split; [reflexivity|]. right. right. exists target.
      split; [|reflexivity].
      apply String.eqb_eq. now apply Heq.
    + eexists. split; [reflexivity|]. right. now left.
  - eexists. split; [reflexivity|]. now left.
Qed.

Lemma translate_returns_on_well_formed_store_witness :
  exists p,
    translateConcept (sampleEnv (Ok [mapDuplicated])) namasteUrl "AAB" tm2Url
    = Ok p.
Proof.
  destruct (translate_returns_on_well_formed_store
              (sampleEnv (Ok [mapDuplicated])) [mapDuplicated]
              namasteUrl "AAB" tm2Url eq_refl eq_refl) as [p [Hp _]].
  now exists p.
Defined.

(** A group array of the wrong shape makes the translation throw. *)
Example translate_throws_on_malformed_map :
  translateConcept
    (sampleEnv (Ok [mkConceptMap namasteUrl tm2Url Malformed]))
    namasteUrl "AAB" tm2Url
  = Throw TypeError.
Proof. reflexivity. Qed.

(** ** Dual coding *)

Lemma mappingsInGroups_classified (G : MappingGroup -> Prop)
    (s c : string) (groups : list MappingGroup) :
  (forall g, In g groups -> G g) ->
  forall found found',
    classified (fromFirstTarget G s c) found ->
    mappingsInGroups s c groups found = Ok found' ->
    classified (fromFirstTarget G s c) found'.
Proof.
  induction groups as [|g groups IH]; intros HG found found' Hfound;
    cbn [mappingsInGroups]; [now intros [= <-]|].
  assert (Hrest : forall g', In g' groups -> G g').
  { intros g' Hin. apply HG. now right. }
  specialize (IH Hrest).
  destruct (String.eqb_spec (g_source g) s) as [Hs|Hs]; [|now apply IH].
  destruct (g_element g) as [|elements|] eqn:Eel;
    [now apply IH| |discriminate].
  unfold JS.find.
  destruct (List.find _ elements) as [e|] eqn:Ee; [|now apply IH].
  destruct (e_target e) as [|[|target rest]|] eqn:Et; try now apply IH.
  assert (Href : forall sys,
             g_target g = sys ->
             fromFirstTarget G s c
               (mkCodingRef sys (t_code target) (t_display target))).
  { intros sys <-. exists g, elements, e, target, rest.
    cbn [cr_system cr_code cr_display].
    repeat split; try assumption; try reflexivity.
    apply HG. now left. }
  destruct Hfound as [Htm Hbio].
  destruct (JS.includes (g_target g) "traditional-medicine") eqn:Etm.
  - apply IH. split; cbn [tm2 bio]; [|exact Hbio].
    intros r [= <-]. split; [now apply Href|exact Etm].
  - destruct (JS.includes (g_target g) "mms") eqn:Emms;
      [|apply IH; now split].
    apply IH. split; cbn [tm2 bio]; [exact Htm|].
    intros r [= <-]. split; [now apply Href|]. now split.
Qed.

Lemma mappingsInMaps_classified (G : MappingGroup -> Prop)
    (s c : string) (maps : list ConceptMap) :
  (forall m groups g, In m maps -> cm_group m = Present groups ->
                      In g groups -> G g) ->
  forall found found',
    classified (fromFirstTarget G s c) found ->
    mappingsInMaps s c maps found = Ok found' ->
    classified (fromFirstTarget G s c) found'.
Proof.
  induction maps as [|m maps IH]; intros HG found found' Hfound;
    cbn [mappingsInMaps]; [now intros [= <-]|].
  assert (Hrest : forall m' groups g, In m' maps ->
                    cm_group m' = Present groups -> In g groups -> G g).
  { intros m' groups g Hin. apply (HG m'). now right. }
  specialize (IH Hrest).
  destruct (cm_group m) as [|groups|] eqn:Eg; [now apply IH| |discriminate].
  destruct (mappingsInGroups s c groups found) as [found1|err] eqn:E1;
    cbn [bind]; [|discriminate].
  apply IH.
  apply (mappingsInGroups_classified G s c groups) with (found := found);
    [|exact Hfound|exact E1].
  intros g Hin. apply (HG m groups g); [now left|exact Eg|exact Hin].
Qed.

(** X19: the two codings [findMappingsForCode] answers with are made of
    first targets only: each has the code and display of the first target of
    the first element with the code, in a group of the source system of a
    concept map of that source; the one filed under tm2 goes to a system
    marked 'traditional-medicine', the one under bio to a system marked 'mms'
    and not 'traditional-medicine'. *)
Theorem dual_mappings_from_first_targets
    (env : Env) (docs : list ConceptMap) (sourceSystem sourceCode : string) :
  db_conceptmaps env = Ok docs ->
  classified
    (fromFirstTarget (groupOfSource docs sourceSystem) sourceSystem
       sourceCode)
    (findMappingsForCode env sourceSystem sourceCode).
Proof.
  intros Hdocs. unfold findMappingsForCode. rewrite Hdocs.
  assert (Hnone : classified
                    (fromFirstTarget (groupOfSource docs sourceSystem)
                       sourceSystem sourceCode) noMappings).
  { split; intros r H; discriminate H. }
  destruct (mappingsInMaps sourceSystem sourceCode _ noMappings)
    as [found|err] eqn:E; [|exact Hnone].
  apply (mappingsInMaps_classified _ _ _ _) with (found := noMappings)
                                                 (3 := E);
    [|exact Hnone].
  intros m groups g Hm Hg Hin. apply filter_In in Hm.
  destruct Hm as [Hm Hs]. apply String.eqb_eq in Hs.
  now exists m, groups.
Qed.

Lemma dual_mappings_from_first_targets_witness :
  tm2 (findMappingsForCode (sampleEnv (Ok [mapSingle])) namasteUrl "AAB")
  = Some (mkCodingRef tm2Url "TM2.A0" "Disorders of Vata dosha")
  /\ JS.includes tm2Url "traditional-medicine" = true.
Proof.
  split; [reflexivity|].
  apply (proj1 (dual_mappings_from_first_targets
                  (sampleEnv (Ok [mapSingle])) [mapSingle] namasteUrl "AAB"
                  eq_refl)
           (mkCodingRef tm2Url "TM2.A0" "Disorders of Vata dosha")
           eq_refl).
Defined.

(** X20: a dual-coding search answers with one record for each entry of
    the search among NAMASTE entries, at most the limit of them; each record
    carries the coding of an index entry of system type 'namaste' together
    with the two codings found for its system and code; no failure of the
    store makes it throw. *)
Theorem dual_search_records
    (env : Env) (st : State) (q : string) (limit : Z) :
  0 <= limit ->
  exists b,
    searchWithDualCoding env st q limit = Ok b
    /\ dual_total b = Z.of_nat (List.length (dual_entry b))
    /\ dual_total b <= limit
    /\ Forall
         (fun r =>
            exists k e,
              In (k, e) (searchIndex st)
              /\ systemType e = "namaste"
              /\ namaste r = mkCodingRef (system e) (code e) (display e)
              /\ icd11TM2 r = tm2 (findMappingsForCode env (system e) (code e))
              /\ icd11Bio r = bio (findMappingsForCode env (system e) (code e)))
         (dual_entry b).
Proof.
  intros Hlimit. unfold searchWithDualCoding.
  set (opts := mkOptions None (Some "namaste") limit false).
  destruct (Z.lt_ge_cases (JS.length (normalizeQuery q)) 2) as [Hshort|Hlong].
  - rewrite (searchTerms_short st q opts Hshort). cbn [bind].
    eexists. split; [reflexivity|].
    cbn. repeat split; try lia. constructor.
  - rewrite (searchTerms_long st q opts Hlong). cbn [bind].
    eexists. split; [reflexivity|].
    cbn [dual_total dual_entry createSearchBundle entry].
    split; [reflexivity|]. split.
    + rewrite !length_map. change (opt_limit opts) with limit.
      rewrite slice_prefix by exact Hlimit.
      rewrite length_firstn. lia.
    + apply Forall_map. apply Forall_map. apply Forall_forall. intros r Hr.
      apply slice_In in Hr.
      apply (Permutation_in _ (sortByScore_Permutation _)) in Hr.
      pose proof (proj1 (Forall_forall _ _) (collected_scored st q opts) r Hr)
        as [[k Hk] _].
      assert (Hp : Forall (fun r => passesFilters opts (s_entry r) = true)
                     (collected st q opts)).
      { unfold collected. apply scan_Forall_passing; [|constructor].
        intros k' e' _ Hp _. exact Hp. }
      pose proof (proj1 (Forall_forall _ _) Hp r Hr) as Hpr.
      unfold passesFilters, opts in Hpr. cbn in Hpr.
      exists k, (s_entry r). split; [exact Hk|]. split.
      * destruct (String.eqb_spec (systemType (s_entry r)) "namaste");
          [assumption|discriminate].
      * cbn. repeat split.
Qed.

Lemma dual_search_records_witness :
  exists b,
    searchWithDualCoding (sampleEnv (Throw (Upstream "down"))) sampleState
      "vata" 1
    = Ok b
    /\ dual_total b <= 1.
Proof.
  destruct (dual_search_records (sampleEnv (Throw (Upstream "down")))
              sampleState "vata" 1) as [b [Hb [_ [Hle _]]]].
  - lia.
  - exists b. split; [exact Hb|exact Hle].
Defined.

(** The reason of a rejected query is lost on the way: the dual-coding
    search of a query too short is an empty bundle like any other. *)
Example dual_search_short_query :
  searchWithDualCoding (sampleEnv (Ok [mapSingle])) sampleState "v" 20
  = Ok (mkDualBundle 0 []).
Proof. reflexivity. Qed.

Example dual_search_ex :
  exists b r,
    searchWithDualCoding (sampleEnv (Ok [mapSingle])) sampleState "jwara" 20
    = Ok b
    /\ dual_total b = 2
    /\ hd_error (dual_entry b) = Some r
    /\ cr_code (namaste r) = "AAB"
    /\ icd11TM2 r
       = Some (mkCodingRef tm2Url "TM2.A0" "Disorders of Vata dosha")
    /\ icd11Bio r = None.
Proof.
  eexists. eexists. split; [vm_compute; reflexivity|].
  repeat split.
Qed.

(** ** Completeness of a search below the bound *)

Lemma scan_incl (searchTerm : string) (opts : Options) (entries : Index) :
  forall results calls r,
    In r results ->
    In r (fst (scan searchTerm opts entries results calls)).
Proof.
  induction entries as [|[k e] rest IH]; intros results calls r Hr;
    cbn [scan]; [exact Hr|].
  destruct (_ && _); [now apply IH|].
  destruct (_ && _); [now apply IH|].
  destruct (calculateRelevanceScore_run searchTerm e (opt_fuzzy opts))
    as [sc c].
  assert (Hr' : In r (if sc >? 0 then (results ++ [mkScored e sc])%list
                      else results)).
  { destruct (sc >? 0); [apply in_or_app; now left|exact Hr]. }
  destruct (_ >=? _); [exact Hr'|now apply IH].
Qed.

Lemma scan_complete (searchTerm : string) (opts : Options) (entries : Index) :
  forall results calls,
    Z.of_nat (List.length (fst (scan searchTerm opts entries results calls)))
    < 3 * opt_limit opts ->
    forall k e,
      In (k, e) entries ->
      passesFilters opts e = true ->
      calculateRelevanceScore searchTerm e (opt_fuzzy opts) > 0 ->
      In (mkScored e (calculateRelevanceScore searchTerm e (opt_fuzzy opts)))
        (fst (scan searchTerm opts entries results calls)).
Proof.
  induction entries as [|[k0 e0] rest IH]; intros results calls Hlen k e Hin
    Hp Hpos; [contradiction|].
  cbn [scan] in *. unfold passesFilters in Hp.
  destruct Hin as [Heq|Hin].
  - injection Heq as -> ->.
    apply andb_true_iff in Hp. destruct Hp as [Hp1 Hp2].
    apply negb_true_iff in Hp1, Hp2. rewrite Hp1, Hp2 in *.
    unfold calculateRelevanceScore in *.
    destruct (calculateRelevanceScore_run searchTerm e (opt_fuzzy opts))
      as [sc c]. cbn [fst] in *.
    assert (Hgt : (sc >? 0) = true) by (apply Z.gtb_lt; lia).
    rewrite Hgt in *.
    destruct (_ >=? _).
    + cbn [fst]. apply in_or_app. right. now left.
    + apply scan_incl. apply in_or_app. right. now left.
  - destruct (JS.truthy_opt (opt_systemFilter opts) && _);
      [now apply (IH _ _ Hlen k e)|].
    destruct (JS.truthy_opt (opt_systemType opts) && _);
      [now apply (IH _ _ Hlen k e)|].
    destruct (calculateRelevanceScore_run searchTerm e0 (opt_fuzzy opts))
      as [sc c].
    rewrite Z.geb_leb in *.
    destruct (Z.leb_spec (opt_limit opts * 3)
                (Z.of_nat
                   (List.length
                      (if sc >? 0 then (results ++ [mkScored e0 sc])%list
                       else results)))) as [Hfull|Hroom].
    + cbn [fst] in Hlen. lia.
    + now apply (IH _ _ Hlen k e).
Qed.

(** X21: when a search reports a total below three times the limit, the
    early stop did not cut the scan short: every entry of the index that
    passes the filters and scores above 0 was collected. *)
Theorem search_complete_below_bound
    (st : State) (q : string) (opts : Options) (b : Bundle)
    (k : string) (e : SearchEntry) :
  2 <= JS.length (normalizeQuery q) ->
  searchTerms st q opts = Ok b ->
  total b < 3 * opt_limit opts ->
  In (k, e) (searchIndex st) ->
  passesFilters opts e = true ->
  calculateRelevanceScore (normalizeQuery q) e (opt_fuzzy opts) > 0 ->
  In (mkScored e
        (calculateRelevanceScore (normalizeQuery q) e (opt_fuzzy opts)))
    (collected st q opts).
Proof.
  intros Hlong Hb Htotal Hin Hp Hpos.
  rewrite (searchTerms_long st q opts Hlong) in Hb. injection Hb as <-.
  cbn [createSearchBundle total] in Htotal.
  unfold collected in *. now apply (scan_complete _ _ _ _ _ Htotal k e).
Qed.

Lemma search_complete_below_bound_witness :
  In (mkScored entryVAT1 105) (collected sampleState "vata" defaultOptions).
Proof.
  assert (Hb : searchTerms sampleState "vata" defaultOptions
               = Ok (createSearchBundle
                       (JS.slice
                          (sortByScore
                             (collected sampleState "vata" defaultOptions))
                          0 (opt_limit defaultOptions))
                       "vata"
                       (Z.of_nat
                          (List.length
                             (collected sampleState "vata" defaultOptions)))))
    by reflexivity.
  apply (search_complete_below_bound sampleState "vata" defaultOptions _
           (indexKey namasteUrl "VAT1") entryVAT1 ltac:(vm_compute; discriminate)
           Hb);
    try reflexivity.
  right. left. reflexivity.
Defined.

(** ** Category search *)

Lemma categoryScan_incl (category : string) (wanted : option string)
    (limit : Z) (entries : Index) :
  forall results e,
    In e results -> In e (categoryScan category wanted limit entries results).
Proof.
  induction entries as [|[k e0] rest IH]; intros results e He;
    cbn [categoryScan]; [exact He|].
  destruct (_ && _); [now apply IH|].
  assert (He' : In e (if categoryMatch category e0
                      then (results ++ [e0])%list else results)).
  { destruct (categoryMatch category e0); [apply in_or_app; now left|exact He]. }
  destruct (_ >=? _); [exact He'|now apply IH].
Qed.

Lemma categoryScan_Forall (category : string) (wanted : option string)
    (limit : Z) (P : SearchEntry -> Prop) (entries : Index) :
  (forall k e, In (k, e) entries -> typeWanted wanted e = true ->
               categoryMatch category e = true -> P e) ->
  forall results,
    Forall P results ->
    Forall P (categoryScan category wanted limit entries results).
Proof.
  induction entries as [|[k e] rest IH]; intros Hin results Hres;
    cbn [categoryScan]; [exact Hres|].
  assert (Hrest : forall k' e', In (k', e') rest ->
                    typeWanted wanted e' = true ->
                    categoryMatch category e' = true -> P e').
  { intros k' e' H. apply (Hin k' e'). now right. }
  specialize (Hin k e (or_introl eq_refl)). unfold typeWanted in Hin.
  destruct (_ && _); [now apply (IH Hrest)|].
  specialize (Hin eq_refl).
  assert (Hres' : Forall P (if categoryMatch category e
                            then (results ++ [e])%list else results)).
  { destruct (categoryMatch category e); [|exact Hres].
    apply Forall_app. split; [exact Hres|]. constructor; [now apply Hin|].
    constructor. }
  destruct (_ >=? _); [exact Hres'|now apply (IH Hrest)].
Qed.

Lemma categoryScan_length (category : string) (wanted : option string)
    (limit : Z) (entries : Index) :
  forall results,
    Z.of_nat (List.length results) < limit ->
    Z.of_nat (List.length (categoryScan category wanted limit entries results))
    <= limit.
Proof.
  induction entries as [|[k e] rest IH]; intros results Hlen;
    cbn [categoryScan]; [lia|].
  destruct (_ && _); [now apply IH|].
  set (results' := if categoryMatch category e
                   then (results ++ [e])%list else results).
  assert (Hlen' : Z.of_nat (List.length results')
                  <= Z.of_nat (List.length results) + 1).
  { unfold results'. destruct (categoryMatch category e); [|lia].
    rewrite length_app. cbn [List.length]. lia. }
  rewrite Z.geb_leb.
  destruct (Z.leb_spec limit (Z.of_nat (List.length results')));
    [lia|apply IH; lia].
Qed.

Lemma categoryScan_complete (category : string) (wanted : option string)
    (limit : Z) (entries : Index) :
  forall results,
    Z.of_nat (List.length (categoryScan category wanted limit entries results))
    < limit ->
    forall k e,
      In (k, e) entries ->
      typeWanted wanted e = true ->
      categoryMatch category e = true ->
      In e (categoryScan category wanted limit entries results).
Proof.
  induction entries as [|[k0 e0] rest IH]; intros results Hlen k e Hin Ht Hm;
    [contradiction|].
  cbn [categoryScan] in *. unfold typeWanted in Ht.
  destruct Hin as [Heq|Hin].
  - injection Heq as -> ->. apply negb_true_iff in Ht.
    rewrite Ht, Hm in *.
    destruct (_ >=? _).
    + apply in_or_app. right. now left.
    + apply categoryScan_incl. apply in_or_app. right. now left.
  - destruct (JS.truthy_opt wanted && _); [now apply (IH _ Hlen k e)|].
    rewrite Z.geb_leb in *.
    destruct (Z.leb_spec limit
                (Z.of_nat
                   (List.length
                      (if categoryMatch category e0
                       then (results ++ [e0])%list else results))));
      [lia|now apply (IH _ Hlen k e)].
Qed.

(** X22: for a limit of at least 1, a category search returns at most the
    limit entries, its total being their number; each is an entry of the
    index with a 'category' property whose value contains the category,
    case-insensitively, and of the system type asked for; and when the total
    is below the limit no such entry of the index is missing. *)
Theorem category_search_results
    (st : State) (category : string) (wanted : option string) (limit : Z) :
  1 <= limit ->
  exists b,
    searchByCategory st category wanted limit = Ok b
    /\ cat_total b = Z.of_nat (List.length (cat_entry b))
    /\ cat_total b <= limit
    /\ Forall
         (fun ce =>
            exists k e,
              In (k, e) (searchIndex st)
              /\ ce = toCategoryEntry e
              /\ categoryMatch category e = true
              /\ typeWanted wanted e = true)
         (cat_entry b)
    /\ (cat_total b < limit ->
        forall k e,
          In (k, e) (searchIndex st) ->
          typeWanted wanted e = true ->
          categoryMatch category e = true ->
          In (toCategoryEntry e) (cat_entry b)).
Proof.
  intros Hlimit. unfold searchByCategory. eexists. split; [reflexivity|].
  cbn [cat_total cat_entry].
  split; [now rewrite length_map|]. split.
  { apply categoryScan_length. cbn [List.length]. lia. }
  split.
  { apply Forall_map.
    apply (categoryScan_Forall category wanted limit
             (fun e0 =>
                exists k e,
                  In (k, e) (searchIndex st)
                  /\ toCategoryEntry e0 = toCategoryEntry e
                  /\ categoryMatch category e = true
                  /\ typeWanted wanted e = true));
      [|constructor].
    intros k e Hin Ht Hm. exists k, e. auto. }
  intros Hlen k e Hin Ht Hm. apply in_map.
  now apply (categoryScan_complete category wanted limit _ _ Hlen k e).
Qed.

Lemma category_search_results_witness :
  exists b,
    searchByCategory sampleState "VATA" None 50 = Ok b
    /\ cat_total b <= 50
    /\ In (toCategoryEntry entryVAT1) (cat_entry b).
Proof.
  destruct (category_search_results sampleState "VATA" None 50)
    as [b [Hb [_ [Hle [_ Hall]]]]]; [lia|].
  exists b. split; [exact Hb|]. split; [exact Hle|].
  apply (Hall ltac:(injection Hb as <-; vm_compute; reflexivity)
           (indexKey namasteUrl "VAT1") entryVAT1);
    try reflexivity.
  right. left. reflexivity.
Defined.

(** ** Bundles of conditions *)

Lemma two_distinct_members {A} (a b : A) (l : list A) :
  In a l -> In b l -> a <> b -> (2 <= List.length l)%nat.
Proof.
  intros Ha Hb Hab. destruct l as [|x [|y l]]; cbn [List.length]; try lia.
  - contradiction.
  - destruct Ha as [<-|[]], Hb as [<-|[]]. congruence.
Qed.

Lemma namaste_coding_not_icd (c : Coding) :
  isNamasteCoding c = true -> isICD11Coding c = false.
Proof.
  unfold isNamasteCoding, isICD11Coding.
  destruct (cd_system c) as [s|]; [|discriminate].
  intros H. apply String.eqb_eq in H. subst s. reflexivity.
Qed.

(** X23: the dual-coding validation accepts a condition exactly when one of
    its codings is of the NAMASTE system and one is of a system that
    mentions 'icd' or 'who.int'; the two are then different codings, so the
    test on the number of codings never rejects such a condition. *)
Theorem validateDualCoding_accepts (condition : Resource) :
  validateDualCoding condition = Ok true
  <-> exists coding,
        r_coding condition = Some coding
        /\ existsb isNamasteCoding coding = true
        /\ existsb isICD11Coding coding = true.
Proof.
  unfold validateDualCoding. split.
  - destruct (r_coding condition) as [coding|]; [|discriminate].
    destruct (List.length coding <? 2)%nat; [discriminate|].
    destruct (existsb isNamasteCoding coding) eqn:Hn; [|discriminate].
    destruct (existsb isICD11Coding coding) eqn:Hi; [|discriminate].
    intros _. exists coding. repeat split; assumption.
  - intros [coding [-> [Hn Hi]]]. rewrite Hn, Hi.
    apply existsb_exists in Hn. destruct Hn as [c1 [Hc1 Hn]].
    apply existsb_exists in Hi. destruct Hi as [c2 [Hc2 Hi]].
    assert (Hlen : (2 <= List.length coding)%nat).
    { apply (two_distinct_members c1 c2); try assumption.
      intros ->. rewrite (namaste_coding_not_icd c2 Hn) in Hi. discriminate. }
    apply Nat.ltb_ge in Hlen. rewrite Hlen. reflexivity.
Qed.

Lemma processEntries_answers (sup : Supply) (es : list SubmittedEntry) :
  forall i p,
    exists added,
      processedEntries (processEntries sup i es p)
      = (processedEntries p ++ added)%list
      /\ Forall2 answers es added.
Proof.
  induction es as [|e es IH]; intros i p; cbn [processEntries].
  - exists []. split; [now rewrite app_nil_r|constructor].
  - destruct (IH (i + 1) (processEntry sup i e p)) as [added [Heq Hall]].
    assert (Hone : exists r,
               processedEntries (processEntry sup i e p)
               = (processedEntries p ++ [r])%list
               /\ answers e r).
    { unfold processEntry, answers.
      destruct (isCondition e) as [c|].
      - destruct (validateDualCoding c) as [b|err].
        + destruct (JS.truthy_opt (r_id c)); eexists;
            (split; [reflexivity|]); cbn; repeat split; discriminate.
        + eexists. split; [reflexivity|]. cbn. repeat split.
      - eexists. split; [reflexivity|]. cbn. repeat split. }
    destruct Hone as [r [Hr Ha]].
    exists (r :: added). split; [|now constructor].
    rewrite Heq, Hr, <- app_assoc. reflexivity.
Qed.

(** X24: for a bundle with an entry array, [processBundle] returns a
    response for each entry, in order, and no entry makes it throw: a
    condition that passes the validation is created, one that fails it is
    rejected with the message of the validation, any other resource
    succeeds. *)
Theorem processBundle_answers_each_entry
    (sup : Supply) (bundle : SubmittedBundle) (es : list SubmittedEntry) :
  sb_entry bundle = Some es ->
  exists tr,
    processBundle sup bundle = Ok tr
    /\ Forall2 answers es (tr_entry tr).
Proof.
  intros Hes. unfold processBundle. rewrite Hes.
  eexists. split; [reflexivity|]. cbn [tr_entry].
  destruct (processEntries_answers sup es 0 (mkProcessed [] [] 0 0))
    as [added [Heq Hall]].
  rewrite Heq. exact Hall.
Qed.

Lemma validateDualCoding_accepts_witness :
  validateDualCoding sampleCondition = Ok true.
Proof.
  apply (proj2 (validateDualCoding_accepts sampleCondition)).
  eexists. split; [reflexivity|]. split; reflexivity.
Defined.

Lemma processBundle_answers_each_entry_witness :
  exists tr,
    processBundle sampleSupply sampleSubmission = Ok tr
    /\ List.map status (tr_entry tr)
       = ["201 Created"; "400 Bad Request"; "200 OK"].
Proof.
  destruct (processBundle_answers_each_entry sampleSupply sampleSubmission
              _ eq_refl) as [tr [Htr _]].
  exists tr. split; [exact Htr|].
  injection Htr as <-. reflexivity.
Defined.

(** A bundle without an entry array makes it throw. *)
Example processBundle_without_entries :
  processBundle sampleSupply (mkSubmittedBundle None None) = Throw TypeError.
Proof. reflexivity. Qed.

(** ** From the store to a search *)

Lemma Map_get_In (k : string) (m : Index) (v : SearchEntry) :
  Map_get k m = Some v -> In (k, v) m.
Proof.
  induction m as [|[k0 v0] m IH]; cbn [Map_get]; [discriminate|].
  destruct (String.eqb_spec k0 k) as [->|Hne].
  - intros [= ->]. now left.
  - intros H. right. now apply IH.
Qed.

Lemma exact_code_score (q : string) (e : SearchEntry) (fz : bool) :
  JS.toLowerCase (code e) = q ->
  100 <= calculateRelevanceScore q e fz.
Proof.
  intros Hq. unfold calculateRelevanceScore.
  rewrite calculateRelevanceScore_run_spec. cbn [fst].
  assert (Hc : codeIncrement q e = 100).
  { unfold codeIncrement. now rewrite Hq, String.eqb_refl. }
  pose proof (displayIncrement_nonneg q e).
  pose proof (definitionIncrement_nonneg q e).
  pose proof (termsIncrement_nonneg q e).
  assert (Hg : fuzzyGate q e fz = false).
  { unfold fuzzyGate, textScore.
    replace (_ =? 0) with false; [apply andb_false_r|].
    symmetry. apply Z.eqb_neq. lia. }
  rewrite Hg. unfold textScore, boostIncrement.
  destruct (String.eqb (systemType e) "namaste"); lia.
Qed.

(** X25: a concept read from the store is found by its code: after a build
    from the store, a search for the code of a concept (given without
    surrounding spaces, the concept being the last indexed under its key)
    whose total stays below three times the limit has collected the entry of
    that concept, with a score of at least 100, provided the entry passes
    the filters. *)
Theorem built_concept_found_by_code
    (env : Env) (st : State) (css : list CodeSystem)
    (l1 l2 : list (CodeSystem * Concept)) (cs : CodeSystem) (c : Concept)
    (opts : Options) (b : Bundle) :
  cacheMiss env = true ->
  db_codesystems env = Ok css ->
  conceptsOf css = (l1 ++ (cs, c) :: l2)%list ->
  (forall p', In p' l2 -> conceptKey p' <> conceptKey (cs, c)) ->
  normalizeQuery (c_code c) = JS.toLowerCase (c_code c) ->
  2 <= JS.length (normalizeQuery (c_code c)) ->
  passesFilters opts (createSearchEntry c cs) = true ->
  searchTerms (builtState env st) (c_code c) opts = Ok b ->
  total b < 3 * opt_limit opts ->
  exists r,
    In r (collected (builtState env st) (c_code c) opts)
    /\ system (s_entry r) = cs_url cs
    /\ code (s_entry r) = c_code c
    /\ display (s_entry r) = c_display c
    /\ 100 <= score r.
Proof.
  intros Hmiss Hcs Hl Hl2 Hnorm Hlong Hpass Hb Htotal.
  assert (Hget : exists ms,
             Map_get (conceptKey (cs, c)) (searchIndex (builtState env st))
             = Some (setMappings (createSearchEntry c cs) ms)).
  { unfold builtState. fold (builtIndex env st).
    rewrite (builtIndex_on_miss env st css Hmiss Hcs).
    apply (sameButMappings_get (indexConcepts css (searchIndex st)));
      [apply enhanceWithMappings_same|].
    rewrite indexConcepts_fold, Hl.
    exact (fold_putConcept_last (cs, c) l1 l2 (searchIndex st) Hl2). }
  destruct Hget as [ms Hget]. apply Map_get_In in Hget.
  set (e := setMappings (createSearchEntry c cs) ms) in *.
  assert (Hscore : 100 <= calculateRelevanceScore (normalizeQuery (c_code c))
                            e (opt_fuzzy opts)).
  { apply exact_code_score. now rewrite Hnorm. }
  rewrite (searchTerms_long _ _ opts Hlong) in Hb. injection Hb as <-.
  cbn [createSearchBundle total] in Htotal.
  eexists. split.
  - unfold collected in *.
    apply (scan_complete _ _ _ _ _ Htotal _ e Hget); [exact Hpass|lia].
  - cbn [s_entry score]. repeat split. exact Hscore.
Qed.

Lemma built_concept_found_by_code_witness :
  exists r,
    In r (collected (builtState (sampleEnv (Ok [mapSingle])) (mkState [] None))
            "VAT1" defaultOptions)
    /\ code (s_entry r) = "VAT1"
    /\ 100 <= score r.
Proof.
  destruct (built_concept_found_by_code (sampleEnv (Ok [mapSingle]))
              (mkState [] None) [namasteSystem]
              [(namasteSystem, conceptAAB)] [] namasteSystem conceptVAT1
              defaultOptions
              (createSearchBundle
                 (JS.slice
                    (sortByScore
                       (collected
                          (builtState (sampleEnv (Ok [mapSingle]))
                             (mkState [] None))
                          "VAT1" defaultOptions))
                    0 20)
                 "VAT1" 2))
    as [r [Hin [_ [Hc [_ Hs]]]]];
    try reflexivity.
  - intros p' [].
  - vm_compute. discriminate.
  - exists r. split; [exact Hin|]. split; [exact Hc|exact Hs].
Defined.
